(** * fabulous-json: a shallow embedding of [src/index.ts]

    The development follows the layout of the source file: the option
    record, the [stringify] entry point with its nested closures
    ([processValue], [tableOfArrays], [tableOfObjects], [formatArray],
    [formatObject]) and the module-level helpers ([sum], [arrMin],
    [arrMax], [getColumnWidths], [joinColumns], [findMaxItemsWide],
    [anyCommon], [getTableColumnOrder], [decimalAlignment]).

    Scope of the model.
    - Strings are sequences of code units below 256 ([string]); lengths
      are counted in code units, as [String.prototype.length] does.
    - A Number is an integer printed in plain decimal notation, [NaN] or
      an infinity: the integers below [10^21] in magnitude, which is
      where [Number::toString] prints them so.  Fractions are outside
      the model.  Numeric options are integers.
    - Arrays are dense.  Objects are plain: their own enumerable
      properties in [Object.keys] order, with no key that collides with
      a built-in property of [Object.prototype] or [Array.prototype]
      ([toJSON] is read as an own property).
    - A function held in the data is known by its [length] and by the
      value it returns when it is called as [toJSON].
    - Callbacks of the option record are total and pure.
    - A JavaScript exception is the outcome [Throw]; recursion is bounded
      by a fuel argument and running out of it is the outcome
      [OutOfFuel], which no theorem below mistakes for a result. *)

From Stdlib Require Import ZArith List String Ascii Bool Lia DecimalString.
From Stdlib Require Import Permutation.
From Stdlib Require DecimalFacts DecimalPos DecimalZ.
Import ListNotations.

Local Open Scope string_scope.
Local Open Scope Z_scope.

(** ** Outcomes of JavaScript evaluation *)

Inductive error : Type :=
| TypeError (msg : string)
| RangeError (msg : string)
| SyntaxError (msg : string)
| PlainError (msg : string).

Inductive outcome (A : Type) : Type :=
| Ok (a : A)
| Throw (e : error)
| OutOfFuel.

Arguments Ok {A} a.
Arguments Throw {A} e.
Arguments OutOfFuel {A}.

Definition bind {A B : Type} (m : outcome A) (k : A -> outcome B) : outcome B :=
  match m with
  | Ok a => k a
  | Throw e => Throw e
  | OutOfFuel => OutOfFuel
  end.

Notation "x <- m ;; k" := (bind m (fun x => k))
  (at level 61, m at next level, right associativity).

(** [for]-loops that may throw: the body is run on each element in turn and
    the first exception stops the loop. *)
Fixpoint mapM {A B : Type} (f : A -> outcome B) (l : list A) : outcome (list B) :=
  match l with
  | [] => Ok []
  | a :: l' => b <- f a ;; bs <- mapM f l' ;; Ok (b :: bs)
  end.

(** Loops with an early [return null]: [None] leaves the enclosing
    function with [null]. *)
Fixpoint mapM_opt {A B : Type} (f : A -> outcome (option B)) (l : list A)
  : outcome (option (list B)) :=
  match l with
  | [] => Ok (Some [])
  | a :: l' =>
      r <- f a ;;
      match r with
      | None => Ok None
      | Some b =>
          rs <- mapM_opt f l' ;;
          match rs with
          | None => Ok None
          | Some bs => Ok (Some (b :: bs))
          end
      end
  end.

(** ** Strings *)

Definition dquote : string := String "034"%char EmptyString.
Definition newline : string := String "010"%char EmptyString.

Definition len (s : string) : Z := Z.of_nat (String.length s).

(** [s.repeat(n)] for a natural count. *)
Fixpoint repeat_nat (s : string) (n : nat) : string :=
  match n with
  | O => EmptyString
  | S n' => s ++ repeat_nat s n'
  end.

(** [s.repeat(count)]: a negative count is a [RangeError]. *)
Definition str_repeat (s : string) (count : Z) : outcome string :=
  if count <? 0 then Throw (RangeError "Invalid count value")
  else Ok (repeat_nat s (Z.to_nat count)).

(** [s.repeat(count)] where [count] may be [NaN] ([None]), which counts as 0. *)
Definition str_repeat_nan (s : string) (count : option Z) : outcome string :=
  match count with
  | Some c => str_repeat s c
  | None => Ok EmptyString
  end.

(** [items.join(sep)] *)
Definition join (sep : string) (items : list string) : string :=
  String.concat sep items.

(** [s.includes('\n')] *)
Fixpoint includes_newline (s : string) : bool :=
  match s with
  | EmptyString => false
  | String c s' => Ascii.eqb c "010"%char || includes_newline s'
  end.

(** [item[0] !== ch] on a one-character [ch]. *)
Definition first_char_is (c : ascii) (s : string) : bool :=
  match s with
  | String c' _ => Ascii.eqb c c'
  | EmptyString => false
  end.

(** [s.indexOf('.')], [-1] when absent. *)
Fixpoint indexOf_from (c : ascii) (s : string) (i : Z) : Z :=
  match s with
  | EmptyString => -1
  | String c' s' => if Ascii.eqb c c' then i else indexOf_from c s' (i + 1)
  end.

Definition indexOf (c : ascii) (s : string) : Z := indexOf_from c s 0.

(** [String(n)] for an integer. *)
Definition Z_to_string (z : Z) : string := NilZero.string_of_int (Z.to_int z).

Definition nat_to_string (n : nat) : string := Z_to_string (Z.of_nat n).

Definition is_digit (c : ascii) : bool :=
  let n := nat_of_ascii c in (48 <=? n)%nat && (n <=? 57)%nat.

Fixpoint skip_digits (s : string) : string :=
  match s with
  | String c s' => if is_digit c then skip_digits s' else s
  | EmptyString => s
  end.

Definition starts_with_digit (s : string) : bool :=
  match s with
  | String c _ => is_digit c
  | EmptyString => false
  end.

(** [!Number.isNaN(Number(s))] on the decimal literals a rendering can
    produce: an optional sign, digits, an optional fraction and an optional
    exponent.  Every other rendering starts with a quote, a bracket or a
    letter and converts to [NaN]. *)
Definition is_numeric (s : string) : bool :=
  let s1 := match s with
            | String c s' =>
                if Ascii.eqb c "-"%char || Ascii.eqb c "+"%char then s' else s
            | EmptyString => s
            end in
  starts_with_digit s1 &&
  let s2 := skip_digits s1 in
  let frac := match s2 with
              | String c s' => if Ascii.eqb c "."%char then Some s' else None
              | EmptyString => None
              end in
  let s3 := match frac with
            | Some f => skip_digits f
            | None => s2
            end in
  match s3 with
  | EmptyString => true
  | String c s' =>
      (Ascii.eqb c "e"%char || Ascii.eqb c "E"%char) &&
      let s4 := match s' with
                | String c' s'' =>
                    if Ascii.eqb c' "-"%char || Ascii.eqb c' "+"%char then s'' else s'
                | EmptyString => s'
                end in
      starts_with_digit s4 &&
      match skip_digits s4 with
      | EmptyString => true
      | String _ _ => false
      end
  end.

(** ** JavaScript values *)

Inductive number : Type :=
| Int (z : Z)
| NaN
| Infinity
| NegInfinity.

#[warnings="-register-all"]
Inductive value : Type :=
| VUndefined
| VNull
| VBool (b : bool)
| VNumber (n : number)
| VBigInt (z : Z)
| VString (s : string)
| VFunction (arity : nat) (returns : value)
| VArray (items : list value)
| VObject (props : list (string * value)).

Inductive jstype : Type :=
| TUndefined | TObject | TBoolean | TNumber | TBigint | TString | TFunction.

Definition typeof (v : value) : jstype :=
  match v with
  | VUndefined => TUndefined
  | VNull => TObject
  | VBool _ => TBoolean
  | VNumber _ => TNumber
  | VBigInt _ => TBigint
  | VString _ => TString
  | VFunction _ _ => TFunction
  | VArray _ => TObject
  | VObject _ => TObject
  end.

Definition is_object_type (v : value) : bool :=
  match typeof v with TObject => true | _ => false end.

Definition isArray (v : value) : bool :=
  match v with VArray _ => true | _ => false end.

Definition is_undefined (v : value) : bool :=
  match v with VUndefined => true | _ => false end.

(** [typeof el !== 'undefined' && typeof el !== 'function'] *)
Definition representable (v : value) : bool :=
  match v with
  | VUndefined => false
  | VFunction _ _ => false
  | _ => true
  end.

(** The array index a property name denotes, if any: a canonical decimal
    numeral below [2^32 - 1]. *)
Fixpoint digits_value (s : string) (acc : Z) : option Z :=
  match s with
  | EmptyString => Some acc
  | String c s' =>
      if is_digit c
      then digits_value s' (10 * acc + (Z.of_nat (nat_of_ascii c) - 48))
      else None
  end.

Definition array_index (k : string) : option Z :=
  match k with
  | EmptyString => None
  | String c rest =>
      if Ascii.eqb c "0"%char && negb (String.eqb rest EmptyString) then None
      else match digits_value k 0 with
           | Some n => if n <? 4294967295 then Some n else None
           | None => None
           end
  end.

Fixpoint assoc (k : string) (props : list (string * value)) : option value :=
  match props with
  | [] => None
  | (k', v) :: props' => if String.eqb k k' then Some v else assoc k props'
  end.

(** [e?.[k]]: property read, [undefined] on [null] and [undefined]. *)
Definition get (e : value) (k : string) : value :=
  match e with
  | VObject props =>
      match assoc k props with Some v => v | None => VUndefined end
  | VArray items =>
      match array_index k with
      | Some i => nth (Z.to_nat i) items VUndefined
      | None => VUndefined
      end
  | VString s =>
      match array_index k with
      | Some i =>
          match String.get (Z.to_nat i) s with
          | Some c => VString (String c EmptyString)
          | None => VUndefined
          end
      | None => VUndefined
      end
  | _ => VUndefined
  end.

(** [k in v] on an object; a [TypeError] on every other value.  Own
    properties only: the names an object inherits are outside the model
    (see the scope above). *)
Definition has (k : string) (v : value) : outcome bool :=
  match v with
  | VObject props =>
      Ok (match assoc k props with Some _ => true | None => false end)
  | VArray items =>
      Ok (match array_index k with
          | Some i => i <? Z.of_nat (List.length items)
          | None => false
          end)
  | VFunction _ _ => Ok false
  | _ => Throw (TypeError "Cannot use 'in' operator to search for a key in a primitive")
  end.

Definition indices (n : nat) : list string := map nat_to_string (seq 0 n).

(** [Object.keys(v)] *)
Definition Object_keys (v : value) : list string :=
  match v with
  | VObject props => map fst props
  | VArray items => indices (List.length items)
  | VString s => indices (String.length s)
  | _ => []
  end.

(** [Object.values(v)] *)
Definition Object_values (v : value) : list value :=
  match v with
  | VObject props => map snd props
  | VArray items => items
  | VString s => map (get v) (indices (String.length s))
  | _ => []
  end.

(** [v.length], [None] for [undefined]. *)
Definition length_of (v : value) : option Z :=
  match v with
  | VArray items => Some (Z.of_nat (List.length items))
  | VString s => Some (len s)
  | VFunction arity _ => Some (Z.of_nat arity)
  | _ => None
  end.

(** ** The built-in [JSON.stringify]

    [stringify] calls the built-in in two places: on a scalar, and on the
    whole input when the indent is empty.  This is its algorithm from
    ECMA-262 ([SerializeJSONProperty], [SerializeJSONObject],
    [SerializeJSONArray], [QuoteJSONString]) with an empty gap. *)

Definition hex_digit (n : nat) : ascii :=
  if (n <? 10)%nat then ascii_of_nat (48 + n) else ascii_of_nat (87 + n).

Definition quote_char (c : ascii) : string :=
  let n := nat_of_ascii c in
  if (n =? 34)%nat then String "\"%char dquote
  else if (n =? 92)%nat then "\\"
  else if (n =? 8)%nat then "\b"
  else if (n =? 12)%nat then "\f"
  else if (n =? 10)%nat then "\n"
  else if (n =? 13)%nat then "\r"
  else if (n =? 9)%nat then "\t"
  else if (n <? 32)%nat then
    "\u00" ++ String (hex_digit (n / 16)) (String (hex_digit (n mod 16)) EmptyString)
  else String c EmptyString.

Fixpoint quote_body (s : string) : string :=
  match s with
  | EmptyString => EmptyString
  | String c s' => quote_char c ++ quote_body s'
  end.

Definition QuoteJSONString (s : string) : string :=
  dquote ++ quote_body s ++ dquote.

(** [Number::toString] *)
Definition number_to_string (n : number) : string :=
  match n with
  | Int z => Z_to_string z
  | NaN => "NaN"
  | Infinity => "Infinity"
  | NegInfinity => "-Infinity"
  end.

(** A finite number is its decimal text; the others serialize as [null]. *)
Definition number_json (n : number) : string :=
  match n with
  | Int z => Z_to_string z
  | _ => "null"
  end.

(** The value a [toJSON] method gives, when the value has one. *)
Definition toJSON_of (v : value) : option value :=
  match v with
  | VObject props =>
      match assoc "toJSON" props with
      | Some (VFunction _ r) => Some r
      | _ => None
      end
  | _ => None
  end.

Definition replacer : Type := value -> string -> value -> value.

Definition indexed {A : Type} (l : list A) : list (nat * A) :=
  combine (seq 0 (List.length l)) l.

Fixpoint SerializeJSONProperty (fuel : nat) (rf : option replacer)
    (plist : option (list string)) (holder : value) (key : string) (v : value)
  : outcome (option string) :=
  match fuel with
  | O => OutOfFuel
  | S fuel' =>
      let v1 := match toJSON_of v with Some r => r | None => v end in
      let v2 := match rf with Some r => r holder key v1 | None => v1 end in
      match v2 with
      | VNull => Ok (Some "null")
      | VBool true => Ok (Some "true")
      | VBool false => Ok (Some "false")
      | VString s => Ok (Some (QuoteJSONString s))
      | VNumber n => Ok (Some (number_json n))
      | VBigInt _ => Throw (TypeError "Do not know how to serialize a BigInt")
      | VArray items =>
          parts <- mapM (fun '(i, x) =>
                     r <- SerializeJSONProperty fuel' rf plist v2 (nat_to_string i) x ;;
                     Ok (match r with Some s => s | None => "null" end))
                   (indexed items) ;;
          Ok (Some ("[" ++ join "," parts ++ "]"))
      | VObject props =>
          let K := match plist with Some l => l | None => map fst props end in
          parts <- mapM (fun P =>
                     r <- SerializeJSONProperty fuel' rf plist v2 P (get v2 P) ;;
                     Ok (match r with
                         | Some s => [QuoteJSONString P ++ ":" ++ s]
                         | None => []
                         end))
                   K ;;
          Ok (Some ("{" ++ join "," (List.concat parts) ++ "}"))
      | VUndefined => Ok None
      | VFunction _ _ => Ok None
      end
  end.

(** An option that holds a callback: missing, a function, or some value
    that is not a function. *)
Inductive callback (F : Type) : Type :=
| Absent
| Fn (f : F)
| NotFn (held : value).

Arguments Absent {F}.
Arguments Fn {F} f.
Arguments NotFn {F} held.

Definition mem (k : string) (l : list string) : bool :=
  existsb (String.eqb k) l.

(** The property list an array replacer denotes. *)
Fixpoint property_list (items : list value) (acc : list string) : list string :=
  match items with
  | [] => acc
  | v :: items' =>
      let item := match v with
                  | VString s => Some s
                  | VNumber n => Some (number_to_string n)
                  | _ => None
                  end in
      match item with
      | Some s => property_list items' (if mem s acc then acc else (acc ++ [s])%list)
      | None => property_list items' acc
      end
  end.

(** [JSON.stringify(value, replacer)] *)
Definition JSON_stringify (fuel : nat) (v : value) (r : callback replacer)
  : outcome (option string) :=
  let rf := match r with Fn f => Some f | _ => None end in
  let plist := match r with
               | NotFn (VArray items) => Some (property_list items [])
               | _ => None
               end in
  SerializeJSONProperty fuel rf plist (VObject [(EmptyString, v)]) EmptyString v.

(** [JSON.stringify(val)] at line 193, where [val] is a string, a number
    or a bigint; the built-in throws on a bigint. *)
Definition JSON_stringify_scalar (v : value) : outcome string :=
  match v with
  | VString s => Ok (QuoteJSONString s)
  | VNumber n => Ok (number_json n)
  | _ => Throw (TypeError "Do not know how to serialize a BigInt")
  end.

(** Test data is written with ['] for the double quote and [$] for the
    line feed. *)
Fixpoint js (s : string) : string :=
  match s with
  | EmptyString => EmptyString
  | String c s' =>
      String (if Ascii.eqb c "'"%char then "034"%char
              else if Ascii.eqb c "$"%char then "010"%char
              else c) (js s')
  end.

(** Test data with tabs writes [~] for them. *)
Fixpoint newline_tabs (s : string) : string :=
  match s with
  | EmptyString => EmptyString
  | String c s' =>
      String (if Ascii.eqb c "~"%char then "009"%char else c) (newline_tabs s')
  end.

(** ** Options *)

Inductive indent_option : Type :=
| IndentAbsent
| IndentNull
| IndentNumber (n : Z)
| IndentString (s : string).

Definition predicate : Type := value -> string -> value -> bool.

Record StringifyOptions : Type := {
  replace : callback replacer;
  indent : indent_option;
  allowInline : callback predicate;
  maxLineLength : option Z;
  maxArrayItems : option Z;
  maxObjectProperties : option Z;
  maxArrayItemLength : option Z;
  compactLongArrays : option bool;
  allowTable : callback predicate;
  tables : option bool;
  tableArrays : option bool;
  tableObjects : option bool;
  tableMinSharedKeys : option Z;
  tablePadEndOfRows : option bool;
  tableDecimalAlignment : option bool
}.

(** [stringify(value)] with no option given. *)
Definition no_options : StringifyOptions := {|
  replace := Absent;
  indent := IndentAbsent;
  allowInline := Absent;
  maxLineLength := None;
  maxArrayItems := None;
  maxObjectProperties := None;
  maxArrayItemLength := None;
  compactLongArrays := None;
  allowTable := Absent;
  tables := None;
  tableArrays := None;
  tableObjects := None;
  tableMinSharedKeys := None;
  tablePadEndOfRows := None;
  tableDecimalAlignment := None
|}.

(** [x ?? d] *)
Definition nullish {A : Type} (x : option A) (d : A) : A :=
  match x with Some a => a | None => d end.

(** The indent string of lines 152-156. *)
Definition indent_of (o : StringifyOptions) : string :=
  match indent o with
  | IndentNull => EmptyString
  | IndentNumber n => repeat_nat " " (Z.to_nat (Z.max 0 (Z.min 10 n)))
  | IndentString s => substring 0 10 s
  | IndentAbsent => "  "
  end.

(** ** Module-level helpers (lines 520-665) *)

Definition sum (ns : list Z) : Z := fold_left Z.add ns 0.

(** [arrMin] and [arrMax] start from [ns[0]], which is [undefined] on an
    empty array. *)
Definition arrMin (ns : list Z) : option Z :=
  match ns with
  | [] => None
  | m :: rest => Some (fold_left Z.min rest m)
  end.

Definition arrMax (ns : list Z) : option Z :=
  match ns with
  | [] => None
  | m :: rest => Some (fold_left Z.max rest m)
  end.

(** [Map.groupBy(lengths, (_, i) => i % columnCount)]: the groups in the
    order their keys first occur.  [i % 0] is [NaN], the key [None]. *)
Definition group_key (i columnCount : Z) : option Z :=
  if columnCount =? 0 then None else Some (Z.rem i columnCount).

Definition key_eqb (a b : option Z) : bool :=
  match a, b with
  | Some x, Some y => x =? y
  | None, None => true
  | _, _ => false
  end.

Fixpoint group_add (k : option Z) (x : Z) (groups : list (option Z * list Z))
  : list (option Z * list Z) :=
  match groups with
  | [] => [(k, [x])]
  | (k', xs) :: groups' =>
      if key_eqb k k' then (k', (xs ++ [x])%list) :: groups'
      else (k', xs) :: group_add k x groups'
  end.

Definition groupBy_index (lengths : list Z) (columnCount : Z)
  : list (option Z * list Z) :=
  fold_left (fun groups '(i, x) => group_add (group_key (Z.of_nat i) columnCount) x groups)
            (indexed lengths) [].

(** [Math.max(...ls)] on a group, which is never empty. *)
Definition max_of (ls : list Z) : Z :=
  match ls with
  | [] => 0
  | x :: rest => fold_left Z.max rest x
  end.

Definition getColumnWidths (lengths : list Z) (columnCount : Z) : list Z :=
  map (fun '(_, ls) => max_of ls) (groupBy_index lengths columnCount).

(** [columnWidths[i - 1] - items[i - 1].length + 1], [NaN] when the width is
    missing. *)
Fixpoint joinColumns_from (prev : string) (rest : list string) (widths : list Z)
  : outcome string :=
  match rest with
  | [] => Ok EmptyString
  | item :: rest' =>
      pad <- str_repeat_nan " "
               (match widths with
                | w :: _ => Some (w - len prev + 1)
                | [] => None
                end) ;;
      tail <- joinColumns_from item rest' (List.tl widths) ;;
      Ok ("," ++ pad ++ item ++ tail)
  end.

Definition joinColumns (items : list string) (columnWidths : list Z) : outcome string :=
  match items with
  | [] => Ok EmptyString
  | first :: rest =>
      tail <- joinColumns_from first rest columnWidths ;;
      Ok (first ++ tail)
  end.

(** [Math.ceil(Math.sqrt(n))] on an array length. *)
Definition ceil_sqrt (n : Z) : Z :=
  let r := Z.sqrt n in
  if r * r =? n then r else r + 1.

(** The [while (low <= high)] loop of [findMaxItemsWide]. *)
Fixpoint findMaxItemsWide_loop (fuel : nat) (itemLengths : list Z) (maxLineLength : Z)
    (low high best : Z) (bestColumnWidths : option (list Z))
  : outcome (Z * option (list Z)) :=
  if low <=? high then
    match fuel with
    | O => OutOfFuel
    | S fuel' =>
        let mid := (low + high) / 2 in
        let columnWidths := getColumnWidths itemLengths mid in
        let totalWidth := sum columnWidths + (mid - 1) * 2 in
        if totalWidth <=? maxLineLength
        then findMaxItemsWide_loop fuel' itemLengths maxLineLength
               (mid + 1) high mid (Some columnWidths)
        else findMaxItemsWide_loop fuel' itemLengths maxLineLength
               low (mid - 1) best bestColumnWidths
    end
  else Ok (best, bestColumnWidths).

Definition findMaxItemsWide {A : Type} (items : list A) (itemLengths : list Z)
    (maxLineLength : Z) : outcome (Z * list Z) :=
  let low := 1 in
  let high := ceil_sqrt (Z.of_nat (List.length items)) in
  r <- findMaxItemsWide_loop (S (Z.to_nat high)) itemLengths maxLineLength
         low high low None ;;
  let '(best, bestColumnWidths) := r in
  Ok (best, match bestColumnWidths with
            | Some ws => ws
            | None => getColumnWidths itemLengths best
            end).

Definition anyCommon (a b : list string) : bool :=
  existsb (fun i => mem i b) a.

(** [Array.from(new Set(l))] *)
Fixpoint dedupe (l seen : list string) : list string :=
  match l with
  | [] => []
  | k :: l' => if mem k seen then dedupe l' seen else k :: dedupe l' (k :: seen)
  end.

(** [itemKeys.indexOf(key)] *)
Fixpoint index_of (k : string) (l : list string) : option nat :=
  match l with
  | [] => None
  | k' :: l' =>
      if String.eqb k k' then Some O
      else match index_of k l' with Some i => Some (S i) | None => None end
  end.

(** The order in which an object built by [Object.fromEntries] enumerates
    its keys: array indices in ascending order, then the other names in
    insertion order. *)
Fixpoint insert_index (x : Z * string) (l : list (Z * string)) : list (Z * string) :=
  match l with
  | [] => [x]
  | y :: l' => if fst x <? fst y then x :: y :: l' else y :: insert_index x l'
  end.

Definition own_key_order (ks : list string) : list string :=
  let idx := fold_left (fun acc k =>
                match array_index k with
                | Some i => insert_index (i, k) acc
                | None => acc
                end) ks [] in
  let names := filter (fun k => match array_index k with
                                | Some _ => false
                                | None => true
                                end) ks in
  (map snd idx ++ names)%list.

(** [Array.prototype.sort(compare)], as a stable insertion sort.  ECMA-262
    fixes the result when [compare] is a consistent order, and every stable
    sort then agrees with this one.  The comparator of lines 636-638 need
    not be one; the order is then left to the engine, and this model
    shows the order of the insertion sort, which an engine may not
    share. *)
Fixpoint sort_insert {A : Type} (compare : A -> A -> Z) (x : A) (l : list A) : list A :=
  match l with
  | [] => [x]
  | y :: l' =>
      if compare x y <? 0 then x :: y :: l' else y :: sort_insert compare x l'
  end.

Definition sort {A : Type} (compare : A -> A -> Z) (l : list A) : list A :=
  fold_left (fun acc x => sort_insert compare x acc) l [].

Record keyPosition : Type := {
  before : list string;
  after : list string
}.

(** The [before] and [after] sets the loops of lines 618-633 build for
    [key]: the names seen left and right of it in the rows that have it. *)
Definition positions_of (keys : list (list string)) (key : string) : keyPosition :=
  {| before := flat_map (fun itemKeys =>
                 match index_of key itemKeys with
                 | Some index => firstn index itemKeys
                 | None => []
                 end) keys;
     after := flat_map (fun itemKeys =>
                 match index_of key itemKeys with
                 | Some index => skipn (S index) itemKeys
                 | None => []
                 end) keys |}.

Definition b2z (b : bool) : Z := if b then 1 else 0.

Definition compare_positions (a b : string * keyPosition) : Z :=
  b2z (mem (fst b) (before (snd a))) - b2z (mem (fst a) (before (snd b)))
  + b2z (mem (fst a) (after (snd b))) - b2z (mem (fst b) (after (snd a))).

Definition getTableColumnOrder (table : value) (maxObjectProperties tableMinSharedKeys : Z)
  : outcome (option (list string)) :=
  match table with
  | VArray _ | VObject _ =>
      let values := filter representable
                      (if isArray table
                       then match table with VArray items => items | _ => [] end
                       else Object_values table) in
      if (Z.of_nat (List.length values) <=? 1) then Ok None
      else
        match values with
        | VArray first :: _ =>
            let length := List.length first in
            if forallb (fun el => match el with
                                  | VArray items => Nat.eqb (List.length items) length
                                  | _ => false
                                  end) values
            then Ok (Some (indices length))
            else Ok None
        | _ =>
            if existsb (fun v => negb (is_object_type v) ||
                                 match v with VNull => true | _ => false end) values
            then Ok None
            else
              let keys := map Object_keys values in
              if existsb (fun ik => Z.of_nat (List.length ik) >? maxObjectProperties) keys
              then Ok None
              else
                let allKeys := dedupe (List.concat keys) [] in
                shared <- mapM (fun key =>
                            ins <- mapM (has key) values ;;
                            Ok (key, forallb (fun b => b) ins)) allKeys ;;
                let sharedKeys := filter snd shared in
                if Z.of_nat (List.length sharedKeys)
                   <? Z.min tableMinSharedKeys (Z.of_nat (List.length allKeys))
                then Ok None
                else
                  let keyPositions :=
                    map (fun k =>
                           (k, if match allKeys with
                                  | k0 :: _ => String.eqb k k0
                                  | [] => false
                                  end
                               then {| before := []; after := [] |}
                               else positions_of keys k))
                        (own_key_order allKeys) in
                  if existsb (fun kp => anyCommon (before (snd kp)) (after (snd kp)))
                             keyPositions
                  then Ok None
                  else Ok (Some (map fst (sort compare_positions keyPositions)))
        end
  | _ => Ok None
  end.

(** [decimalAlignment]: cells are [None] where the array has a hole. *)
Definition decimal_index (n : string) : Z :=
  let d := indexOf "."%char n in
  if d >? 0 then d else len n.

(** An array that is filled by index ([aligned[i] = ...] at line 662, on
    the defined cells only) ends at the last cell that was written: the
    holes after it are not part of it. *)
Fixpoint up_to_last_defined {A : Type} (cells : list (option A)) : list (option A) :=
  match cells with
  | [] => []
  | cell :: cells' =>
      match cell, up_to_last_defined cells' with
      | None, [] => []
      | _, kept => cell :: kept
      end
  end.

Definition decimalAlignment (numbers : list (option string))
  : outcome (list (option string)) :=
  let maxDecimalIndex :=
    fold_left (fun m cell =>
                 match cell with
                 | Some n => Z.max m (decimal_index n)
                 | None => m
                 end) numbers 0 in
  mapM (fun cell =>
          match cell with
          | Some n =>
              pad <- str_repeat " " (maxDecimalIndex - decimal_index n) ;;
              Ok (Some (pad ++ n))
          | None => Ok None
          end) (up_to_last_defined numbers).

(** ** The closures of [stringify] (lines 139-515) *)

(** The constants of lines 139-172 that the nested functions capture.
    [c_maxArrayItemLength2] is twice [maxArrayItemLength], which defaults to
    [maxLineLength / 2] and need not be an integer. *)
Record closure : Type := {
  c_maxLineLength : Z;
  c_maxArrayItems : Z;
  c_maxObjectProperties : Z;
  c_maxArrayItemLength2 : Z;
  c_compactLongArrays : bool;
  c_tableArrays : bool;
  c_tableObjects : bool;
  c_tableMinSharedKeys : Z;
  c_tablePadEndOfRows : bool;
  c_tableDecimalAlignment : bool;
  c_indent : string;
  c_replaceFunc : option replacer;
  c_allowInline : option predicate;
  c_allowTable : option predicate
}.

Definition callback_fn {F : Type} (c : callback F) : option F :=
  match c with
  | Fn f => Some f
  | _ => None
  end.

Definition capture (o : StringifyOptions) : closure :=
  let mll := nullish (maxLineLength o) 100 in
  let tbl := nullish (tables o) true in
  {| c_maxLineLength := mll;
     c_maxArrayItems := nullish (maxArrayItems o) 6;
     c_maxObjectProperties := nullish (maxObjectProperties o) 6;
     c_maxArrayItemLength2 :=
       match maxArrayItemLength o with
       | Some m => 2 * m
       | None => mll
       end;
     c_compactLongArrays := nullish (compactLongArrays o) true;
     c_tableArrays := tbl && nullish (tableArrays o) true;
     c_tableObjects := tbl && nullish (tableObjects o) true;
     c_tableMinSharedKeys := nullish (tableMinSharedKeys o) 1;
     c_tablePadEndOfRows := nullish (tablePadEndOfRows o) true;
     c_tableDecimalAlignment := nullish (tableDecimalAlignment o) true;
     c_indent := indent_of o;
     c_replaceFunc := callback_fn (replace o);
     c_allowInline := callback_fn (allowInline o);
     c_allowTable := callback_fn (allowTable o) |}.

Record processed : Type := {
  result : string;
  nested : bool
}.

(** What the labelled [table:] block of the object branch does: leave
    [processValue] with a value, or fall through to the per-item code. *)
Inductive table_block : Type :=
| Returned (r : option processed)
| FellThrough.

(** [items.slice(i * w, (i + 1) * w)] for each row of the packed grid. *)
Definition grid_rows {A : Type} (items : list A) (itemsWide : Z) : list (list A) :=
  let n := Z.of_nat (List.length items) in
  let rows := (n + itemsWide - 1) / itemsWide in
  map (fun i => firstn (Z.to_nat itemsWide) (skipn (i * Z.to_nat itemsWide) items))
      (seq 0 (Z.to_nat rows)).

(** [(max - min) < Math.max(4, mean * 0.25)] with [mean = total / n],
    cleared of the division. *)
Definition roughly_uniform (itemLengths : list Z) : bool :=
  match arrMin itemLengths, arrMax itemLengths with
  | Some min, Some max =>
      (max - min <? 4) ||
      (4 * Z.of_nat (List.length itemLengths) * (max - min) <? sum itemLengths)
  | _, _ => false
  end.

Section Closures.

Variable c : closure.

Definition apply_replace (parentObj : value) (key : string) (val : value) : value :=
  match c_replaceFunc c with
  | Some r => r parentObj key val
  | None => val
  end.

(** [allowInline === undefined || allowInline.bind(parentObj)(key, val)] *)
Definition inline_allowed (parentObj : value) (key : string) (val : value) : bool :=
  match c_allowInline c with
  | Some f => f parentObj key val
  | None => true
  end.

Definition table_allowed (parentObj : value) (key : string) (val : value) : bool :=
  match c_allowTable c with
  | Some f => f parentObj key val
  | None => true
  end.

(** The multi-line form of lines 491-496 and 513-514: a row per line. *)
Definition one_per_line (open close : string) (items : list string) (depth : nat)
  : string :=
  let itemIndent := repeat_nat (c_indent c) (depth + 1) in
  open ++ newline ++ itemIndent
       ++ join ("," ++ newline ++ itemIndent) items
       ++ newline ++ repeat_nat (c_indent c) depth ++ close.

Definition formatArray (items : list string) (depth : nat) (nestedItems : bool)
    (keyLength : Z) (allowInline : bool) : outcome string :=
  match items with
  | [] => Ok "[]"
  | _ :: _ =>
      let line := "[ " ++ join ", " items ++ " ]" in
      if allowInline && negb nestedItems
         && (Z.of_nat (List.length items) <=? c_maxArrayItems c)
         && forallb (fun item => 2 * len item <=? c_maxArrayItemLength2 c) items
         && (keyLength + len line <=? c_maxLineLength c)
         && negb (includes_newline line)
      then Ok line
      else
        let itemLengths := map len items in
        if c_compactLongArrays c
           && (Z.of_nat (List.length items) >? c_maxArrayItems c)
           && forallb (fun item => negb (includes_newline item)
                                   && negb (first_char_is "["%char item)
                                   && negb (first_char_is "{"%char item)) items
           && roughly_uniform itemLengths
        then
          r <- findMaxItemsWide items itemLengths (c_maxLineLength c) ;;
          let '(itemsWide, columnWidths) := r in
          rows <- mapM (fun row => joinColumns row columnWidths)
                       (grid_rows items itemsWide) ;;
          Ok (one_per_line "[" "]" rows depth)
        else Ok (one_per_line "[" "]" items depth)
  end.

Definition formatObject (items : list string) (depth : nat) (nestedItems : bool)
    (keyLength : Z) (allowInline : bool) : outcome string :=
  match items with
  | [] => Ok "{}"
  | _ :: _ =>
      let line := "{ " ++ join ", " items ++ " }" in
      if allowInline && negb nestedItems
         && (Z.of_nat (List.length items) <=? c_maxObjectProperties c)
         && (keyLength + len line <=? c_maxLineLength c)
         && negb (includes_newline line)
      then Ok line
      else Ok (one_per_line "{" "}" items depth)
  end.

(** [replaceArrayItems] and [replaceObjectProperties], with [this] bound
    to the container. *)
Definition replaceArrayItems (val : value) (items : list value) : list value :=
  map (fun '(i, item) => apply_replace val (nat_to_string i) item) (indexed items).

Definition replaceObjectProperties (val : value) (keys : list string)
  : list (string * value) :=
  map (fun k => (k, apply_replace val k (get val k))) keys.

(** The flags the array branch accumulates while it maps over the items:
    [(nested, multipleNestedItems)]. *)
Definition array_flags (items : list value) : bool * bool :=
  fold_left (fun '(nested, multiple) item =>
               (nested || is_object_type item,
                multiple || (nested && is_object_type item)))
            items (false, false).

(** A column of a table: its width, [None] while [columnWidths[i]] is
    unset, and its cells, [None] where [columns[i][j]] is unset. *)
Definition column : Type := (option Z * list (option string))%type.

(** Reading [.result], [.nested] or [.length] of [null] or [undefined]. *)
Definition no_result {A : Type} : outcome A :=
  Throw (TypeError "Cannot read properties of undefined or null").

(** The cells of a column that is not a sub-table, in [tableOfArrays]
    (lines 334-348).  [cell v] renders one defined value. *)
Fixpoint plain_cells (cell : value -> outcome (option processed))
    (col : list value) (width : option Z) (numeric : bool)
  : outcome (option (option Z * list (option string) * bool)) :=
  match col with
  | [] => Ok (Some (width, [], numeric))
  | v :: col' =>
      if is_undefined v then
        r <- plain_cells cell col' width numeric ;;
        Ok (match r with
            | Some (w, cells, num) => Some (w, None :: cells, num)
            | None => None
            end)
      else
        p <- cell v ;;
        match p with
        | None => no_result
        | Some p =>
            let s := result p in
            let sl := len s in
            if (sl >? c_maxLineLength c) || includes_newline s then Ok None
            else
              r <- plain_cells cell col' (Some (Z.max (nullish width 0) sl))
                     (numeric && is_numeric s) ;;
              Ok (match r with
                  | Some (w, cells, num) => Some (w, Some s :: cells, num)
                  | None => None
                  end)
        end
  end.

(** The first loop of lines 403-410 in [tableOfObjects]. *)
Fixpoint keyed_cells (cell : value -> outcome (option processed))
    (col : list value) (numeric : bool)
  : outcome (option (list (option string) * bool)) :=
  match col with
  | [] => Ok (Some ([], numeric))
  | v :: col' =>
      if is_undefined v then
        r <- keyed_cells cell col' numeric ;;
        Ok (match r with
            | Some (cells, num) => Some (None :: cells, num)
            | None => None
            end)
      else
        p <- cell v ;;
        match p with
        | None => no_result
        | Some p =>
            let s := result p in
            if includes_newline s then Ok None
            else
              r <- keyed_cells cell col' (numeric && is_numeric s) ;;
              Ok (match r with
                  | Some (cells, num) => Some (Some s :: cells, num)
                  | None => None
                  end)
        end
  end.

(** The second loop of lines 414-421: prefix each cell with its key and
    measure it. *)
Fixpoint label_cells (jsonKey : string) (col : list value)
    (cells : list (option string)) (width : option Z)
  : option (option Z * list (option string)) :=
  match col with
  | [] => Some (width, [])
  | v :: col' =>
      let cell := List.hd None cells in
      if is_undefined v then
        match label_cells jsonKey col' (List.tl cells) width with
        | Some (w, out) => Some (w, cell :: out)
        | None => None
        end
      else
        let s := jsonKey ++ ": " ++ nullish cell "undefined" in
        let sl := len s in
        if sl >? c_maxLineLength c then None
        else
          match label_cells jsonKey col' (List.tl cells)
                  (Some (Z.max (nullish width 0) sl)) with
          | Some (w, out) => Some (w, Some s :: out)
          | None => None
          end
  end.

(** The loop of lines 424-432, without decimal alignment. *)
Fixpoint keyed_cells_plain (cell : value -> outcome (option processed))
    (jsonKey : string) (col : list value) (width : option Z)
  : outcome (option (option Z * list (option string))) :=
  match col with
  | [] => Ok (Some (width, []))
  | v :: col' =>
      if is_undefined v then
        r <- keyed_cells_plain cell jsonKey col' width ;;
        Ok (match r with
            | Some (w, cells) => Some (w, None :: cells)
            | None => None
            end)
      else
        p <- cell v ;;
        match p with
        | None => no_result
        | Some p =>
            let s := jsonKey ++ ": " ++ result p in
            let sl := len s in
            if (sl >? c_maxLineLength c) || includes_newline s then Ok None
            else
              r <- keyed_cells_plain cell jsonKey col'
                     (Some (Z.max (nullish width 0) sl)) ;;
              Ok (match r with
                  | Some (w, cells) => Some (w, Some s :: cells)
                  | None => None
                  end)
        end
  end.

(** One row of a table (lines 357-369 and 442-455): the cells of row [i]
    up to column [stop], each followed by a comma unless it stands in
    column [lastFilledColumn] ([None] is [NaN]), and padded. *)
Definition table_row (open close : string) (columns : list column) (i : nat)
    (lastFilledColumn : option Z) (stop : Z) : outcome string :=
  parts <- mapM (fun columnIndex =>
             match nth_error columns columnIndex with
             | None => no_result
             | Some (width, cells) =>
                 match nth i cells None with
                 | None =>
                     str_repeat_nan " " (option_map (fun w => w + 2) width)
                 | Some cell =>
                     pad <- str_repeat_nan " "
                              (option_map (fun w => w - len cell + 1) width) ;;
                     Ok (cell
                           ++ (if match lastFilledColumn with
                                  | Some l => Z.of_nat columnIndex =? l
                                  | None => false
                                  end
                               then EmptyString else ",")
                           ++ pad)
                 end
             end)
           (seq 0 (Z.to_nat stop)) ;;
  Ok (open ++ join EmptyString parts ++ close).

(** [columnOrder.findLastIndex(e => e in row)] *)
Definition findLastIndex_in (columnOrder : list string) (row : value) : outcome Z :=
  ins <- mapM (fun e => has e row) columnOrder ;;
  Ok (fold_left (fun last '(i, b) => if b : bool then Z.of_nat i else last)
                (indexed ins) (-1)).

Definition first_defined (col : list value) : value :=
  match find (fun e => negb (is_undefined e)) col with
  | Some e => e
  | None => VUndefined
  end.

End Closures.

(** What a table function learns about one of its columns. *)
Inductive subtable_attempt : Type :=
| TooWide
| SubTable (rows : list string)
| NotSubTable.

Section Engine.

Variable c : closure.

Fixpoint processValue (fuel : nat) (key : string) (val : value) (depth : nat)
    (parentObj : value) (keyLength : Z) (allowTables : bool) {struct fuel}
  : outcome (option processed) :=
  match fuel with
  | O => OutOfFuel
  | S fuel' =>
      let val := apply_replace c parentObj key val in
      match val with
      | VNull => Ok (Some {| result := "null"; nested := false |})
      | VString _ | VNumber _ | VBigInt _ =>
          s <- JSON_stringify_scalar val ;;
          Ok (Some {| result := s; nested := false |})
      | VBool b =>
          Ok (Some {| result := if b then "true" else "false"; nested := false |})
      | VArray items =>
          table <-
            (if c_tableArrays c && allowTables && table_allowed c parentObj key val
             then
               let rval := match c_replaceFunc c with
                           | Some _ => replaceArrayItems c val items
                           | None => items
                           end in
               order <- getTableColumnOrder (VArray rval)
                          (c_maxObjectProperties c) (c_tableMinSharedKeys c) ;;
               match order with
               | Some columnOrder =>
                   rows <- (if isArray (nth 0 rval VUndefined)
                            then tableOfArrays fuel' rval (List.length columnOrder)
                            else tableOfObjects fuel' rval columnOrder) ;;
                   match rows with
                   | Some items' =>
                       if forallb (fun e => len e <=? c_maxLineLength c) items'
                       then
                         r <- formatArray c items' depth true keyLength true ;;
                         Ok (Some r)
                       else Ok None
                   | None => Ok None
                   end
               | None => Ok None
               end
             else Ok None) ;;
          match table with
          | Some r => Ok (Some {| result := r; nested := true |})
          | None =>
              rendered <- mapM (fun '(i, item) =>
                            p <- processValue fuel' (nat_to_string i) item
                                   (depth + 1) val 0 true ;;
                            match p with
                            | Some p => Ok (result p)
                            | None => no_result
                            end)
                          (indexed items) ;;
              let '(nested, multipleNestedItems) := array_flags items in
              r <- formatArray c rendered depth multipleNestedItems keyLength
                     (inline_allowed c parentObj key val) ;;
              Ok (Some {| result := r; nested := nested |})
          end
      | VObject props =>
          match toJSON_of val with
          | Some converted =>
              processValue fuel' key converted depth parentObj keyLength true
          | None =>
              let keys := filter (fun k => representable (get val k)) (map fst props) in
              block <-
                (if c_tableObjects c && allowTables && table_allowed c parentObj key val
                 then
                   let rval := match c_replaceFunc c with
                               | Some _ => VObject (replaceObjectProperties c val keys)
                               | None => val
                               end in
                   order <- getTableColumnOrder rval
                              (c_maxObjectProperties c) (c_tableMinSharedKeys c) ;;
                   match order with
                   | Some columnOrder =>
                       let isArr := isArray (get rval (List.hd "undefined" keys)) in
                       if Z.of_nat (List.length columnOrder)
                          >? (if isArr then c_maxArrayItems c else c_maxObjectProperties c)
                       then Ok (Returned None)
                       else
                         let jsonKeys := map QuoteJSONString keys in
                         let keyColumnWidth :=
                           option_map (fun m => m + 1) (arrMax (map len jsonKeys)) in
                         rows <- (if isArr
                                  then tableOfArrays fuel' (Object_values rval)
                                         (List.length columnOrder)
                                  else tableOfObjects fuel' (Object_values rval)
                                         columnOrder) ;;
                         match rows with
                         | None => Ok FellThrough
                         | Some items' =>
                             labelled <- mapM (fun '(i, row) =>
                                           match nth_error jsonKeys i with
                                           | None => no_result
                                           | Some jsonKey =>
                                               pad <- str_repeat_nan " "
                                                        (option_map (fun w => w - len jsonKey)
                                                           keyColumnWidth) ;;
                                               Ok (jsonKey ++ ":" ++ pad ++ row)
                                           end)
                                         (indexed items') ;;
                             if existsb (fun e => len e >? c_maxLineLength c) labelled
                             then Ok FellThrough
                             else
                               r <- formatObject c labelled depth true keyLength true ;;
                               Ok (Returned (Some {| result := r; nested := true |}))
                         end
                   | None => Ok FellThrough
                   end
                 else Ok FellThrough) ;;
              match block with
              | Returned r => Ok r
              | FellThrough =>
                  rendered <- mapM (fun k =>
                                let keyString := QuoteJSONString k ++ ": " in
                                p <- processValue fuel' k (get val k) (depth + 1) val
                                       (len keyString) true ;;
                                match p with
                                | Some p => Ok (keyString ++ result p, nested p)
                                | None => no_result
                                end)
                              keys ;;
                  let nested := existsb (fun k => is_object_type (get val k)) keys in
                  let nestedItems := existsb snd rendered in
                  r <- formatObject c (map fst rendered) depth nestedItems keyLength
                         (inline_allowed c parentObj key val) ;;
                  Ok (Some {| result := r; nested := nested |})
              end
          end
      | VUndefined => Ok None
      | VFunction _ _ => Ok None
      end
  end

with tableOfArrays (fuel : nat) (rowArrs : list value) (columnCount : nat)
    {struct fuel} : outcome (option (list string)) :=
  match fuel with
  | O => OutOfFuel
  | S fuel' =>
      columns <- mapM_opt (fun i =>
        let col := map (fun e => get e (nat_to_string i)) rowArrs in
        order <- getTableColumnOrder (VArray col)
                   (c_maxObjectProperties c) (c_tableMinSharedKeys c) ;;
        attempt <-
          match order with
          | Some subcolumnOrder =>
              let isArr := isArray (first_defined col) in
              if Z.of_nat (List.length subcolumnOrder)
                 >? (if isArr then c_maxArrayItems c else c_maxObjectProperties c)
              then Ok TooWide
              else
                subtable <- (if isArr
                             then tableOfArrays fuel' col (List.length subcolumnOrder)
                             else tableOfObjects fuel' col subcolumnOrder) ;;
                Ok (match subtable with
                    | Some rows => SubTable rows
                    | None => NotSubTable
                    end)
          | None => Ok NotSubTable
          end ;;
        match attempt with
        | TooWide => Ok None
        | SubTable [] => no_result
        | SubTable (first :: rest) =>
            Ok (Some (Some (len first), map Some (first :: rest)))
        | NotSubTable =>
            r <- plain_cells c
                   (fun v => processValue fuel' (nat_to_string i) v 0
                               (VArray rowArrs) 0 false)
                   col None true ;;
            match r with
            | None => Ok None
            | Some (width, cells, numeric) =>
                if c_tableDecimalAlignment c && numeric
                then aligned <- decimalAlignment cells ;; Ok (Some (width, aligned))
                else Ok (Some (width, cells))
            end
        end) (seq 0 columnCount) ;;
      match columns with
      | None => Ok None
      | Some columns =>
          table <- mapM (fun '(i, row) =>
                     if is_undefined row then Ok EmptyString
                     else
                       let lastFilledColumn :=
                         option_map (fun l => l - 1) (length_of row) in
                       let stop := if c_tablePadEndOfRows c
                                   then Z.of_nat columnCount
                                   else match lastFilledColumn with
                                        | Some l => l + 1
                                        | None => 0
                                        end in
                       table_row "[ " "]" columns i lastFilledColumn stop)
                   (indexed rowArrs) ;;
          Ok (Some table)
      end
  end

with tableOfObjects (fuel : nat) (rowObjs : list value) (columnOrder : list string)
    {struct fuel} : outcome (option (list string)) :=
  match fuel with
  | O => OutOfFuel
  | S fuel' =>
      columns <- mapM_opt (fun columnKey =>
        let jsonKey := QuoteJSONString columnKey in
        let col := map (fun e => get e columnKey) rowObjs in
        order <- getTableColumnOrder (VArray col)
                   (c_maxObjectProperties c) (c_tableMinSharedKeys c) ;;
        attempt <-
          match order with
          | Some subcolumnOrder =>
              let isArr := isArray (first_defined col) in
              if Z.of_nat (List.length subcolumnOrder)
                 >? (if isArr then c_maxArrayItems c else c_maxObjectProperties c)
              then Ok TooWide
              else
                subtable <- (if isArr
                             then tableOfArrays fuel' col (List.length subcolumnOrder)
                             else tableOfObjects fuel' col subcolumnOrder) ;;
                Ok (match subtable with
                    | Some rows => SubTable (map (fun r => jsonKey ++ ": " ++ r) rows)
                    | None => NotSubTable
                    end)
          | None => Ok NotSubTable
          end ;;
        let cell := fun v => processValue fuel' columnKey v 0 (VArray rowObjs) 0 false in
        match attempt with
        | TooWide => Ok None
        | SubTable [] => no_result
        | SubTable (first :: rest) =>
            Ok (Some (Some (len first), map Some (first :: rest)))
        | NotSubTable =>
            if c_tableDecimalAlignment c then
              r <- keyed_cells cell col true ;;
              match r with
              | None => Ok None
              | Some (cells, numeric) =>
                  aligned <- (if numeric then decimalAlignment cells else Ok cells) ;;
                  Ok (label_cells c jsonKey col aligned None)
              end
            else keyed_cells_plain c cell jsonKey col None
        end) columnOrder ;;
      match columns with
      | None => Ok None
      | Some columns =>
          table <- mapM (fun '(i, row) =>
                     if is_undefined row then Ok EmptyString
                     else
                       lastFilledColumn <- findLastIndex_in columnOrder row ;;
                       let stop := if c_tablePadEndOfRows c
                                   then Z.of_nat (List.length columnOrder)
                                   else lastFilledColumn + 1 in
                       table_row "{ " "}" columns i (Some lastFilledColumn) stop)
                   (indexed rowObjs) ;;
          Ok (Some table)
      end
  end.

End Engine.

(** ** The entry point (lines 138-172 and 517) *)

Definition root_holder (val : value) : value := VObject [(EmptyString, val)].

Definition stringify (fuel : nat) (val : value) (options : StringifyOptions)
  : outcome (option string) :=
  if (String.length (indent_of options) =? 0)%nat
  then JSON_stringify fuel val (replace options)
  else
    match replace options with
    | NotFn _ => Throw (PlainError "'replace' must be a function.")
    | _ =>
        match allowInline options with
        | NotFn _ => Throw (PlainError "'allowInline' must be a function.")
        | _ =>
            match allowTable options with
            | NotFn _ => Throw (PlainError "'allowTable' must be a function.")
            | _ =>
                r <- processValue (capture options) fuel EmptyString val 0
                       (root_holder val) 0 true ;;
                Ok (option_map result r)
            end
        end
    end.

(** ** The built-in [JSON.parse]

    The reader the round-trip property is stated with, on texts whose
    numbers are integers and whose escapes stay below code unit 256.
    Members are kept in the order of the text. *)

Definition is_ws (ch : ascii) : bool :=
  let n := nat_of_ascii ch in
  (n =? 32)%nat || (n =? 10)%nat || (n =? 13)%nat || (n =? 9)%nat.

Fixpoint skip_ws (s : string) : string :=
  match s with
  | String ch s' => if is_ws ch then skip_ws s' else s
  | EmptyString => s
  end.

Definition hex_value (ch : ascii) : option nat :=
  let n := nat_of_ascii ch in
  if (48 <=? n)%nat && (n <=? 57)%nat then Some (n - 48)%nat
  else if (97 <=? n)%nat && (n <=? 102)%nat then Some (n - 87)%nat
  else if (65 <=? n)%nat && (n <=? 70)%nat then Some (n - 55)%nat
  else None.

Definition unescape (ch : ascii) : option ascii :=
  let n := nat_of_ascii ch in
  if (n =? 34)%nat || (n =? 92)%nat || (n =? 47)%nat then Some ch
  else if (n =? 98)%nat then Some (ascii_of_nat 8)
  else if (n =? 102)%nat then Some (ascii_of_nat 12)
  else if (n =? 110)%nat then Some (ascii_of_nat 10)
  else if (n =? 114)%nat then Some (ascii_of_nat 13)
  else if (n =? 116)%nat then Some (ascii_of_nat 9)
  else None.

(** The characters of a string literal after its opening quote, and the
    text after its closing quote. *)
Fixpoint parse_string_body (s : string) : option (string * string) :=
  match s with
  | EmptyString => None
  | String ch s' =>
      if (nat_of_ascii ch =? 34)%nat then Some (EmptyString, s')
      else if (nat_of_ascii ch =? 92)%nat then
        match s' with
        | String e s'' =>
            if (nat_of_ascii e =? 117)%nat then
              match s'' with
              | String h1 (String h2 (String h3 (String h4 rest))) =>
                  match hex_value h1, hex_value h2, hex_value h3, hex_value h4 with
                  | Some O, Some O, Some a, Some b =>
                      match parse_string_body rest with
                      | Some (body, after) =>
                          Some (String (ascii_of_nat (16 * a + b)) body, after)
                      | None => None
                      end
                  | _, _, _, _ => None
                  end
              | _ => None
              end
            else
              match unescape e with
              | Some u =>
                  match parse_string_body s'' with
                  | Some (body, after) => Some (String u body, after)
                  | None => None
                  end
              | None => None
              end
        | EmptyString => None
        end
      else if (nat_of_ascii ch <? 32)%nat then None
      else
        match parse_string_body s' with
        | Some (body, after) => Some (String ch body, after)
        | None => None
        end
  end.

Fixpoint expect (word s : string) : option string :=
  match word, s with
  | EmptyString, _ => Some s
  | String a word', String b s' => if Ascii.eqb a b then expect word' s' else None
  | String _ _, EmptyString => None
  end.

(** An integer literal: no leading zero, no fraction, no exponent. *)
Definition parse_integer (s : string) : option (Z * string) :=
  let '(negative, s1) := match s with
                         | String ch s' =>
                             if Ascii.eqb ch "-"%char then (true, s') else (false, s)
                         | EmptyString => (false, s)
                         end in
  let rest := skip_digits s1 in
  let digits := substring 0 (String.length s1 - String.length rest) s1 in
  match digits with
  | EmptyString => None
  | String d more =>
      if Ascii.eqb d "0"%char && negb (String.eqb more EmptyString) then None
      else if first_char_is "."%char rest || first_char_is "e"%char rest
              || first_char_is "E"%char rest then None
      else
        match digits_value digits 0 with
        | Some n => Some (if negative then - n else n, rest)
        | None => None
        end
  end.

Definition syntax_error {A : Type} : outcome A :=
  Throw (SyntaxError "Unexpected token in JSON").

Fixpoint parse_value (fuel : nat) (s : string) : outcome (value * string) :=
  match fuel with
  | O => OutOfFuel
  | S fuel' =>
      match skip_ws s with
      | EmptyString => syntax_error
      | String ch s' =>
          let n := nat_of_ascii ch in
          if (n =? 110)%nat then
            match expect "null" (String ch s') with
            | Some r => Ok (VNull, r)
            | None => syntax_error
            end
          else if (n =? 116)%nat then
            match expect "true" (String ch s') with
            | Some r => Ok (VBool true, r)
            | None => syntax_error
            end
          else if (n =? 102)%nat then
            match expect "false" (String ch s') with
            | Some r => Ok (VBool false, r)
            | None => syntax_error
            end
          else if (n =? 34)%nat then
            match parse_string_body s' with
            | Some (body, r) => Ok (VString body, r)
            | None => syntax_error
            end
          else if (n =? 91)%nat then
            match skip_ws s' with
            | String b r =>
                if (nat_of_ascii b =? 93)%nat then Ok (VArray [], r)
                else
                  p <- parse_elements fuel' s' ;;
                  Ok (VArray (fst p), snd p)
            | EmptyString => syntax_error
            end
          else if (n =? 123)%nat then
            match skip_ws s' with
            | String b r =>
                if (nat_of_ascii b =? 125)%nat then Ok (VObject [], r)
                else
                  p <- parse_members fuel' s' ;;
                  Ok (VObject (fst p), snd p)
            | EmptyString => syntax_error
            end
          else
            match parse_integer (String ch s') with
            | Some (z, r) => Ok (VNumber (Int z), r)
            | None => syntax_error
            end
      end
  end

with parse_elements (fuel : nat) (s : string) : outcome (list value * string) :=
  match fuel with
  | O => OutOfFuel
  | S fuel' =>
      p <- parse_value fuel' s ;;
      match skip_ws (snd p) with
      | String ch r =>
          if (nat_of_ascii ch =? 44)%nat then
            q <- parse_elements fuel' r ;;
            Ok (fst p :: fst q, snd q)
          else if (nat_of_ascii ch =? 93)%nat then Ok ([fst p], r)
          else syntax_error
      | EmptyString => syntax_error
      end
  end

with parse_members (fuel : nat) (s : string) : outcome (list (string * value) * string) :=
  match fuel with
  | O => OutOfFuel
  | S fuel' =>
      match skip_ws s with
      | String q s' =>
          if (nat_of_ascii q =? 34)%nat then
            match parse_string_body s' with
            | Some (k, r) =>
                match skip_ws r with
                | String colon r' =>
                    if (nat_of_ascii colon =? 58)%nat then
                      p <- parse_value fuel' r' ;;
                      match skip_ws (snd p) with
                      | String ch r'' =>
                          if (nat_of_ascii ch =? 44)%nat then
                            m <- parse_members fuel' r'' ;;
                            Ok ((k, fst p) :: fst m, snd m)
                          else if (nat_of_ascii ch =? 125)%nat then Ok ([(k, fst p)], r'')
                          else syntax_error
                      | EmptyString => syntax_error
                      end
                    else syntax_error
                | EmptyString => syntax_error
                end
            | None => syntax_error
            end
          else syntax_error
      | EmptyString => syntax_error
      end
  end.

Definition JSON_parse (fuel : nat) (text : string) : outcome value :=
  p <- parse_value fuel text ;;
  match skip_ws (snd p) with
  | EmptyString => Ok (fst p)
  | String _ _ => syntax_error
  end.

(** ** Vocabulary of the stated properties *)

(** The lines of a text. *)
Fixpoint lines (s : string) : list string :=
  match s with
  | EmptyString => [EmptyString]
  | String ch s' =>
      if Ascii.eqb ch "010"%char then EmptyString :: lines s'
      else match lines s' with
           | l :: ls => String ch l :: ls
           | [] => [String ch EmptyString]
           end
  end.

(** A line without its leading spaces. *)
Fixpoint strip_indentation (s : string) : string :=
  match s with
  | String ch s' => if Ascii.eqb ch " "%char then strip_indentation s' else s
  | EmptyString => s
  end.

(** Every line fits the budget once its indentation is taken off. *)
Definition lines_within (budget : Z) (text : string) : bool :=
  forallb (fun l => len (strip_indentation l) <=? budget) (lines text).

(** The texts of the scalar leaves of a value. *)
Fixpoint scalar_leaves (v : value) : list string :=
  match v with
  | VNull => ["null"]
  | VBool b => [if b then "true" else "false"]
  | VNumber n => [number_json n]
  | VString s => [QuoteJSONString s]
  | VArray items => flat_map scalar_leaves items
  | VObject props => flat_map (fun p => scalar_leaves (snd p)) props
  | _ => []
  end.

Definition leaves_within (budget : Z) (v : value) : bool :=
  forallb (fun t => len t <=? budget) (scalar_leaves v).

(** The packer's row width in the words of the specification: for every
    column index [j] the longest item at positions [j], [j + c],
    [j + 2c], ..., summed, plus [2 * (c - 1)]. *)
Definition column_items (lengths : list Z) (cols : Z) (j : nat) : list Z :=
  map snd (filter (fun '(i, _) => Z.of_nat i mod cols =? Z.of_nat j) (indexed lengths)).

Definition column_widths_spec (lengths : list Z) (cols : Z) : list Z :=
  map (fun j => max_of (column_items lengths cols j)) (seq 0 (Z.to_nat cols)).

Definition row_width (lengths : list Z) (cols : Z) : Z :=
  sum (column_widths_spec lengths cols) + 2 * (cols - 1).

Definition fits (lengths : list Z) (budget cols : Z) : bool :=
  row_width lengths cols <=? budget.

(** ** Sample data *)

Definition num (z : Z) : value := VNumber (Int z).

Definition nums (zs : list Z) : value := VArray (map num zs).

Definition with_maxLineLength (n : Z) : StringifyOptions := {|
  replace := Absent;
  indent := IndentAbsent;
  allowInline := Absent;
  maxLineLength := Some n;
  maxArrayItems := None;
  maxObjectProperties := None;
  maxArrayItemLength := None;
  compactLongArrays := None;
  allowTable := Absent;
  tables := None;
  tableArrays := None;
  tableObjects := None;
  tableMinSharedKeys := None;
  tablePadEndOfRows := None;
  tableDecimalAlignment := None
|}.

(** [{ indent, allowInline }] *)
Definition with_indent_allowInline (i : indent_option) (a : callback predicate)
  : StringifyOptions := {|
  replace := Absent;
  indent := i;
  allowInline := a;
  maxLineLength := None;
  maxArrayItems := None;
  maxObjectProperties := None;
  maxArrayItemLength := None;
  compactLongArrays := None;
  allowTable := Absent;
  tables := None;
  tableArrays := None;
  tableObjects := None;
  tableMinSharedKeys := None;
  tablePadEndOfRows := None;
  tableDecimalAlignment := None
|}.

(** The input of the test 'tables with missing properties'. *)
Definition missing_properties : value :=
  VObject [("a", VObject [("type", num 35); ("rotation", nums [0; 130; 0])]);
           ("b", VObject [("type", num 35)]);
           ("c", VObject [("type", num 35)]);
           ("d", VObject [("type", num 35); ("rotation", nums [90; 0; 0])]);
           ("e", VObject [("type", num 35)])].

(** What that test expects. *)
Definition missing_properties_expected : string :=
  js "{$  'a': { 'type': 35, 'rotation': [  0, 130, 0 ] },$  'b': { 'type': 35                             },$  'c': { 'type': 35                             },$  'd': { 'type': 35, 'rotation': [ 90,   0, 0 ] },$  'e': { 'type': 35                             }$}".

(** The input of the test 'tables'. *)
Definition face (uv : list Z) (texture : string) : value :=
  VObject [("uv", nums uv); ("texture", VString texture)].

Definition faces : value :=
  VObject [("down", face [13; 4; 15; 6] "#bottom");
           ("up", face [13; 0; 15; 2] "#top");
           ("north", face [9; 0; 11; 16] "#side");
           ("south", face [9; 0; 11; 16] "#side");
           ("west", face [9; 0; 11; 16] "#side");
           ("east", face [9; 0; 11; 16] "#side")].

(** Three rows of which the first lacks the [rotation] column. *)
Definition late_rotation : value :=
  VArray [VObject [("type", num 35)];
          VObject [("type", num 35); ("rotation", nums [0; 130; 0])];
          VObject [("type", num 35); ("rotation", nums [90; 0; 0])]].

(** Two rows of seven numbers, in an object and in an array. *)
Definition seven : list Z := [1; 2; 3; 4; 5; 6; 7].

Definition wide_rows_object : value :=
  VObject [("a", nums seven); ("b", nums seven)].

Definition wide_rows_array : value :=
  VArray [nums seven; nums [10; 20; 30; 40; 50; 60; 70]].

(** Thirty-six numbers whose texts alternate between 1 and 4 characters,
    and those texts. *)
Definition alternating_numbers : list Z :=
  flat_map (fun _ => [1; 1000]) (seq 0 18).

Definition alternating : list string := map Z_to_string alternating_numbers.

(** Seven items of 30 characters. *)
Definition long_items : list string :=
  repeat "aaaaaaaaaaaaaaaaaaaaaaaaaaaaaa" 7.

(** The options the tests of [index.test.ts] pass. *)
Definition options (r : callback replacer) (i : indent_option)
    (lineLength arrayItems : option Z) (compact : option bool) : StringifyOptions := {|
  replace := r;
  indent := i;
  allowInline := Absent;
  maxLineLength := lineLength;
  maxArrayItems := arrayItems;
  maxObjectProperties := None;
  maxArrayItemLength := None;
  compactLongArrays := compact;
  allowTable := Absent;
  tables := None;
  tableArrays := None;
  tableObjects := None;
  tableMinSharedKeys := None;
  tablePadEndOfRows := None;
  tableDecimalAlignment := None
|}.

(** [(key, value) => typeof value === 'number' ? value * 2 : value] *)
Definition doubling : replacer :=
  fun _ _ v =>
    match v with
    | VNumber (Int z) => VNumber (Int (z * 2))
    | _ => v
    end.

Definition compact_arrays : value :=
  VObject [("numbers", nums (map Z.of_nat (seq 1 26)));
           ("short_strings",
            VArray (map VString ["a"; "b"; "c"; "d"; "e"; "f"; "g"; "h"; "i"; "j";
                                 "k"; "l"; "m"]));
           ("medium_strings", VArray (repeat (VString "abcdefghijklm") 10))].

(** The literal a scalar is encoded as. *)
Definition scalar_literal (v : value) : option string :=
  match v with
  | VNull => Some "null"
  | VBool true => Some "true"
  | VBool false => Some "false"
  | VString s => Some (QuoteJSONString s)
  | VNumber n => Some (number_json n)
  | _ => None
  end.

Definition is_NotFn {F : Type} (cb : callback F) : bool :=
  match cb with
  | NotFn _ => true
  | _ => false
  end.

(** The indent option is [null], a number that is not positive, or the
    empty string. *)
Definition empty_indent (o : StringifyOptions) : Prop :=
  match indent o with
  | IndentNull => True
  | IndentNumber n => n <= 0
  | IndentString s => s = EmptyString
  | IndentAbsent => False
  end.

(** [n] clamped into [0, 10]. *)
Definition clamp10 (n : Z) : Z :=
  if n <? 0 then 0 else if 10 <? n then 10 else n.

(** The groups [Map.groupBy] builds for [getColumnWidths], column by
    column. *)
Definition groups_spec (l : list Z) (cols : Z) (s m : nat) : list (option Z * list Z) :=
  map (fun j => (Some (Z.of_nat j), column_items l cols j)) (seq s m).

(** The width [findMaxItemsWide] compares with [maxLineLength] when it
    probes a column count (lines 564-566). *)
Definition probe_width (lengths : list Z) (cols : Z) : Z :=
  sum (getColumnWidths lengths cols) + (cols - 1) * 2.

Definition probe_fits (lengths : list Z) (budget cols : Z) : bool :=
  probe_width lengths cols <=? budget.

(** What [stringify] returns on [missing_properties]. *)
Definition missing_properties_rendered : string :=
  js "{$  'a': { 'type': 35, 'rotation': [  0, 130, 0 ] },$  'b': { 'type': 35 'rotation': ,               },$  'c': { 'type': 35 'rotation': ,               },$  'd': { 'type': 35, 'rotation': [ 90,   0, 0 ] },$  'e': { 'type': 35 'rotation': ,               }$}".

(** A tree of null, booleans, numbers, strings, arrays and objects. *)
Fixpoint plain (v : value) : bool :=
  match v with
  | VNull | VBool _ | VNumber _ | VString _ => true
  | VArray items => forallb plain items
  | VObject props => forallb (fun p => plain (snd p)) props
  | _ => false
  end.

(** The nesting depth of a value. *)
Fixpoint height (v : value) : nat :=
  match v with
  | VArray items => S (list_max (map height items))
  | VObject props => S (list_max (map (fun p => height (snd p)) props))
  | _ => O
  end.

(** ** Vocabulary of the further properties *)

(** The lines a multi-line block gives its items: each behind the item
    indent, and a comma after every item but the last. *)
Fixpoint item_lines (itemIndent : string) (items : list string) : list string :=
  match items with
  | [] => []
  | [item] => [itemIndent ++ item]
  | item :: rest => (itemIndent ++ item ++ ",") :: item_lines itemIndent rest
  end.

(** A cell of a column as [decimalAlignment] leaves it: a hole stays a
    hole, a text gets spaces in front that bring its decimal point, or
    its end when it has none, to [column]. *)
Definition aligned_cell (column : Z) (cell out : option string) : Prop :=
  match cell with
  | None => out = None
  | Some n =>
      exists k, out = Some (repeat_nat " " k ++ n) /\
                decimal_index (repeat_nat " " k ++ n) = column
  end.

(** The rows [getTableColumnOrder] looks at (lines 592-593): the items of
    an array, or the values of an object, that are neither [undefined]
    nor a function. *)
Definition table_values (table : value) : list value :=
  filter representable
    (match table with
     | VArray items => items
     | VObject _ => Object_values table
     | _ => []
     end).

(** [columns[columnIndex][i]], [None] where it is unset. *)
Definition cell_at (columns : list column) (i : nat) (columnIndex : nat)
  : option string :=
  match nth_error columns columnIndex with
  | Some (_, cells) => nth i cells None
  | None => None
  end.

(** What one pass of the loop of lines 360-368 (and 445-454) adds to a
    row: the body of [table_row] at [columnIndex]. *)
Definition row_part (columns : list column) (i : nat) (lastFilledColumn : option Z)
    (columnIndex : nat) : outcome string :=
  match nth_error columns columnIndex with
  | None => no_result
  | Some (width, cells) =>
      match nth i cells None with
      | None => str_repeat_nan " " (option_map (fun w => w + 2) width)
      | Some cell =>
          pad <- str_repeat_nan " " (option_map (fun w => w - len cell + 1) width) ;;
          Ok (cell
                ++ (if match lastFilledColumn with
                       | Some l => Z.of_nat columnIndex =? l
                       | None => false
                       end
                    then EmptyString else ",")
                ++ pad)
      end
  end.

(** A JSON text without its insignificant whitespace: the spaces, tabs
    and line ends outside string literals are dropped.  [inString] and
    [escaped] say where in a string literal the reading stands. *)
Fixpoint squeeze_from (inString escaped : bool) (s : string) : string :=
  match s with
  | EmptyString => EmptyString
  | String ch s' =>
      if inString then
        String ch (if escaped then squeeze_from true false s'
                   else if Ascii.eqb ch "092"%char then squeeze_from true true s'
                   else if Ascii.eqb ch "034"%char then squeeze_from false false s'
                   else squeeze_from true false s')
      else if is_ws ch then squeeze_from false false s'
      else String ch (squeeze_from (Ascii.eqb ch "034"%char) false s')
  end.

Definition squeeze (s : string) : string := squeeze_from false false s.

(** [text] is a run of complete tokens that squeezes to [compact],
    whatever follows it. *)
Definition squeezes_to (text compact : string) : Prop :=
  forall rest, squeeze (text ++ rest) = compact ++ squeeze rest.

(** Only whitespace. *)
Fixpoint is_blank (s : string) : bool :=
  match s with
  | EmptyString => true
  | String ch s' => is_ws ch && is_blank s'
  end.

(** [{ tables: false }] *)
Definition tables_off : StringifyOptions := {|
  replace := Absent;
  indent := IndentAbsent;
  allowInline := Absent;
  maxLineLength := None;
  maxArrayItems := None;
  maxObjectProperties := None;
  maxArrayItemLength := None;
  compactLongArrays := None;
  allowTable := Absent;
  tables := Some false;
  tableArrays := None;
  tableObjects := None;
  tableMinSharedKeys := None;
  tablePadEndOfRows := None;
  tableDecimalAlignment := None
|}.

(** A [replace] callback that stays within the trees of null, booleans,
    numbers, strings, arrays and objects and does not deepen them. *)
Definition keeps_plain (r : replacer) : Prop :=
  forall (holder : value) (key : string) (v : value),
    plain v = true ->
    plain (r holder key v) = true /\ (height (r holder key v) <= height v)%nat.

(** [{ tables: false, replace }] with a callback that adds one to every
    number. *)
Definition add_one : replacer :=
  fun _ _ v => match v with
               | VNumber (Int z) => VNumber (Int (z + 1))
               | _ => v
               end.

Definition tables_off_add_one : StringifyOptions := {|
  replace := Fn add_one;
  indent := IndentAbsent;
  allowInline := Absent;
  maxLineLength := None;
  maxArrayItems := None;
  maxObjectProperties := None;
  maxArrayItemLength := None;
  compactLongArrays := None;
  allowTable := Absent;
  tables := Some false;
  tableArrays := None;
  tableObjects := None;
  tableMinSharedKeys := None;
  tablePadEndOfRows := None;
  tableDecimalAlignment := None
|}.

(** What may follow a value in a JSON text: the end, whitespace, a comma
    or a closing bracket. *)
Definition ends_value (rest : string) : bool :=
  match rest with
  | EmptyString => true
  | String ch _ =>
      is_ws ch || Ascii.eqb ch ","%char || Ascii.eqb ch "]"%char
      || Ascii.eqb ch "}"%char
  end.

(** [text] reads back as [v]: with [n] units of fuel or more,
    [JSON.parse] takes [text] off the front of whatever may follow a
    value and gives [v]. *)
Definition parses_within (n : nat) (text : string) (v : value) : Prop :=
  forall fuel rest,
    (n <= fuel)%nat -> ends_value rest = true ->
    parse_value fuel (text ++ rest) = Ok (v, rest).

(** The texts of the items of a container, with a comma between two of
    them and whitespace around the commas. *)
Inductive comma_separated : list string -> string -> Prop :=
| cs_one (item : string) : comma_separated [item] item
| cs_cons (item : string) (items : list string) (b b' t : string) :
    is_blank b = true -> is_blank b' = true ->
    comma_separated items t ->
    comma_separated (item :: items) (item ++ b ++ "," ++ b' ++ t).

(** The text of a property: the key as a string literal, a colon, the
    text of the value. *)
Definition member_text (n : nat) (item : string) (kv : string * value) : Prop :=
  exists b b' vt,
    is_blank b = true /\ is_blank b' = true /\
    item = QuoteJSONString (fst kv) ++ b ++ ":" ++ b' ++ vt /\
    parses_within n vt (snd kv).

Fixpoint distinct (ks : list string) : bool :=
  match ks with
  | [] => true
  | k :: ks' => negb (mem k ks') && distinct ks'
  end.

(** The values JSON can hold and give back: null, booleans, finite
    numbers, strings, arrays, and objects with distinct keys. *)
Fixpoint is_json (v : value) : bool :=
  match v with
  | VNull | VBool _ | VString _ => true
  | VNumber (Int _) => true
  | VArray items => forallb is_json items
  | VObject props =>
      distinct (map fst props) && forallb (fun p => is_json (snd p)) props
  | _ => false
  end.

(** The number a decimal numeral denotes, read digit by digit as
    [digits_value] reads its text. *)
Fixpoint uint_value (d : Decimal.uint) (acc : Z) : Z :=
  match d with
  | Decimal.Nil => acc
  | Decimal.D0 d' => uint_value d' (10 * acc + 0)
  | Decimal.D1 d' => uint_value d' (10 * acc + 1)
  | Decimal.D2 d' => uint_value d' (10 * acc + 2)
  | Decimal.D3 d' => uint_value d' (10 * acc + 3)
  | Decimal.D4 d' => uint_value d' (10 * acc + 4)
  | Decimal.D5 d' => uint_value d' (10 * acc + 5)
  | Decimal.D6 d' => uint_value d' (10 * acc + 6)
  | Decimal.D7 d' => uint_value d' (10 * acc + 7)
  | Decimal.D8 d' => uint_value d' (10 * acc + 8)
  | Decimal.D9 d' => uint_value d' (10 * acc + 9)
  end.

(** A numeral without a leading zero. *)
Definition canonical (d : Decimal.uint) : Prop :=
  match d with
  | Decimal.Nil => False
  | Decimal.D0 Decimal.Nil => True
  | Decimal.D0 _ => False
  | _ => True
  end.

(** Fuel that is enough for [JSON.parse] to read a value back. *)
Fixpoint parse_fuel (v : value) : nat :=
  match v with
  | VArray items => S (list_max (map parse_fuel items) + List.length items)
  | VObject props =>
      S (list_max (map (fun p => parse_fuel (snd p)) props) + List.length props)
  | _ => 1
  end.

Definition is_container (v : value) : bool :=
  match v with
  | VArray _ | VObject _ => true
  | _ => false
  end.

(** Values in which no array or object is a candidate for a table: each
    has at most one item, or an item that is neither an array nor an
    object. *)
Fixpoint table_free (v : value) : bool :=
  match v with
  | VArray items =>
      ((List.length items <=? 1)%nat || existsb (fun x => negb (is_container x)) items)
      && forallb table_free items
  | VObject props =>
      ((List.length props <=? 1)%nat
       || existsb (fun p => negb (is_container (snd p))) props)
      && forallb (fun p => table_free (snd p)) props
  | _ => true
  end.

(** The closure with both table switches off. *)
Definition without_tables (c : closure) : closure :=
  {| c_maxLineLength := c_maxLineLength c;
     c_maxArrayItems := c_maxArrayItems c;
     c_maxObjectProperties := c_maxObjectProperties c;
     c_maxArrayItemLength2 := c_maxArrayItemLength2 c;
     c_compactLongArrays := c_compactLongArrays c;
     c_tableArrays := false;
     c_tableObjects := false;
     c_tableMinSharedKeys := c_tableMinSharedKeys c;
     c_tablePadEndOfRows := c_tablePadEndOfRows c;
     c_tableDecimalAlignment := c_tableDecimalAlignment c;
     c_indent := c_indent c;
     c_replaceFunc := c_replaceFunc c;
     c_allowInline := c_allowInline c;
     c_allowTable := c_allowTable c |}.

(** ** Vocabulary of the indent property *)

(** The text starts with a character that is not white space. *)
Definition starts_item (s : string) : bool :=
  match s with
  | String ch _ => negb (is_ws ch)
  | EmptyString => false
  end.

(** The rows of a block whose first line shows a character right after
    the indent: the first row starts with one, or it is empty and a
    bracketed row follows it, so that the separating comma comes next. *)
Definition rows_start (rows : list string) : Prop :=
  match rows with
  | [] => False
  | first :: more =>
      starts_item first = true \/
      first = EmptyString /\
      exists r, In r more /\
                (first_char_is "["%char r || first_char_is "{"%char r) = true
  end.

(** The text of a value at [depth] as far as its first two lines go: it
    starts with a character that is not white space, and when it spans
    several lines it is a block, with its bracket alone on the first
    line and, on the second, [depth + 1] units of the closure's indent
    and right after them a character that is not white space. *)
Definition starts_block (c : closure) (depth : nat) (text : string) : Prop :=
  starts_item text = true /\
  (includes_newline text = true ->
   exists open ch rest,
     (open = "[" \/ open = "{") /\
     text = open ++ newline ++ repeat_nat (c_indent c) (depth + 1) ++ String ch rest /\
     is_ws ch = false).

(** * Properties *)

(** ** The tests of [index.test.ts]

    The embedding gives each test the text it expects, but for 'tables
    with missing properties', which is settled under the round trip
    below. *)

Example test_undefined : stringify 1 VUndefined no_options = Ok None.
Proof. reflexivity. Qed.

Example test_function : stringify 1 (VFunction 0 VNull) no_options = Ok None.
Proof. reflexivity. Qed.

Example test_null : stringify 1 VNull no_options = Ok (Some "null").
Proof. reflexivity. Qed.

Example test_string :
  stringify 1 (VString "hello") no_options = Ok (Some (js "'hello'")).
Proof. reflexivity. Qed.

Example test_number : stringify 1 (num 123) no_options = Ok (Some "123").
Proof. reflexivity. Qed.

Example test_boolean :
  stringify 1 (VBool true) no_options = Ok (Some "true") /\
  stringify 1 (VBool false) no_options = Ok (Some "false").
Proof. split; reflexivity. Qed.

Example test_array :
  stringify 2 (VArray [num 1; VString "two"; VNull; VBool true]) no_options
  = Ok (Some (js "[ 1, 'two', null, true ]")).
Proof. reflexivity. Qed.

Example test_object :
  stringify 2 (VObject [("a", num 1); ("b", VString "two"); ("c", VNull);
                        ("d", VBool true)]) no_options
  = Ok (Some (js "{ 'a': 1, 'b': 'two', 'c': null, 'd': true }")).
Proof. reflexivity. Qed.

Example test_nested_object :
  stringify 4 (VObject [("a", VObject [("b", VObject [("c", num 1)])])]) no_options
  = Ok (Some (js "{$  'a': { 'b': { 'c': 1 } }$}")).
Proof. reflexivity. Qed.

Example test_array_with_objects :
  stringify 3 (VArray [VObject [("a", num 1)]; VObject [("b", num 2)]]) no_options
  = Ok (Some (js "[$  { 'a': 1 },$  { 'b': 2 }$]")).
Proof. reflexivity. Qed.

Example test_object_with_array :
  stringify 3 (VObject [("a", nums [1; 2; 3])]) no_options
  = Ok (Some (js "{ 'a': [ 1, 2, 3 ] }")).
Proof. reflexivity. Qed.

Example test_replace :
  stringify 2 (VObject [("a", num 1); ("b", num 2)])
    (options (Fn doubling) IndentAbsent None None None)
  = Ok (Some (js "{ 'a': 2, 'b': 4 }")).
Proof. reflexivity. Qed.

Example test_indent :
  let obj := VObject [("a", num 1); ("b", num 2)] in
  stringify 2 obj (options Absent (IndentNumber 2) (Some 0) None None)
  = Ok (Some (js "{$  'a': 1,$  'b': 2$}")) /\
  stringify 2 obj (options Absent (IndentNumber 4) (Some 0) None None)
  = Ok (Some (js "{$    'a': 1,$    'b': 2$}")) /\
  stringify 2 obj (options Absent (IndentString (String "009"%char EmptyString))
                     (Some 0) None None)
  = Ok (Some (newline_tabs (js "{$~'a': 1,$~'b': 2$}"))).
Proof. repeat split. Qed.

Example test_maxArrayItems :
  stringify 2 (nums [1]) (options Absent IndentAbsent None (Some 3) None)
  = Ok (Some "[ 1 ]") /\
  stringify 2 (nums [1; 2; 3]) (options Absent IndentAbsent None (Some 3) None)
  = Ok (Some "[ 1, 2, 3 ]") /\
  stringify 2 (nums [1; 2; 3; 4; 5])
    (options Absent IndentAbsent None (Some 3) (Some false))
  = Ok (Some (js "[$  1,$  2,$  3,$  4,$  5$]")) /\
  stringify 2 (nums [1; 2; 3; 4; 5]) (options Absent IndentAbsent None (Some 5) None)
  = Ok (Some "[ 1, 2, 3, 4, 5 ]").
Proof. repeat split. Qed.

Example test_nested_split :
  stringify 3 (VArray [nums [1; 2]; nums [3; 4]]) no_options
  = Ok (Some (js "[$  [ 1, 2 ],$  [ 3, 4 ]$]")) /\
  stringify 4 (VObject [("a", VObject [("b", VObject [("c", num 1)])]); ("d", num 2)])
    no_options
  = Ok (Some (js "{$  'a': { 'b': { 'c': 1 } },$  'd': 2$}")) /\
  stringify 4 (VObject [("a", VArray [num 1; VObject [("b", num 2)]]); ("c", num 3)])
    no_options
  = Ok (Some (js "{$  'a': [ 1, { 'b': 2 } ],$  'c': 3$}")).
Proof. repeat split. Qed.

Example test_property_name_lengths :
  stringify 3 (VObject [("a", VObject [("b", num 1)]);
                        ("ccccccccccccccccccccccccccc", VObject [("d", num 1)])])
    (with_maxLineLength 40)
  = Ok (Some (js "{$  'a': { 'b': 1 },$  'ccccccccccccccccccccccccccc': {$    'd': 1$  }$}")).
Proof. reflexivity. Qed.

Example test_compactLongArrays :
  stringify 3 compact_arrays (with_maxLineLength 40)
  = Ok (Some (js "{$  'numbers': [$    1,  2,  3,  4,  5,  6,$    7,  8,  9,  10, 11, 12,$    13, 14, 15, 16, 17, 18,$    19, 20, 21, 22, 23, 24,$    25, 26$  ],$  'short_strings': [$    'a', 'b', 'c', 'd',$    'e', 'f', 'g', 'h',$    'i', 'j', 'k', 'l',$    'm'$  ],$  'medium_strings': [$    'abcdefghijklm', 'abcdefghijklm',$    'abcdefghijklm', 'abcdefghijklm',$    'abcdefghijklm', 'abcdefghijklm',$    'abcdefghijklm', 'abcdefghijklm',$    'abcdefghijklm', 'abcdefghijklm'$  ]$}")).
Proof. vm_compute. reflexivity. Qed.

Example test_tables :
  stringify 5 faces no_options
  = Ok (Some (js "{$  'down':  { 'uv': [ 13, 4, 15,  6 ], 'texture': '#bottom' },$  'up':    { 'uv': [ 13, 0, 15,  2 ], 'texture': '#top'    },$  'north': { 'uv': [  9, 0, 11, 16 ], 'texture': '#side'   },$  'south': { 'uv': [  9, 0, 11, 16 ], 'texture': '#side'   },$  'west':  { 'uv': [  9, 0, 11, 16 ], 'texture': '#side'   },$  'east':  { 'uv': [  9, 0, 11, 16 ], 'texture': '#side'   }$}")) /\
  (forall text, stringify 5 faces no_options = Ok (Some text) ->
                JSON_parse 100 text = Ok faces).
Proof.
  split; [vm_compute; reflexivity|].
  intros text H. vm_compute in H. inversion H; subst text. vm_compute. reflexivity.
Qed.

(** ** Strings *)

Lemma length_repeat_space (n : nat) : String.length (repeat_nat " " n) = n.
Proof.
  induction n as [|n IH]; simpl; [reflexivity | now rewrite IH].
Qed.

Lemma length_substring_0 (n : nat) (s : string) :
  String.length (substring 0 n s) = Nat.min n (String.length s).
Proof.
  revert s; induction n as [|n IH]; intros s.
  - destruct s; reflexivity.
  - destruct s as [|ch s]; simpl; [reflexivity | now rewrite IH].
Qed.

Lemma includes_newline_app (a b : string) :
  includes_newline (a ++ b) = includes_newline a || includes_newline b.
Proof.
  induction a as [|ch a IH]; simpl; [reflexivity|].
  now rewrite IH, orb_assoc.
Qed.

(** ** The indent (lines 152-159) *)

(** The indent string is empty exactly for those options. *)
Lemma empty_indent_cases (o : StringifyOptions) :
  String.length (indent_of o) = 0%nat <-> empty_indent o.
Proof.
  unfold indent_of, empty_indent. destruct (indent o) as [| |n|s].
  - split; [discriminate | contradiction].
  - split; [trivial | reflexivity].
  - rewrite length_repeat_space. lia.
  - rewrite length_substring_0. destruct s; simpl; split; intros H;
      try reflexivity; try discriminate.
Qed.

(** C6: with an empty indent ([null], [0] or less, or the empty string)
    the result is the built-in [JSON.stringify(value, replace)], whatever
    the other options hold. *)
Theorem empty_indent_is_JSON_stringify (fuel : nat) (v : value) (o : StringifyOptions) :
  empty_indent o ->
  stringify fuel v o = JSON_stringify fuel v (replace o).
Proof.
  intros E. apply empty_indent_cases in E. unfold stringify. now rewrite E.
Qed.

Lemma empty_indent_is_JSON_stringify_witness :
  let o := with_indent_allowInline (IndentNumber 0) (NotFn (num 42)) in
  let v := VArray [num 1; VString "a"; VUndefined] in
  empty_indent o /\
  stringify 3 v o = JSON_stringify 3 v (replace o) /\
  JSON_stringify 3 v (replace o) = Ok (Some (js "[1,'a',null]")).
Proof.
  split; [unfold empty_indent; cbn; lia | split; [| reflexivity]].
  apply (empty_indent_is_JSON_stringify 3). unfold empty_indent; cbn; lia.
Defined.

(** ** Option checks (lines 161-169) *)

(** C7, as the code has it: when the indent is not empty, a callback
    option that holds something other than a function makes [stringify]
    throw the configuration error that names it, whatever the input is,
    before [processValue] runs.  (With an empty indent the call has
    already returned what [JSON.stringify] gives.) *)
Theorem callback_check_precedes_traversal (o : StringifyOptions) :
  ~ empty_indent o ->
  is_NotFn (replace o) || is_NotFn (allowInline o) || is_NotFn (allowTable o) = true ->
  exists name,
    In name ["replace"; "allowInline"; "allowTable"] /\
    forall fuel v,
      stringify fuel v o = Throw (PlainError ("'" ++ name ++ "' must be a function.")).
Proof.
  intros Hind Hbad. unfold stringify.
  rewrite <- empty_indent_cases in Hind.
  apply Nat.eqb_neq in Hind. rewrite Hind.
  destruct (replace o);
    [| | exists "replace"; split; [simpl; auto | reflexivity]];
    (destruct (allowInline o);
     [| | exists "allowInline"; split; [simpl; auto | reflexivity]]);
    (destruct (allowTable o);
     [| | exists "allowTable"; split; [simpl; auto | reflexivity]]);
    discriminate.
Qed.

Lemma callback_check_precedes_traversal_witness :
  let o := with_indent_allowInline (IndentNumber 2) (NotFn (num 42)) in
  ~ empty_indent o /\
  exists name,
    In name ["replace"; "allowInline"; "allowTable"] /\
    forall fuel v,
      stringify fuel v o = Throw (PlainError ("'" ++ name ++ "' must be a function.")).
Proof.
  split; [unfold empty_indent; cbn; lia|].
  apply callback_check_precedes_traversal; [unfold empty_indent; cbn; lia | reflexivity].
Defined.

(** C7, as stated, fails: with [indent: 0] a non-function [allowInline]
    raises nothing and the call returns the compact text. *)
Lemma callback_check_skipped_on_empty_indent :
  stringify 1 VNull (with_indent_allowInline (IndentNumber 0) (NotFn (num 42)))
  = Ok (Some "null").
Proof. reflexivity. Qed.

(** ** Scalars (lines 185-200) *)

(** C9, as the code has it: on null, a boolean, a string or a number (the
    value the replacer gives, when there is one) [processValue] returns
    the literal and never fails. *)
Theorem scalar_encoding_total (c : closure) (fuel : nat) (key : string) (v : value)
    (depth : nat) (parentObj : value) (keyLength : Z) (allowTables : bool)
    (literal : string) :
  scalar_literal (apply_replace c parentObj key v) = Some literal ->
  processValue c (S fuel) key v depth parentObj keyLength allowTables
  = Ok (Some {| result := literal; nested := false |}).
Proof.
  intros H. simpl.
  destruct (apply_replace c parentObj key v) as [| |b|n|z|s|a r|items|props];
    simpl in H; try discriminate.
  - now inversion H.
  - destruct b; now inversion H.
  - now inversion H.
  - now inversion H.
Qed.

Lemma scalar_encoding_total_witness :
  scalar_literal (apply_replace (capture no_options) (root_holder (VString "hello"))
                    EmptyString (VString "hello")) = Some (js "'hello'") /\
  processValue (capture no_options) 1 EmptyString (VString "hello") 0
    (root_holder (VString "hello")) 0 true
  = Ok (Some {| result := js "'hello'"; nested := false |}).
Proof.
  split; [reflexivity|].
  apply (scalar_encoding_total (capture no_options) 0). reflexivity.
Defined.

(** C9, as stated, fails on a bigint: the built-in [JSON.stringify] it is
    handed to throws. *)
Lemma bigint_encoding_throws :
  stringify 1 (VBigInt 10) no_options
  = Throw (TypeError "Do not know how to serialize a BigInt").
Proof. reflexivity. Qed.

(** No amount of fuel changes that. *)
Lemma bigint_encoding_never_returns (fuel : nat) (z : Z) :
  stringify (S fuel) (VBigInt z) no_options
  = Throw (TypeError "Do not know how to serialize a BigInt").
Proof. reflexivity. Qed.

(** ** The column-count check of the object branch (lines 249-251) *)

(** C1 fails on the code: an object whose values are two arrays of seven
    numbers has a positional column order of seven columns, more than
    [maxArrayItems]; line 251 leaves [processValue] with [null] instead of
    leaving the [table:] block, and the array branch that called it reads
    [.result] of that [null].  A second way: when the first row of a
    table lacks a column that is a sub-table, the column's width is the
    length of that row's bare key label (line 393) and the padding count
    of line 453 is negative on the rows that do have it.  Both inputs are
    trees of numbers, arrays and objects only. *)
Theorem wide_table_in_array_throws (fuel : nat) :
  stringify (S (S fuel)) (VArray [wide_rows_object]) no_options
  = Throw (TypeError "Cannot read properties of undefined or null") /\
  stringify (4 + fuel) late_rotation no_options
  = Throw (RangeError "Invalid count value").
Proof. split; reflexivity. Qed.

(** C5 fails on the code, both ways.  An object over the ceiling is not
    rendered item by item: [processValue] returns [null] and the call
    gives [undefined].  An array over the ceiling is rendered as a table
    all the same, since the array branch (lines 206-221) never compares
    the column count with a ceiling: seven columns with [maxArrayItems]
    at 6. *)
Theorem column_ceiling_not_enforced (fuel : nat) :
  Z.of_nat (List.length seven) > c_maxArrayItems (capture no_options) /\
  stringify (S fuel) wide_rows_object no_options = Ok None /\
  stringify (S (S (S fuel))) wide_rows_array no_options
  = Ok (Some (js "[$  [  1,  2,  3,  4,  5,  6,  7 ],$  [ 10, 20, 30, 40, 50, 60, 70 ]$]")).
Proof.
  split; [reflexivity | split; [reflexivity|]].
  vm_compute. reflexivity.
Qed.

(** ** Unrepresentable values (lines 225-230, 274-280, 517) *)

(** C8 fails on the code.  An [undefined] item of an array is not rendered
    as [null]: [processValue] falls off its end on it and the [map]
    callback of line 229 reads [.result] of [undefined].  The call gives
    [undefined] for a root that is an ordinary object, through the
    [return null] of line 251.  An [undefined] property of an object is
    dropped, as claimed. *)
Theorem unrepresentable_items_mishandled (fuel : nat) :
  stringify (S (S fuel)) (VArray [num 1; VUndefined]) no_options
  = Throw (TypeError "Cannot read properties of undefined or null") /\
  (representable wide_rows_object = true /\
   stringify (S fuel) wide_rows_object no_options = Ok None) /\
  stringify (S (S fuel)) (VObject [("a", VUndefined); ("b", num 1)]) no_options
  = Ok (Some (js "{ 'b': 1 }")).
Proof.
  split; [reflexivity | split; [split; reflexivity|]].
  vm_compute. reflexivity.
Qed.

(** ** Round trip *)

(** C2 fails on the code, on the input of the repository's test 'tables
    with missing properties': the rows that lack the [rotation] column get
    the key label of the sub-table all the same (lines 390-392).  The text
    is not the one the test expects, and no parse of it gives the input
    back: it is not JSON. *)
Theorem missing_properties_not_json (fuel : nat) :
  stringify (4 + fuel) missing_properties no_options
  = Ok (Some missing_properties_rendered) /\
  missing_properties_rendered <> missing_properties_expected /\
  JSON_parse (10 + fuel) missing_properties_rendered
  = Throw (SyntaxError "Unexpected token in JSON") /\
  (forall n, JSON_parse n missing_properties_rendered <> Ok missing_properties) /\
  JSON_parse 200 missing_properties_expected = Ok missing_properties.
Proof.
  assert (P : forall k, JSON_parse (10 + k) missing_properties_rendered
                        = Throw (SyntaxError "Unexpected token in JSON")).
  { intros k. vm_compute. reflexivity. }
  split; [vm_compute; reflexivity|].
  split; [vm_compute; discriminate|].
  split; [apply P|].
  split; [| vm_compute; reflexivity].
  intros n.
  do 10 (destruct n as [|n]; [vm_compute; discriminate|]).
  change (S (S (S (S (S (S (S (S (S (S n)))))))))) with (10 + n)%nat.
  rewrite P. discriminate.
Qed.

(** ** The compact packer's column count (lines 544-576) *)

Lemma findMaxItemsWide_loop_spec (lengths : list Z) (budget H : Z) :
  forall (fuel : nat) (low high best : Z) (bw : option (list Z)),
    (Z.to_nat (high - low + 1) <= fuel)%nat ->
    1 <= low -> low <= high + 1 -> high <= H ->
    (bw = None /\ best = 1 /\ low = 1 \/
     bw = Some (getColumnWidths lengths best) /\
     probe_fits lengths budget best = true /\ 1 <= best /\ best = low - 1) ->
    (high = H \/ probe_fits lengths budget (high + 1) = false) ->
    exists best' bw',
      findMaxItemsWide_loop fuel lengths budget low high best bw = Ok (best', bw') /\
      (bw' = None /\ best' = 1 /\ (H < 1 \/ probe_fits lengths budget 1 = false) \/
       bw' = Some (getColumnWidths lengths best') /\ 1 <= best' <= H /\
       probe_fits lengths budget best' = true /\
       (best' = H \/ probe_fits lengths budget (best' + 1) = false)).
Proof.
  assert (Hexit : forall low high best bw,
    low = high + 1 -> high <= H ->
    (bw = None /\ best = 1 /\ low = 1 \/
     bw = Some (getColumnWidths lengths best) /\
     probe_fits lengths budget best = true /\ 1 <= best /\ best = low - 1) ->
    (high = H \/ probe_fits lengths budget (high + 1) = false) ->
    (bw = None /\ best = 1 /\ (H < 1 \/ probe_fits lengths budget 1 = false) \/
     bw = Some (getColumnWidths lengths best) /\ 1 <= best <= H /\
     probe_fits lengths budget best = true /\
     (best = H \/ probe_fits lengths budget (best + 1) = false))).
  { intros low high best bw E HH Hbest Hhigh.
    destruct Hbest as [(-> & -> & ->)|(-> & Hf & Hb1 & ->)].
    - left. repeat split. destruct Hhigh as [->|Hh]; [left; lia|].
      right. now replace (high + 1) with 1 in Hh by lia.
    - right. repeat split; try lia; trivial.
      destruct Hhigh as [->|Hh]; [left; lia|].
      right. now replace (low - 1 + 1) with (high + 1) by lia. }
  induction fuel as [|fuel IH]; intros low high best bw Hfuel Hlow Hle HH Hbest Hhigh.
  - simpl. destruct (Z.leb_spec low high); [lia|].
    exists best, bw. split; [reflexivity|].
    apply (Hexit low high); trivial; lia.
  - cbn [findMaxItemsWide_loop]. destruct (Z.leb_spec low high) as [Hlh|Hlh].
    + set (mid := (low + high) / 2).
      assert (Hmid : low <= mid <= high).
      { unfold mid. split.
        - apply Z.div_le_lower_bound; lia.
        - apply Z.div_le_upper_bound; lia. }
      fold (probe_width lengths mid).
      change (probe_width lengths mid <=? budget) with (probe_fits lengths budget mid).
      destruct (probe_fits lengths budget mid) eqn:Hfit.
      * apply IH; try lia.
        -- right. repeat split; trivial; lia.
        -- exact Hhigh.
      * apply IH; try lia.
        -- exact Hbest.
        -- right. now replace (mid - 1 + 1) with mid by lia.
    + exists best, bw. split; [reflexivity|].
      apply (Hexit low high); trivial; lia.
Qed.

Lemma combine_seq_snoc {A : Type} (l : list A) (x : A) (s : nat) :
  combine (seq s (List.length (l ++ [x])%list)) (l ++ [x])%list
  = (combine (seq s (List.length l)) l ++ [((s + List.length l)%nat, x)])%list.
Proof.
  revert s; induction l as [|a l IH]; intros s; simpl.
  - now rewrite Nat.add_0_r.
  - rewrite IH. now rewrite Nat.add_succ_comm.
Qed.

Lemma indexed_snoc {A : Type} (l : list A) (x : A) :
  indexed (l ++ [x])%list = (indexed l ++ [(List.length l, x)])%list.
Proof. unfold indexed. now rewrite combine_seq_snoc. Qed.

Lemma column_items_snoc (l : list Z) (x cols : Z) (j : nat) :
  column_items (l ++ [x])%list cols j
  = (column_items l cols j
     ++ (if Z.of_nat (List.length l) mod cols =? Z.of_nat j then [x] else []))%list.
Proof.
  unfold column_items. rewrite indexed_snoc, filter_app, map_app. simpl.
  now destruct (Z.of_nat (List.length l) mod cols =? Z.of_nat j).
Qed.

Lemma column_items_beyond (l : list Z) (cols : Z) (j : nat) :
  (List.length l <= j)%nat -> Z.of_nat j < cols -> column_items l cols j = [].
Proof.
  induction l as [|x l IH] using rev_ind; intros Hj Hc; [reflexivity|].
  rewrite length_app in Hj; simpl in Hj.
  rewrite column_items_snoc, IH by lia.
  rewrite Z.mod_small by lia.
  destruct (Z.eqb_spec (Z.of_nat (List.length l)) (Z.of_nat j)); [lia | reflexivity].
Qed.


Lemma group_add_present (f g : nat -> list Z) (k : nat) (x : Z) :
  forall (m s : nat),
    (s <= k < s + m)%nat ->
    (forall j, g j = if Nat.eqb j k then (f j ++ [x])%list else f j) ->
    group_add (Some (Z.of_nat k)) x (map (fun j => (Some (Z.of_nat j), f j)) (seq s m))
    = map (fun j => (Some (Z.of_nat j), g j)) (seq s m).
Proof.
  induction m as [|m IH]; intros s Hk Hg; [lia|].
  simpl. destruct (Z.eqb_spec (Z.of_nat k) (Z.of_nat s)) as [E|E].
  - assert (k = s) by lia. subst k.
    rewrite (Hg s), Nat.eqb_refl. f_equal.
    apply map_ext_in. intros j Hj. apply in_seq in Hj.
    rewrite (Hg j). destruct (Nat.eqb_spec j s); [lia | reflexivity].
  - rewrite (Hg s). destruct (Nat.eqb_spec s k); [lia|].
    f_equal. apply IH; [lia | exact Hg].
Qed.

Lemma group_add_absent (f : nat -> list Z) (k : nat) (x : Z) :
  forall (m s : nat),
    (s + m <= k)%nat ->
    group_add (Some (Z.of_nat k)) x (map (fun j => (Some (Z.of_nat j), f j)) (seq s m))
    = (map (fun j => (Some (Z.of_nat j), f j)) (seq s m) ++ [(Some (Z.of_nat k), [x])])%list.
Proof.
  induction m as [|m IH]; intros s Hk; [reflexivity|].
  simpl. destruct (Z.eqb_spec (Z.of_nat k) (Z.of_nat s)); [lia|].
  f_equal. apply IH. lia.
Qed.

Lemma groupBy_index_snoc (l : list Z) (x cols : Z) :
  groupBy_index (l ++ [x])%list cols
  = group_add (group_key (Z.of_nat (List.length l)) cols) x (groupBy_index l cols).
Proof.
  unfold groupBy_index. now rewrite indexed_snoc, fold_left_app.
Qed.

Lemma groupBy_index_spec (l : list Z) (cols : Z) :
  1 <= cols ->
  groupBy_index l cols = groups_spec l cols 0 (Nat.min (Z.to_nat cols) (List.length l)).
Proof.
  intros Hc. induction l as [|x l IH] using rev_ind.
  - now rewrite Nat.min_0_r.
  - rewrite groupBy_index_snoc, IH, length_app. simpl.
    unfold group_key. destruct (Z.eqb_spec cols 0) as [|_]; [lia|].
    rewrite Z.rem_mod_nonneg by lia.
    set (n := List.length l).
    destruct (Nat.lt_ge_cases n (Z.to_nat cols)) as [Hn|Hn].
    + rewrite Z.mod_small by lia.
      rewrite (Nat.min_r _ n), (Nat.min_r _ (n + 1)) by lia.
      unfold groups_spec. rewrite group_add_absent by lia.
      rewrite Nat.add_1_r, seq_S, map_app. simpl. f_equal.
      * apply map_ext_in. intros j Hj. apply in_seq in Hj.
        rewrite column_items_snoc. fold n. rewrite Z.mod_small by lia.
        destruct (Z.eqb_spec (Z.of_nat n) (Z.of_nat j)); [lia|].
        now rewrite app_nil_r.
      * rewrite column_items_snoc. fold n. rewrite Z.mod_small by lia.
        rewrite Z.eqb_refl, column_items_beyond by (unfold n; lia).
        reflexivity.
    + rewrite (Nat.min_l _ n), (Nat.min_l _ (n + 1)) by lia.
      assert (Hm : 0 <= Z.of_nat n mod cols < cols) by (apply Z.mod_pos_bound; lia).
      replace (Z.of_nat n mod cols) with (Z.of_nat (Z.to_nat (Z.of_nat n mod cols))) by lia.
      unfold groups_spec. apply group_add_present; [lia|].
      intros j. rewrite column_items_snoc. fold n.
      destruct (Nat.eqb_spec j (Z.to_nat (Z.of_nat n mod cols))) as [E|E].
      * subst j. rewrite Z2Nat.id by lia. now rewrite Z.eqb_refl.
      * destruct (Z.eqb_spec (Z.of_nat n mod cols) (Z.of_nat j)); [lia|].
        now rewrite app_nil_r.
Qed.

(** [getColumnWidths] computes the column widths the specification
    describes. *)
Lemma getColumnWidths_spec (l : list Z) (cols : Z) :
  1 <= cols <= Z.of_nat (List.length l) ->
  getColumnWidths l cols = column_widths_spec l cols.
Proof.
  intros Hc. unfold getColumnWidths, column_widths_spec.
  rewrite groupBy_index_spec by lia.
  rewrite Nat.min_l by lia. unfold groups_spec. now rewrite map_map.
Qed.

Lemma ceil_sqrt_bounds (n : Z) : 1 <= n -> 1 <= ceil_sqrt n <= n.
Proof.
  intros Hn. unfold ceil_sqrt.
  pose proof (Z.sqrt_spec n ltac:(lia)) as [H1 H2].
  assert (1 <= Z.sqrt n).
  { destruct (Z.le_gt_cases 1 (Z.sqrt n)); [assumption|].
    assert (Z.sqrt n = 0) by (pose proof (Z.sqrt_nonneg n); lia). rewrite H0 in H2. simpl in H2. lia. }
  destruct (Z.eqb_spec (Z.sqrt n * Z.sqrt n) n); nia.
Qed.

Lemma probe_fits_spec (lengths : list Z) (budget cols : Z) :
  1 <= cols <= Z.of_nat (List.length lengths) ->
  probe_fits lengths budget cols = fits lengths budget cols.
Proof.
  intros Hc. unfold probe_fits, probe_width, fits, row_width.
  rewrite getColumnWidths_spec by assumption.
  f_equal. lia.
Qed.

(** What the binary search returns, whatever the widths are: a count that
    fits while the next one does not, or 1 when its probes never fit. *)
Lemma findMaxItemsWide_result (items : list string) (budget : Z) :
  let lengths := map len items in
  let H := ceil_sqrt (Z.of_nat (List.length items)) in
  items <> [] ->
  exists best,
    findMaxItemsWide items lengths budget = Ok (best, column_widths_spec lengths best) /\
    1 <= best <= H /\
    (fits lengths budget best = true /\ (best = H \/ fits lengths budget (best + 1) = false)
     \/ best = 1 /\ fits lengths budget 1 = false).
Proof.
  intros lengths H Hne.
  assert (Hn : 1 <= Z.of_nat (List.length items)).
  { destruct items; [contradiction | simpl; lia]. }
  pose proof (ceil_sqrt_bounds _ Hn) as HH. fold H in HH.
  assert (Hlen : List.length lengths = List.length items) by apply length_map.
  destruct (findMaxItemsWide_loop_spec lengths budget H (S (Z.to_nat H)) 1 H 1 None)
    as (best & bw & Hrun & Hpost);
    [lia | lia | lia | lia | left; repeat split | left; reflexivity |].
  unfold findMaxItemsWide. fold H. rewrite Hrun. cbn [bind].
  exists best.
  destruct Hpost as [(-> & -> & Hno)|(-> & Hb & Hfit & Hnext)].
  - split; [| split; [lia|]].
    + rewrite getColumnWidths_spec by lia. reflexivity.
    + right. split; [reflexivity|].
      destruct Hno as [Hno|Hno]; [lia|].
      rewrite <- probe_fits_spec by lia. exact Hno.
  - split; [| split; [lia|]].
    + rewrite getColumnWidths_spec by lia. reflexivity.
    + left. split.
      * rewrite <- probe_fits_spec by lia. exact Hfit.
      * destruct Hnext as [Hnext|Hnext]; [now left|].
        destruct (Z.eq_dec best H) as [E|E]; [now left|].
        right. rewrite <- probe_fits_spec by lia. exact Hnext.
Qed.

(** C4, as the code has it: [findMaxItemsWide] searches [1, ceil(sqrt n)]
    by bisection, and the count it returns is the largest one in that
    range whose row width (per column the longest item, summed, plus
    [2 * (c - 1)]) fits [maxLineLength], provided one column fits and
    fitting is downward closed on the range: a count below a fitting one
    fits too. *)
Theorem findMaxItemsWide_largest_fitting (items : list string) (budget : Z) :
  let lengths := map len items in
  let H := ceil_sqrt (Z.of_nat (List.length items)) in
  items <> [] ->
  fits lengths budget 1 = true ->
  (forall cols, 1 <= cols < H ->
     fits lengths budget (cols + 1) = true -> fits lengths budget cols = true) ->
  exists best,
    findMaxItemsWide items lengths budget = Ok (best, column_widths_spec lengths best) /\
    1 <= best <= H /\
    fits lengths budget best = true /\
    forall cols, best < cols <= H -> fits lengths budget cols = false.
Proof.
  intros lengths H Hne Hone Hdown.
  destruct (findMaxItemsWide_result items budget Hne) as (best & Hrun & Hb & Hcase).
  fold lengths in Hrun, Hcase. fold H in Hb, Hcase.
  exists best. split; [exact Hrun | split; [exact Hb|]].
  destruct Hcase as [(Hfit & Hnext)|(_ & Hno)]; [| congruence].
  split; [exact Hfit|].
  intros cols Hc.
  destruct Hnext as [->|Hnext]; [lia|].
  destruct (fits lengths budget cols) eqn:Hcols; [| reflexivity].
  exfalso.
  assert (Hall : forall k : nat, best + 1 <= cols - Z.of_nat k ->
                                 fits lengths budget (cols - Z.of_nat k) = true).
  { induction k as [|k IHk]; intros Hk.
    - now replace (cols - Z.of_nat 0) with cols by lia.
    - apply Hdown; [lia|].
      replace (cols - Z.of_nat (S k) + 1) with (cols - Z.of_nat k) by lia.
      apply IHk. lia. }
  specialize (Hall (Z.to_nat (cols - best - 1))).
  replace (cols - Z.of_nat (Z.to_nat (cols - best - 1))) with (best + 1) in Hall by lia.
  rewrite Hall in Hnext by lia. discriminate.
Qed.

Lemma findMaxItemsWide_largest_fitting_witness :
  let items := ["1"; "2"; "3"; "4"; "5"; "6"; "7"] in
  items <> [] /\
  exists best,
    findMaxItemsWide items (map len items) 100
    = Ok (best, column_widths_spec (map len items) best) /\
    1 <= best <= ceil_sqrt (Z.of_nat (List.length items)) /\
    fits (map len items) 100 best = true /\
    forall cols, best < cols <= ceil_sqrt (Z.of_nat (List.length items)) ->
                 fits (map len items) 100 cols = false.
Proof.
  split; [discriminate|].
  apply (findMaxItemsWide_largest_fitting ["1"; "2"; "3"; "4"; "5"; "6"; "7"] 100).
  - discriminate.
  - reflexivity.
  - intros cols Hc _.
    change (ceil_sqrt (Z.of_nat (List.length ["1"; "2"; "3"; "4"; "5"; "6"; "7"]))) with 3 in Hc.
    assert (E : cols = 1 \/ cols = 2) by lia.
    destruct E as [->| ->]; reflexivity.
Defined.

(** C4, as stated, fails: on 36 numbers whose texts are 1 and 4 characters
    long in turn, with [maxLineLength] at 25, six columns fit (width 25)
    but the search probes 3, 5 and 4 and returns 4, since five columns
    (width 28) do not fit.  The packer is applied to them: the lengths
    differ by 3, less than 4.  And when no column count fits, as for
    seven items of 30 characters, the search returns 1 all the same. *)
Lemma binary_search_misses_wider_fit :
  (findMaxItemsWide alternating (map len alternating) 25 = Ok (4, [1; 4; 1; 4]) /\
   ceil_sqrt (Z.of_nat (List.length alternating)) = 6 /\
   fits (map len alternating) 25 4 = true /\
   fits (map len alternating) 25 5 = false /\
   fits (map len alternating) 25 6 = true /\
   stringify 2 (nums alternating_numbers) (with_maxLineLength 25)
   = Ok (Some (js "[$  1, 1000, 1, 1000,$  1, 1000, 1, 1000,$  1, 1000, 1, 1000,$  1, 1000, 1, 1000,$  1, 1000, 1, 1000,$  1, 1000, 1, 1000,$  1, 1000, 1, 1000,$  1, 1000, 1, 1000,$  1, 1000, 1, 1000$]"))) /\
  (findMaxItemsWide long_items (map len long_items) 25 = Ok (1, [30]) /\
   fits (map len long_items) 25 1 = false).
Proof. repeat split. Qed.

(** ** The line budget (lines 460-515 and 549-555) *)

Lemma length_app_string (a b : string) :
  String.length (a ++ b) = (String.length a + String.length b)%nat.
Proof.
  induction a as [|ch a IH]; simpl; [reflexivity | now rewrite IH].
Qed.

Lemma len_app (a b : string) : len (a ++ b) = len a + len b.
Proof. unfold len. rewrite length_app_string. lia. Qed.

Lemma len_nonneg (s : string) : 0 <= len s.
Proof. unfold len; lia. Qed.

Lemma append_empty_r (s : string) : s ++ EmptyString = s.
Proof. induction s as [|ch s IH]; simpl; [reflexivity | now rewrite IH]. Qed.

Lemma fold_add_shift (l : list Z) (a : Z) : fold_left Z.add l a = a + fold_left Z.add l 0.
Proof.
  revert a; induction l as [|x l IH]; intros a; simpl; [lia|].
  rewrite (IH (a + x)), (IH x). lia.
Qed.

Lemma sum_cons (x : Z) (l : list Z) : sum (x :: l) = x + sum l.
Proof. unfold sum. simpl. apply fold_add_shift. Qed.

Lemma sum_nonneg (l : list Z) : Forall (fun x => 0 <= x) l -> 0 <= sum l.
Proof.
  induction 1 as [|x l Hx _ IH]; [reflexivity | rewrite sum_cons; lia].
Qed.

Lemma sum_firstn_le (l : list Z) (k : nat) :
  Forall (fun x => 0 <= x) l -> sum (firstn k l) <= sum l.
Proof.
  intros Hl; revert k; induction Hl as [|x l Hx Hl IH]; intros k.
  - now rewrite firstn_nil.
  - destruct k as [|k]; simpl firstn.
    + pose proof (sum_nonneg (x :: l) (Forall_cons _ Hx Hl)). unfold sum at 1; simpl. lia.
    + rewrite !sum_cons. specialize (IH k). lia.
Qed.

Lemma fold_max_start (l : list Z) (a : Z) : a <= fold_left Z.max l a.
Proof.
  revert a; induction l as [|y l IH]; intros a; simpl; [lia|].
  specialize (IH (Z.max a y)). lia.
Qed.

Lemma fold_max_ge (l : list Z) (a x : Z) : In x l -> x <= fold_left Z.max l a.
Proof.
  revert a; induction l as [|y l IH]; intros a Hx; [contradiction|].
  simpl. destruct Hx as [->|Hx].
  - pose proof (fold_max_start l (Z.max a x)). lia.
  - now apply IH.
Qed.

Lemma max_of_ge (l : list Z) (x : Z) : In x l -> x <= max_of l.
Proof.
  destruct l as [|y l]; [contradiction|].
  intros [->|Hx]; simpl; [apply fold_max_start | now apply fold_max_ge].
Qed.

Lemma max_of_nonneg (l : list Z) : Forall (fun x => 0 <= x) l -> 0 <= max_of l.
Proof.
  destruct 1 as [|x l Hx _]; [reflexivity|].
  apply Z.le_trans with x; [assumption | apply max_of_ge; now left].
Qed.

Lemma in_combine_seq {A : Type} (l : list A) (d : A) (s p : nat) :
  (p < List.length l)%nat -> In ((s + p)%nat, nth p l d) (combine (seq s (List.length l)) l).
Proof.
  revert s p; induction l as [|a l IH]; intros s p Hp; simpl in Hp; [lia|].
  destruct p as [|p]; simpl.
  - left. now rewrite Nat.add_0_r.
  - right. rewrite <- Nat.add_succ_comm. apply IH. lia.
Qed.

Lemma in_column_items (lengths : list Z) (cols : Z) (p j : nat) :
  (p < List.length lengths)%nat ->
  Z.of_nat p mod cols = Z.of_nat j ->
  In (nth p lengths 0) (column_items lengths cols j).
Proof.
  intros Hp Hj. unfold column_items.
  apply (in_map snd _ (p, nth p lengths 0)).
  apply filter_In. split.
  - apply (in_combine_seq lengths 0 0 p Hp).
  - now apply Z.eqb_eq.
Qed.

Lemma column_items_incl (lengths : list Z) (cols : Z) (j : nat) (x : Z) :
  In x (column_items lengths cols j) -> In x lengths.
Proof.
  unfold column_items, indexed. intros H.
  apply in_map_iff in H. destruct H as ([i y] & E & H). simpl in E; subst y.
  apply filter_In in H. destruct H as [H _].
  now apply in_combine_r in H.
Qed.

Lemma column_widths_spec_nonneg (items : list string) (cols : Z) :
  Forall (fun x => 0 <= x) (column_widths_spec (map len items) cols).
Proof.
  unfold column_widths_spec. apply Forall_map, Forall_forall. intros j _.
  apply max_of_nonneg, Forall_forall. intros x Hx.
  apply column_items_incl, in_map_iff in Hx. destruct Hx as (s & <- & _).
  apply len_nonneg.
Qed.

Lemma joinColumns_from_bound :
  forall (rest : list string) (prev : string) (ws : list Z),
    (List.length rest < List.length ws)%nat ->
    len prev <= nth 0 ws 0 ->
    (forall m, (m < List.length rest)%nat ->
               len (nth m rest EmptyString) <= nth (S m) ws 0) ->
    exists tail,
      joinColumns_from prev rest ws = Ok tail /\
      len prev + len tail
      <= sum (firstn (S (List.length rest)) ws) + 2 * Z.of_nat (List.length rest).
Proof.
  induction rest as [|item rest IH]; intros prev ws Hlen Hprev Hrest;
    destruct ws as [|w ws]; simpl in Hlen; try lia.
  - exists EmptyString. split; [reflexivity|].
    simpl in Hprev. cbn [firstn List.length]. rewrite sum_cons.
    change (sum []) with 0. change (len EmptyString) with 0. lia.
  - simpl in Hprev.
    destruct (IH item ws) as (tail & Htail & Hbound).
    + lia.
    + apply (Hrest O). simpl; lia.
    + intros m Hm. apply (Hrest (S m)). simpl; lia.
    + cbn [joinColumns_from str_repeat_nan List.tl]. unfold str_repeat.
      destruct (Z.ltb_spec (w - len prev + 1) 0); [lia|].
      cbn [bind]. rewrite Htail. cbn [bind].
      eexists; split; [reflexivity|].
      rewrite !len_app.
      change (len ",") with 1.
      unfold len at 2. rewrite length_repeat_space.
      change (firstn (S (List.length (item :: rest))) (w :: ws))
        with (w :: firstn (S (List.length rest)) ws).
      rewrite sum_cons. cbn [List.length]. lia.
Qed.

Lemma joinColumns_bound (row : list string) (ws : list Z) (text : string) :
  (List.length row <= List.length ws)%nat ->
  Forall (fun x => 0 <= x) ws ->
  (forall m, (m < List.length row)%nat -> len (nth m row EmptyString) <= nth m ws 0) ->
  joinColumns row ws = Ok text ->
  len text <= sum ws + 2 * (Z.of_nat (List.length ws) - 1) \/ row = [].
Proof.
  intros Hlen Hws Hrow Hrun.
  destruct row as [|first rest]; [now right | left].
  simpl in Hlen.
  destruct (joinColumns_from_bound rest first ws) as (tail & Htail & Hbound).
  - lia.
  - apply (Hrow O). simpl; lia.
  - intros m Hm. apply (Hrow (S m)). simpl; lia.
  - unfold joinColumns in Hrun. rewrite Htail in Hrun. cbn [bind] in Hrun.
    inversion Hrun; subst text. rewrite len_app.
    pose proof (sum_firstn_le ws (S (List.length rest)) Hws). lia.
Qed.

Lemma mapM_In {A B : Type} (f : A -> outcome B) (l : list A) (rs : list B) :
  mapM f l = Ok rs -> forall b, In b rs -> exists a, In a l /\ f a = Ok b.
Proof.
  revert rs; induction l as [|a l IH]; intros rs Hrun b Hb; simpl in Hrun.
  - inversion Hrun; subst rs. contradiction.
  - destruct (f a) as [b0| |] eqn:Ha; cbn [bind] in Hrun; try discriminate.
    destruct (mapM f l) as [bs| |]; cbn [bind] in Hrun; try discriminate.
    inversion Hrun; subst rs. destruct Hb as [<-|Hb].
    + exists a. split; [now left | assumption].
    + destruct (IH bs eq_refl b Hb) as (a' & Ha' & Hfa').
      exists a'. split; [now right | assumption].
Qed.

Lemma length_column_widths_spec (lengths : list Z) (cols : Z) :
  List.length (column_widths_spec lengths cols) = Z.to_nat cols.
Proof. unfold column_widths_spec. now rewrite length_map, length_seq. Qed.

Lemma nth_column_widths_spec (lengths : list Z) (cols : Z) (m : nat) :
  (m < Z.to_nat cols)%nat ->
  nth m (column_widths_spec lengths cols) 0 = max_of (column_items lengths cols m).
Proof.
  intros Hm. unfold column_widths_spec.
  rewrite (nth_indep _ 0 (max_of (column_items lengths cols 0)))
    by now rewrite length_map, length_seq.
  rewrite (map_nth (fun j => max_of (column_items lengths cols j))).
  now rewrite seq_nth.
Qed.

(** An item is never longer than the width of its column. *)
Lemma item_within_column (items : list string) (cols : Z) (i m : nat) :
  1 <= cols ->
  (m < Z.to_nat cols)%nat ->
  (i * Z.to_nat cols + m < List.length items)%nat ->
  len (nth (i * Z.to_nat cols + m) items EmptyString)
  <= nth m (column_widths_spec (map len items) cols) 0.
Proof.
  intros Hc Hm Hp.
  rewrite nth_column_widths_spec by assumption.
  apply max_of_ge.
  change (len (nth (i * Z.to_nat cols + m) items EmptyString))
    with ((fun s => len s) (nth (i * Z.to_nat cols + m) items EmptyString)).
  rewrite <- (map_nth (fun s => len s) items EmptyString).
  change (len EmptyString) with 0.
  apply in_column_items.
  - now rewrite length_map.
  - rewrite Nat2Z.inj_add, Nat2Z.inj_mul, Z2Nat.id by lia.
    rewrite Z.add_comm, Z.mod_add by lia.
    apply Z.mod_small. lia.
Qed.

Lemma grid_row_within (items : list string) (budget cols : Z) (i : nat) (text : string) :
  1 <= cols ->
  fits (map len items) budget cols = true ->
  joinColumns (firstn (Z.to_nat cols) (skipn (i * Z.to_nat cols) items))
              (column_widths_spec (map len items) cols) = Ok text ->
  len text <= budget.
Proof.
  intros Hc Hfit Hrun.
  unfold fits, row_width in Hfit. apply Z.leb_le in Hfit.
  pose proof (sum_nonneg _ (column_widths_spec_nonneg items cols)) as Hsum.
  set (row := firstn (Z.to_nat cols) (skipn (i * Z.to_nat cols) items)) in *.
  assert (Hlen : List.length row
                 = Nat.min (Z.to_nat cols) (List.length items - i * Z.to_nat cols)).
  { unfold row. now rewrite length_firstn, length_skipn. }
  destruct (joinColumns_bound row (column_widths_spec (map len items) cols) text)
    as [Hb|Hempty].
  - rewrite length_column_widths_spec. lia.
  - apply column_widths_spec_nonneg.
  - intros m Hm. unfold row. rewrite nth_firstn.
    destruct (Nat.ltb_spec m (Z.to_nat cols)); [| lia].
    rewrite nth_skipn. apply item_within_column; lia.
  - exact Hrun.
  - rewrite length_column_widths_spec in Hb. lia.
  - rewrite Hempty in Hrun. inversion Hrun; subst text.
    change (len EmptyString) with 0. lia.
Qed.

Lemma firstn_1_skipn {A : Type} (l : list A) (i : nat) (d : A) :
  (i < List.length l)%nat -> firstn 1 (skipn i l) = [nth i l d].
Proof.
  revert i; induction l as [|a l IH]; intros i Hi; simpl in Hi; [lia|].
  destruct i as [|i]; [reflexivity|]. simpl. apply IH. lia.
Qed.

Lemma single_column_rows (items : list string) (ws : list Z) (rows : list string) :
  mapM (fun row => joinColumns row ws) (grid_rows items 1) = Ok rows ->
  Forall (fun r => In r items) rows.
Proof.
  intros Hrun. apply Forall_forall. intros r Hr.
  destruct (mapM_In _ _ _ Hrun r Hr) as (row & Hrow & Hjoin).
  unfold grid_rows in Hrow. apply in_map_iff in Hrow.
  destruct Hrow as (i & <- & Hi). apply in_seq in Hi.
  replace ((Z.of_nat (List.length items) + 1 - 1) / 1) with (Z.of_nat (List.length items))
    in Hi by (rewrite Z.div_1_r; lia).
  change (Z.to_nat 1) with 1%nat in Hjoin. rewrite Nat.mul_1_r in Hjoin.
  rewrite (firstn_1_skipn items i EmptyString) in Hjoin by lia.
  simpl in Hjoin. inversion Hjoin; subst r.
  rewrite append_empty_r. apply nth_In. lia.
Qed.

(** The rows of the packed grid: each one fits the budget, unless the
    grid has a single column, whose rows are the items themselves. *)
Lemma packed_rows_within (items : list string) (budget itemsWide : Z)
    (columnWidths : list Z) (rows : list string) :
  items <> [] ->
  findMaxItemsWide items (map len items) budget = Ok (itemsWide, columnWidths) ->
  mapM (fun row => joinColumns row columnWidths) (grid_rows items itemsWide) = Ok rows ->
  Forall (fun r => len r <= budget \/ In r items) rows.
Proof.
  intros Hne Hfind Hrows.
  destruct (findMaxItemsWide_result items budget Hne) as (best & Hrun & Hb & Hcase).
  rewrite Hrun in Hfind. inversion Hfind; subst itemsWide columnWidths. clear Hfind.
  destruct Hcase as [(Hfit & _)|(-> & _)].
  - apply Forall_forall. intros r Hr. left.
    destruct (mapM_In _ _ _ Hrows r Hr) as (row & Hrow & Hjoin).
    unfold grid_rows in Hrow. apply in_map_iff in Hrow.
    destruct Hrow as (i & <- & _).
    apply (grid_row_within items budget best i r); [lia | assumption | assumption].
  - eapply Forall_impl; [| apply (single_column_rows items _ rows Hrows)].
    intros r Hr. now right.
Qed.

Lemma formatArray_layout (c : closure) (items : list string) (depth : nat)
    (nestedItems : bool) (keyLength : Z) (allowInline : bool) (text : string) :
  formatArray c items depth nestedItems keyLength allowInline = Ok text ->
  items = [] /\ text = "[]"
  \/ includes_newline text = false /\ keyLength + len text <= c_maxLineLength c
  \/ exists rows,
       text = one_per_line c "[" "]" rows depth /\
       Forall (fun r => len r <= c_maxLineLength c \/ In r items) rows.
Proof.
  intros Hrun. unfold formatArray in Hrun.
  destruct items as [|item items]; [left; now inversion Hrun | right].
  match type of Hrun with (if ?b then _ else _) = _ => destruct b eqn:Hinline end.
  - left. inversion Hrun; subst text.
    repeat (apply andb_true_iff in Hinline; destruct Hinline as [Hinline ?]).
    split; [now apply negb_true_iff | now apply Z.leb_le].
  - right.
    match type of Hrun with (if ?b then _ else _) = _ => destruct b end.
    + destruct (findMaxItemsWide _ _ _) as [[itemsWide columnWidths]| |] eqn:Hfind;
        cbn [bind] in Hrun; try discriminate.
      destruct (mapM _ _) as [rows| |] eqn:Hrows; cbn [bind] in Hrun; try discriminate.
      inversion Hrun; subst text. exists rows. split; [reflexivity|].
      apply (packed_rows_within (item :: items) (c_maxLineLength c) itemsWide columnWidths);
        [discriminate | assumption | assumption].
    + inversion Hrun; subst text. exists (item :: items). split; [reflexivity|].
      apply Forall_forall. intros r Hr. now right.
Qed.

Lemma formatObject_layout (c : closure) (items : list string) (depth : nat)
    (nestedItems : bool) (keyLength : Z) (allowInline : bool) (text : string) :
  formatObject c items depth nestedItems keyLength allowInline = Ok text ->
  items = [] /\ text = "{}"
  \/ includes_newline text = false /\ keyLength + len text <= c_maxLineLength c
  \/ text = one_per_line c "{" "}" items depth.
Proof.
  intros Hrun. unfold formatObject in Hrun.
  destruct items as [|item items]; [left; now inversion Hrun | right].
  match type of Hrun with (if ?b then _ else _) = _ => destruct b eqn:Hinline end.
  - left. inversion Hrun; subst text.
    repeat (apply andb_true_iff in Hinline; destruct Hinline as [Hinline ?]).
    split; [now apply negb_true_iff | now apply Z.leb_le].
  - right. now inversion Hrun.
Qed.

(** C3 fails on the code: the comma that separates a row of a block from
    the next one is never counted.  The checks of lines 214, 263, 475
    and 509 compare the row as it stands with [maxLineLength], and lines
    496 and 514 then join the rows with [',\n']: a row that fits exactly
    gives a line that is one character over the budget, though every
    scalar fits.  So it is for the items of an array that is laid out
    one per line (two numbers of four digits with the budget at 4), for
    the rows of a table of arrays (budget 8, line 214), for a property
    put on one line with its key (budget 13, line 475), and for the rows
    of a table of objects (budget 15, line 263). *)
Theorem separating_comma_not_counted (fuel : nat) :
  let flat := nums [1111; 2222] in
  let rows := VArray [nums [1; 2]; nums [3; 4]] in
  let keyed := VObject [("a", nums [1; 2]); ("b", num 3)] in
  let table := VObject [("a", VObject [("x", num 1)]); ("b", VObject [("x", num 2)])] in
  (leaves_within 4 flat = true /\
   stringify (2 + fuel) flat (with_maxLineLength 4)
   = Ok (Some (js "[$  1111,$  2222$]")) /\
   lines (js "[$  1111,$  2222$]") = ["["; "  1111,"; "  2222"; "]"] /\
   lines_within 4 (js "[$  1111,$  2222$]") = false) /\
  (leaves_within 8 rows = true /\
   stringify (3 + fuel) rows (with_maxLineLength 8)
   = Ok (Some (js "[$  [ 1, 2 ],$  [ 3, 4 ]$]")) /\
   lines (js "[$  [ 1, 2 ],$  [ 3, 4 ]$]") = ["["; "  [ 1, 2 ],"; "  [ 3, 4 ]"; "]"] /\
   lines_within 8 (js "[$  [ 1, 2 ],$  [ 3, 4 ]$]") = false) /\
  (leaves_within 13 keyed = true /\
   stringify (3 + fuel) keyed (with_maxLineLength 13)
   = Ok (Some (js "{$  'a': [ 1, 2 ],$  'b': 3$}")) /\
   lines_within 13 (js "{$  'a': [ 1, 2 ],$  'b': 3$}") = false) /\
  (leaves_within 15 table = true /\
   stringify (3 + fuel) table (with_maxLineLength 15)
   = Ok (Some (js "{$  'a': { 'x': 1 },$  'b': { 'x': 2 }$}")) /\
   lines_within 15 (js "{$  'a': { 'x': 1 },$  'b': { 'x': 2 }$}") = false).
Proof. repeat split. Qed.

(** ** The fallback chain outside the table paths *)

Lemma mapM_total {A B : Type} (f : A -> outcome B) (l : list A) :
  (forall a, In a l -> exists b, f a = Ok b) -> exists bs, mapM f l = Ok bs.
Proof.
  induction l as [|a l IH]; intros H; simpl.
  - now exists [].
  - destruct (H a (or_introl eq_refl)) as (b & ->).
    destruct IH as (bs & ->); [intros a' Ha'; apply H; now right|].
    now exists (b :: bs).
Qed.

Lemma joinColumns_total (row : list string) (ws : list Z) :
  (List.length row <= List.length ws)%nat ->
  (forall m, (m < List.length row)%nat -> len (nth m row EmptyString) <= nth m ws 0) ->
  exists text, joinColumns row ws = Ok text.
Proof.
  intros Hlen Hrow. destruct row as [|first rest]; [now exists EmptyString|].
  simpl in Hlen.
  destruct (joinColumns_from_bound rest first ws) as (tail & Htail & _).
  - lia.
  - apply (Hrow O). simpl; lia.
  - intros m Hm. apply (Hrow (S m)). simpl; lia.
  - unfold joinColumns. rewrite Htail. cbn [bind]. now eexists.
Qed.

(** [formatArray] and [formatObject] never throw: a container that does
    not fit on one line and is not packed is laid out one item per
    line. *)
Lemma formatArray_total (c : closure) (items : list string) (depth : nat)
    (nestedItems : bool) (keyLength : Z) (allowInline : bool) :
  exists text, formatArray c items depth nestedItems keyLength allowInline = Ok text.
Proof.
  unfold formatArray. destruct items as [|item items]; [now eexists|].
  match goal with |- context [if ?b then Ok _ else _] => destruct b end; [now eexists|].
  match goal with |- context [if ?b then _ else Ok _] => destruct b end; [| now eexists].
  destruct (findMaxItemsWide_result (item :: items) (c_maxLineLength c))
    as (best & Hrun & Hb & _); [discriminate|].
  rewrite Hrun. cbn [bind].
  destruct (mapM_total (fun row => joinColumns row
                                     (column_widths_spec (map len (item :: items)) best))
                       (grid_rows (item :: items) best)) as (rows & ->).
  - intros row Hrow. unfold grid_rows in Hrow. apply in_map_iff in Hrow.
    destruct Hrow as (i & <- & _).
    apply joinColumns_total.
    + rewrite length_column_widths_spec, length_firstn. lia.
    + intros m Hm. rewrite length_firstn, length_skipn in Hm.
      rewrite nth_firstn.
      destruct (Nat.ltb_spec m (Z.to_nat best)); [| lia].
      rewrite nth_skipn. apply item_within_column; lia.
  - cbn [bind]. now eexists.
Qed.

Lemma formatObject_total (c : closure) (items : list string) (depth : nat)
    (nestedItems : bool) (keyLength : Z) (allowInline : bool) :
  exists text, formatObject c items depth nestedItems keyLength allowInline = Ok text.
Proof.
  unfold formatObject. destruct items as [|item items]; [now eexists|].
  match goal with |- context [if ?b then Ok _ else _] => destruct b end; now eexists.
Qed.

Lemma list_max_In (l : list nat) (n : nat) : In n l -> (n <= list_max l)%nat.
Proof.
  intros H. pose proof (proj1 (list_max_le l (list_max l)) (Nat.le_refl _)) as HF.
  rewrite Forall_forall in HF. now apply HF.
Qed.

Lemma assoc_In (k : string) (props : list (string * value)) (v : value) :
  assoc k props = Some v -> In (k, v) props.
Proof.
  induction props as [|[k' v'] props IH]; simpl; [discriminate|].
  destruct (String.eqb_spec k k') as [->|_].
  - intros H; inversion H; now left.
  - intros H; right; now apply IH.
Qed.

Lemma assoc_key (k : string) (props : list (string * value)) :
  In k (map fst props) -> exists v, assoc k props = Some v.
Proof.
  induction props as [|[k' v'] props IH]; simpl; [contradiction|].
  destruct (String.eqb_spec k k') as [->|Hne]; [now eexists|].
  intros [H|H]; [congruence | now apply IH].
Qed.

Lemma plain_member (props : list (string * value)) (k : string) :
  plain (VObject props) = true ->
  In k (map fst props) ->
  plain (get (VObject props) k) = true /\
  (height (get (VObject props) k) < height (VObject props))%nat.
Proof.
  intros Hp Hk. destruct (assoc_key k props Hk) as (v & Hv).
  cbn [get]. rewrite Hv. apply assoc_In in Hv.
  cbn [plain] in Hp. rewrite forallb_forall in Hp.
  split; [apply (Hp (k, v) Hv)|].
  cbn [height]. apply Nat.lt_succ_r, list_max_In.
  apply (in_map (fun p => height (snd p)) props (k, v) Hv).
Qed.

Lemma plain_no_toJSON (props : list (string * value)) :
  plain (VObject props) = true -> toJSON_of (VObject props) = None.
Proof.
  intros Hp. cbn [toJSON_of].
  destruct (assoc "toJSON" props) as [v|] eqn:Hv; [| reflexivity].
  apply assoc_In in Hv. cbn [plain] in Hp. rewrite forallb_forall in Hp.
  specialize (Hp _ Hv). destruct v; try reflexivity. discriminate.
Qed.

Lemma in_indexed {A : Type} (l : list A) (i : nat) (a : A) :
  In (i, a) (indexed l) -> In a l.
Proof. unfold indexed. apply in_combine_r. Qed.

(** With the tables switched off and no replacer, [processValue] returns a
    rendering of every tree of null, booleans, numbers, strings, arrays
    and objects, as soon as the fuel exceeds its depth. *)
Lemma processValue_total (c : closure) :
  c_replaceFunc c = None -> c_tableArrays c = false -> c_tableObjects c = false ->
  forall (fuel : nat) (v : value) (key : string) (depth : nat) (parentObj : value)
         (keyLength : Z) (allowTables : bool),
    plain v = true -> (height v < fuel)%nat ->
    exists p, processValue c fuel key v depth parentObj keyLength allowTables
              = Ok (Some p).
Proof.
  intros Hr Ha Ho. induction fuel as [|fuel IH];
    intros v key depth parentObj keyLength allowTables Hp Hh; [lia|].
  cbn [processValue]. unfold apply_replace. rewrite Hr.
  destruct v as [| |b|n|z|s|a r|items|props]; try discriminate.
  - now eexists.
  - now eexists.
  - cbn [JSON_stringify_scalar bind]. now eexists.
  - cbn [JSON_stringify_scalar bind]. now eexists.
  - rewrite Ha. cbn [andb bind].
    destruct (mapM_total
                (fun '(i, item) =>
                   p <- processValue c fuel (nat_to_string i) item (depth + 1)
                          (VArray items) 0 true ;;
                   match p with
                   | Some p => Ok (result p)
                   | None => no_result
                   end) (indexed items)) as (rendered & ->).
    + intros [i item] Hin. apply in_indexed in Hin.
      cbn [plain] in Hp. rewrite forallb_forall in Hp.
      destruct (IH item (nat_to_string i) (depth + 1)%nat (VArray items) 0 true) as (p & ->).
      * now apply Hp.
      * cbn [height] in Hh. pose proof (list_max_In _ _ (in_map height _ _ Hin)). lia.
      * cbn [bind]. now eexists.
    + cbn [bind]. destruct (array_flags items) as [nested multiple].
      destruct (formatArray_total c rendered depth multiple keyLength
                  (inline_allowed c parentObj key (VArray items))) as (text & ->).
      cbn [bind]. now eexists.
  - rewrite (plain_no_toJSON props Hp). rewrite Ho. cbn [andb bind].
    set (keys := filter (fun k => representable (get (VObject props) k)) (map fst props)).
    destruct (mapM_total
                (fun k =>
                   p <- processValue c fuel k (get (VObject props) k) (depth + 1)
                          (VObject props) (len (QuoteJSONString k ++ ": ")) true ;;
                   match p with
                   | Some p => Ok ((QuoteJSONString k ++ ": ") ++ result p, nested p)
                   | None => no_result
                   end) keys) as (rendered & ->).
    + intros k Hk. apply filter_In in Hk. destruct Hk as [Hk _].
      destruct (plain_member props k Hp Hk) as [Hpk Hhk].
      destruct (IH (get (VObject props) k) k (depth + 1)%nat (VObject props)
                   (len (QuoteJSONString k ++ ": ")) true) as (p & Hrun).
      * exact Hpk.
      * lia.
      * rewrite Hrun. cbn [bind]. now eexists.
    + cbn [bind].
      destruct (formatObject_total c (map fst rendered) depth (existsb snd rendered)
                  keyLength (inline_allowed c parentObj key (VObject props))) as (text & ->).
      cbn [bind]. now eexists.
Qed.

Lemma plain_toJSON_none (v : value) : plain v = true -> toJSON_of v = None.
Proof.
  destruct v; try reflexivity. apply plain_no_toJSON.
Qed.

(** The built-in is total on those trees as well. *)
Lemma SerializeJSONProperty_total :
  forall (fuel : nat) (v holder : value) (key : string),
    plain v = true -> (height v < fuel)%nat ->
    exists text, SerializeJSONProperty fuel None None holder key v = Ok (Some text).
Proof.
  induction fuel as [|fuel IH]; intros v holder key Hp Hh; [lia|].
  cbn [SerializeJSONProperty]. rewrite (plain_toJSON_none v Hp).
  destruct v as [| |b|n|z|s|a r|items|props]; try discriminate.
  - now eexists.
  - destruct b; now eexists.
  - now eexists.
  - now eexists.
  - destruct (mapM_total
                (fun '(i, x) =>
                   r <- SerializeJSONProperty fuel None None (VArray items)
                          (nat_to_string i) x ;;
                   Ok (match r with Some s => s | None => "null" end))
                (indexed items)) as (parts & ->).
    + intros [i item] Hin. apply in_indexed in Hin.
      cbn [plain] in Hp. rewrite forallb_forall in Hp.
      destruct (IH item (VArray items) (nat_to_string i)) as (text & ->).
      * now apply Hp.
      * cbn [height] in Hh. pose proof (list_max_In _ _ (in_map height _ _ Hin)). lia.
      * cbn [bind]. now eexists.
    + cbn [bind]. now eexists.
  - destruct (mapM_total
                (fun P =>
                   r <- SerializeJSONProperty fuel None None (VObject props) P
                          (get (VObject props) P) ;;
                   Ok (match r with
                       | Some s => [QuoteJSONString P ++ ":" ++ s]
                       | None => []
                       end))
                (map fst props)) as (parts & ->).
    + intros k Hk. destruct (plain_member props k Hp Hk) as [Hpk Hhk].
      destruct (IH (get (VObject props) k) (VObject props) k) as (text & ->);
        [exact Hpk | lia |].
      cbn [bind]. now eexists.
    + cbn [bind]. now eexists.
Qed.

(** With the tables switched off and no replacer, [stringify] returns a
    text for every tree of null, booleans, numbers, strings, arrays and
    objects, whatever the other options are: the inline and packing
    decisions fall back safely. *)
Lemma stringify_total_without_tables (o : StringifyOptions) (v : value) (fuel : nat) :
  replace o = Absent ->
  is_NotFn (allowInline o) = false ->
  is_NotFn (allowTable o) = false ->
  tables o = Some false ->
  plain v = true ->
  (height v < fuel)%nat ->
  exists text, stringify fuel v o = Ok (Some text).
Proof.
  intros Hr Hi Ht Htab Hp Hh. unfold stringify.
  destruct (String.length (indent_of o) =? 0)%nat.
  - unfold JSON_stringify. rewrite Hr.
    now apply SerializeJSONProperty_total.
  - rewrite Hr.
    destruct (allowInline o); try discriminate;
      (destruct (allowTable o); try discriminate;
       (destruct (processValue_total (capture o)) with (fuel := fuel) (v := v)
            (key := EmptyString) (depth := O) (parentObj := root_holder v)
            (keyLength := 0) (allowTables := true) as (p & ->);
        [unfold capture; cbn; now rewrite Hr
        |unfold capture; cbn; now rewrite Htab
        |unfold capture; cbn; now rewrite Htab
        |assumption | assumption
        |cbn [bind option_map]; now eexists])).
Qed.

(** ** Table cells and the budget (lines 336-345, 414-432) *)

(** A cell that is wider than [maxLineLength], or that spans lines, is
    never part of a table: the table functions give up with [null]. *)
Lemma plain_cells_within (c : closure) (cell : value -> outcome (option processed)) :
  forall (col : list value) (width : option Z) (numeric : bool)
         (width' : option Z) (cells : list (option string)) (numeric' : bool),
    plain_cells c cell col width numeric = Ok (Some (width', cells, numeric')) ->
    Forall (fun cl => forall s, cl = Some s ->
                        len s <= c_maxLineLength c /\ includes_newline s = false) cells.
Proof.
  induction col as [|v col IH]; intros width numeric width' cells numeric' Hrun;
    simpl in Hrun.
  - inversion Hrun; subst. constructor.
  - destruct (is_undefined v).
    + destruct (plain_cells c cell col width numeric) as [[[[w cs] n]|]| |] eqn:Hrest;
        cbn [bind] in Hrun; try discriminate.
      inversion Hrun; subst. constructor; [intros s Hs; discriminate|].
      now apply (IH _ _ _ _ _ Hrest).
    + destruct (cell v) as [[p|]| |]; cbn [bind] in Hrun; try discriminate.
      destruct ((len (result p) >? c_maxLineLength c) || includes_newline (result p))
        eqn:Hguard; [discriminate|].
      apply orb_false_iff in Hguard. destruct Hguard as [Hlen Hnl].
      match type of Hrun with
      | bind ?m _ = _ => destruct m as [[[[w cs] n]|]| |] eqn:Hrest
      end; cbn [bind] in Hrun; try discriminate.
      inversion Hrun; subst. constructor.
      * intros s Hs. inversion Hs; subst s. split; [lia | assumption].
      * now apply (IH _ _ _ _ _ Hrest).
Qed.

Lemma label_cells_within (c : closure) (jsonKey : string) :
  forall (col : list value) (cells : list (option string)) (width width' : option Z)
         (out : list (option string)),
    Forall2 (fun v cl => is_undefined v = true -> cl = None) col cells ->
    label_cells c jsonKey col cells width = Some (width', out) ->
    Forall (fun cl => forall s, cl = Some s -> len s <= c_maxLineLength c) out.
Proof.
  induction col as [|v col IH]; intros cells width width' out Hshape Hrun;
    cbn [label_cells] in Hrun; cbv zeta in Hrun.
  - inversion Hrun; subst. constructor.
  - inversion Hshape as [|v0 cl col0 cells0 Hhead Htail]; subst.
    cbn [List.hd List.tl] in Hrun.
    destruct (is_undefined v).
    + destruct (label_cells c jsonKey col cells0 width) as [[w o]|] eqn:Hrest;
        try discriminate.
      inversion Hrun; subst. constructor.
      * intros s Hs. rewrite (Hhead eq_refl) in Hs. discriminate.
      * now apply (IH _ _ _ _ Htail Hrest).
    + destruct (len (jsonKey ++ ": " ++ nullish cl "undefined") >? c_maxLineLength c)
        eqn:Hguard; [discriminate|].
      match type of Hrun with
      | match ?m with _ => _ end = _ => destruct m as [[w o]|] eqn:Hrest
      end; try discriminate.
      inversion Hrun; subst. constructor.
      * intros s Hs. inversion Hs; subst s. cbn [append] in Hguard |- *. lia.
      * now apply (IH _ _ _ _ Htail Hrest).
Qed.

Lemma keyed_cells_plain_within (c : closure) (cell : value -> outcome (option processed))
    (jsonKey : string) :
  forall (col : list value) (width width' : option Z) (cells : list (option string)),
    keyed_cells_plain c cell jsonKey col width = Ok (Some (width', cells)) ->
    Forall (fun cl => forall s, cl = Some s ->
                        len s <= c_maxLineLength c /\ includes_newline s = false) cells.
Proof.
  induction col as [|v col IH]; intros width width' cells Hrun;
    cbn [keyed_cells_plain] in Hrun; cbv zeta in Hrun.
  - inversion Hrun; subst. constructor.
  - destruct (is_undefined v).
    + destruct (keyed_cells_plain c cell jsonKey col width) as [[[w cs]|]| |] eqn:Hrest;
        cbn [bind] in Hrun; try discriminate.
      inversion Hrun; subst. constructor; [intros s Hs; discriminate|].
      now apply (IH _ _ _ Hrest).
    + destruct (cell v) as [[p|]| |]; cbn [bind] in Hrun; try discriminate.
      destruct ((len (jsonKey ++ ": " ++ result p) >? c_maxLineLength c)
                || includes_newline (jsonKey ++ ": " ++ result p))
        eqn:Hguard; [discriminate|].
      apply orb_false_iff in Hguard. destruct Hguard as [Hlen Hnl].
      match type of Hrun with
      | bind ?m _ = _ => destruct m as [[[w cs]|]| |] eqn:Hrest
      end; cbn [bind] in Hrun; try discriminate.
      inversion Hrun; subst. constructor.
      * intros s Hs. inversion Hs; subst s. cbn [append] in Hlen, Hnl |- *.
        split; [lia | assumption].
      * now apply (IH _ _ _ Hrest).
Qed.

(** * Further properties *)

(** ** [arrMin], [arrMax] (lines 528-542) *)

Lemma fold_max_In (l : list Z) (a : Z) :
  fold_left Z.max l a = a \/ In (fold_left Z.max l a) l.
Proof.
  revert a; induction l as [|y l IH]; intros a; simpl; [now left|].
  destruct (IH (Z.max a y)) as [E|E].
  - rewrite E. destruct (Z.max_spec a y) as [[_ ->]|[_ ->]]; [right; now left | now left].
  - right; now right.
Qed.

Lemma fold_min_In (l : list Z) (a : Z) :
  fold_left Z.min l a = a \/ In (fold_left Z.min l a) l.
Proof.
  revert a; induction l as [|y l IH]; intros a; simpl; [now left|].
  destruct (IH (Z.min a y)) as [E|E].
  - rewrite E. destruct (Z.min_spec a y) as [[_ ->]|[_ ->]]; [now left | right; now left].
  - right; now right.
Qed.

Lemma fold_min_start (l : list Z) (a : Z) : fold_left Z.min l a <= a.
Proof.
  revert a; induction l as [|y l IH]; intros a; simpl; [lia|].
  specialize (IH (Z.min a y)). lia.
Qed.

Lemma fold_min_le (l : list Z) (a x : Z) : In x l -> fold_left Z.min l a <= x.
Proof.
  revert a; induction l as [|y l IH]; intros a Hx; [contradiction|].
  simpl. destruct Hx as [->|Hx].
  - pose proof (fold_min_start l (Z.min a x)). lia.
  - now apply IH.
Qed.

(** X1: [arrMax] gives the greatest element of the array and [arrMin] the
    least one; both give [undefined] on the empty array only. *)
Theorem arrMin_arrMax_bounds (ns : list Z) :
  match arrMax ns with
  | Some m => In m ns /\ forall x, In x ns -> x <= m
  | None => ns = []
  end /\
  match arrMin ns with
  | Some m => In m ns /\ forall x, In x ns -> m <= x
  | None => ns = []
  end.
Proof.
  destruct ns as [|n ns]; [split; reflexivity|].
  cbn [arrMax arrMin]. split; split.
  - destruct (fold_max_In ns n) as [->|H]; [now left | now right].
  - intros x [<-|Hx]; [apply fold_max_start | now apply fold_max_ge].
  - destruct (fold_min_In ns n) as [->|H]; [now left | now right].
  - intros x [<-|Hx]; [apply fold_min_start | now apply fold_min_le].
Qed.

(** ** [getColumnWidths] (lines 544-547) *)

Lemma max_of_In (l : list Z) : l <> [] -> In (max_of l) l.
Proof.
  destruct l as [|x l]; [contradiction|]. intros _. simpl.
  destruct (fold_max_In l x) as [->|H]; [now left | now right].
Qed.

Lemma in_combine_seq_inv {A : Type} (l : list A) (d : A) (s i : nat) (a : A) :
  In (i, a) (combine (seq s (List.length l)) l) ->
  (s <= i < s + List.length l)%nat /\ a = nth (i - s) l d.
Proof.
  revert s; induction l as [|b l IH]; intros s H; simpl in H; [contradiction|].
  destruct H as [H|H].
  - inversion H; subst. rewrite Nat.sub_diag. simpl. split; [lia | reflexivity].
  - destruct (IH (S s) H) as [Hi ->]. simpl List.length. split; [lia|].
    replace (i - s)%nat with (S (i - S s)) by lia. reflexivity.
Qed.

Lemma in_column_items_inv (lengths : list Z) (cols : Z) (j : nat) (x : Z) :
  In x (column_items lengths cols j) ->
  exists p, (p < List.length lengths)%nat /\
            Z.of_nat p mod cols = Z.of_nat j /\ x = nth p lengths 0.
Proof.
  unfold column_items, indexed. intros H.
  apply in_map_iff in H. destruct H as ([i y] & E & H). simpl in E; subst y.
  apply filter_In in H. destruct H as [H Hj]. apply Z.eqb_eq in Hj.
  destruct (in_combine_seq_inv lengths 0 0 i x H) as [Hi ->].
  exists i. rewrite Nat.sub_0_r. repeat split; [lia | assumption].
Qed.

(** X2: for a column count of at least 1, [getColumnWidths] returns one
    width per column that has an item, [min(columnCount, n)] of them;
    the width of a column is the length of one of its items and no item
    of the column (the items at positions [j], [j + c], [j + 2c], ...) is
    longer. *)
Theorem getColumnWidths_column_maxima (lengths : list Z) (columnCount : Z) :
  1 <= columnCount ->
  let widths := getColumnWidths lengths columnCount in
  List.length widths = Nat.min (Z.to_nat columnCount) (List.length lengths) /\
  (forall p, (p < List.length lengths)%nat ->
             nth p lengths 0
             <= nth (Z.to_nat (Z.of_nat p mod columnCount)) widths 0) /\
  (forall j, (j < List.length widths)%nat ->
             exists p, (p < List.length lengths)%nat /\
                       Z.of_nat p mod columnCount = Z.of_nat j /\
                       nth j widths 0 = nth p lengths 0).
Proof.
  intros Hc widths.
  assert (E : widths = map (fun j => max_of (column_items lengths columnCount j))
                           (seq 0 (Nat.min (Z.to_nat columnCount) (List.length lengths)))).
  { unfold widths, getColumnWidths. rewrite groupBy_index_spec by assumption.
    unfold groups_spec. now rewrite map_map. }
  assert (Hlen : List.length widths
                 = Nat.min (Z.to_nat columnCount) (List.length lengths)).
  { now rewrite E, length_map, length_seq. }
  assert (Hnth : forall j, (j < List.length widths)%nat ->
                           nth j widths 0 = max_of (column_items lengths columnCount j)).
  { intros j Hj. rewrite E.
    rewrite (nth_indep _ 0 (max_of (column_items lengths columnCount 0)))
      by (rewrite <- E; assumption).
    rewrite (map_nth (fun j => max_of (column_items lengths columnCount j))).
    rewrite seq_nth by lia. reflexivity. }
  split; [exact Hlen | split].
  - intros p Hp.
    assert (Hm : 0 <= Z.of_nat p mod columnCount < columnCount)
      by (apply Z.mod_pos_bound; lia).
    assert (Hle : Z.of_nat p mod columnCount <= Z.of_nat p)
      by (apply Z.mod_le; lia).
    rewrite Hnth by lia.
    apply max_of_ge, in_column_items; [assumption | lia].
  - intros j Hj. rewrite (Hnth j Hj).
    assert (Hin : In (nth j lengths 0) (column_items lengths columnCount j)).
    { apply in_column_items; [lia|]. apply Z.mod_small. lia. }
    apply in_column_items_inv, max_of_In.
    intros Hnil. rewrite Hnil in Hin. contradiction.
Qed.

Lemma getColumnWidths_column_maxima_witness :
  let lengths := [1; 4; 2; 9; 3] in
  1 <= 2 /\
  getColumnWidths lengths 2 = [3; 9] /\
  List.length (getColumnWidths lengths 2) = Nat.min (Z.to_nat 2) (List.length lengths) /\
  (forall p, (p < List.length lengths)%nat ->
             nth p lengths 0
             <= nth (Z.to_nat (Z.of_nat p mod 2)) (getColumnWidths lengths 2) 0) /\
  (forall j, (j < List.length (getColumnWidths lengths 2))%nat ->
             exists p, (p < List.length lengths)%nat /\
                       Z.of_nat p mod 2 = Z.of_nat j /\
                       nth j (getColumnWidths lengths 2) 0 = nth p lengths 0).
Proof.
  split; [lia | split; [reflexivity|]].
  apply (getColumnWidths_column_maxima [1; 4; 2; 9; 3] 2). lia.
Defined.

(** ** [findMaxItemsWide] (lines 557-576) *)

(** X3: [findMaxItemsWide] always returns: a column count between 1 and
    [ceil(sqrt(n))] (1 on an empty array) with the widths
    [getColumnWidths] gives for that count; the count fits the budget
    unless not even a single column fits. *)
Theorem findMaxItemsWide_returns_fitting_count {A : Type} (items : list A)
    (itemLengths : list Z) (maxLineLength : Z) :
  exists best,
    findMaxItemsWide items itemLengths maxLineLength
    = Ok (best, getColumnWidths itemLengths best) /\
    1 <= best <= Z.max 1 (ceil_sqrt (Z.of_nat (List.length items))) /\
    (probe_fits itemLengths maxLineLength best = true \/
     probe_fits itemLengths maxLineLength 1 = false).
Proof.
  set (H := ceil_sqrt (Z.of_nat (List.length items))).
  assert (HH : 0 <= H).
  { unfold H, ceil_sqrt. pose proof (Z.sqrt_nonneg (Z.of_nat (List.length items))).
    destruct (_ =? _); lia. }
  destruct (findMaxItemsWide_loop_spec itemLengths maxLineLength H (S (Z.to_nat H)) 1 H 1 None)
    as (best & bw & Hrun & Hpost);
    [lia | lia | lia | lia | left; repeat split | left; reflexivity |].
  unfold findMaxItemsWide. fold H. rewrite Hrun. cbn [bind].
  exists best.
  destruct Hpost as [(-> & -> & Hno)|(-> & Hb & Hfit & _)].
  - split; [reflexivity | split; [lia|]].
    destruct Hno as [Hno|Hno]; [| now right].
    destruct (probe_fits itemLengths maxLineLength 1) eqn:E; [now left | now right].
  - split; [reflexivity | split; [lia | now left]].
Qed.

(** ** [joinColumns] (lines 549-555) *)

Lemma last_cons_default {A : Type} (l : list A) (a d : A) :
  last (a :: l) d = last l a.
Proof.
  revert a d; induction l as [|b l IH]; intros a d; [reflexivity|].
  change (last (a :: b :: l) d) with (last (b :: l) d).
  now rewrite (IH b d), (IH b a).
Qed.

Lemma joinColumns_from_exact :
  forall (rest : list string) (prev : string) (ws : list Z),
    (List.length rest <= List.length ws)%nat ->
    (forall m, (m < List.length rest)%nat ->
               len (nth m (prev :: rest) EmptyString) <= nth m ws 0 + 1) ->
    exists tail,
      joinColumns_from prev rest ws = Ok tail /\
      len prev + len tail
      = sum (firstn (List.length rest) ws) + 2 * Z.of_nat (List.length rest)
        + len (last rest prev).
Proof.
  induction rest as [|item rest IH]; intros prev ws Hlen Hrow.
  - exists EmptyString. split; [reflexivity|].
    cbn [List.length firstn last]. change (sum []) with 0.
    change (len EmptyString) with 0. lia.
  - destruct ws as [|w ws]; [simpl in Hlen; lia|].
    destruct (IH item ws) as (tail & Htail & Hbound).
    + simpl in Hlen. lia.
    + intros m Hm. apply (Hrow (S m)). simpl; lia.
    + pose proof (Hrow O ltac:(simpl; lia)) as H0. cbn [nth] in H0.
      cbn [joinColumns_from str_repeat_nan List.tl]. unfold str_repeat.
      destruct (Z.ltb_spec (w - len prev + 1) 0); [lia|].
      cbn [bind]. rewrite Htail. cbn [bind].
      eexists; split; [reflexivity|].
      rewrite !len_app. change (len ",") with 1.
      unfold len at 2. rewrite length_repeat_space.
      change (firstn (List.length (item :: rest)) (w :: ws))
        with (w :: firstn (List.length rest) ws).
      rewrite sum_cons, (last_cons_default rest item prev).
      cbn [List.length]. lia.
Qed.

(** X4: when every item but the last is at most one character longer than
    the width of its column, [joinColumns] does not throw and pads each of
    those items, comma included, to the width of its column plus 2: the
    row is as long as those widths, plus 2 for each, plus the last
    item. *)
Theorem joinColumns_padded_length (items : list string) (columnWidths : list Z) :
  items <> [] ->
  (List.length items <= S (List.length columnWidths))%nat ->
  (forall m, (S m < List.length items)%nat ->
             len (nth m items EmptyString) <= nth m columnWidths 0 + 1) ->
  exists line,
    joinColumns items columnWidths = Ok line /\
    len line
    = sum (firstn (List.length items - 1) columnWidths)
      + 2 * Z.of_nat (List.length items - 1)
      + len (last items EmptyString).
Proof.
  intros Hne Hlen Hrow. destruct items as [|first rest]; [contradiction|].
  destruct (joinColumns_from_exact rest first columnWidths) as (tail & Htail & Hexact).
  - simpl in Hlen. lia.
  - intros m Hm. apply Hrow. simpl; lia.
  - unfold joinColumns. rewrite Htail. cbn [bind].
    eexists; split; [reflexivity|].
    rewrite len_app, last_cons_default.
    cbn [List.length]. rewrite Nat.sub_succ, Nat.sub_0_r. exact Hexact.
Qed.

Lemma joinColumns_padded_length_witness :
  let items := ["1"; "22"; "3"] in
  let columnWidths := [2; 2; 2] in
  items <> [] /\
  joinColumns items columnWidths = Ok "1,  22, 3" /\
  exists line,
    joinColumns items columnWidths = Ok line /\
    len line
    = sum (firstn (List.length items - 1) columnWidths)
      + 2 * Z.of_nat (List.length items - 1)
      + len (last items EmptyString).
Proof.
  split; [discriminate | split; [reflexivity|]].
  apply (joinColumns_padded_length ["1"; "22"; "3"] [2; 2; 2]).
  - discriminate.
  - simpl; lia.
  - intros m Hm. simpl in Hm.
    assert (E : m = 0%nat \/ m = 1%nat) by lia.
    destruct E as [->| ->]; vm_compute; discriminate.
Defined.

(** ** The rows of the packed grid (lines 491-493) *)

Lemma chunks_concat {A : Type} (w : nat) :
  forall (k : nat) (l : list A),
    (List.length l <= k * w)%nat ->
    List.concat (map (fun i => firstn w (skipn (i * w) l)) (seq 0 k)) = l.
Proof.
  induction k as [|k IH]; intros l Hl.
  - simpl in Hl. destruct l; [reflexivity | simpl in Hl; lia].
  - cbn [seq map List.concat]. rewrite <- seq_shift, map_map.
    rewrite (map_ext (fun i => firstn w (skipn (S i * w) l))
                     (fun i => firstn w (skipn (i * w) (skipn w l)))).
    + rewrite IH; [rewrite skipn_0; apply firstn_skipn|].
      rewrite length_skipn. simpl in Hl. lia.
    + intros i. rewrite skipn_skipn. f_equal. f_equal. simpl. lia.
Qed.

Lemma grid_rows_cover {A : Type} (items : list A) (itemsWide : Z) :
  1 <= itemsWide ->
  List.concat (grid_rows items itemsWide) = items /\
  Forall (fun row => (1 <= List.length row <= Z.to_nat itemsWide)%nat)
         (grid_rows items itemsWide).
Proof.
  intros Hw. unfold grid_rows.
  set (n := Z.of_nat (List.length items)).
  set (q := (n + itemsWide - 1) / itemsWide).
  assert (Hq : q * itemsWide <= n + itemsWide - 1 < q * itemsWide + itemsWide).
  { unfold q. pose proof (Z.div_mod (n + itemsWide - 1) itemsWide ltac:(lia)).
    pose proof (Z.mod_pos_bound (n + itemsWide - 1) itemsWide ltac:(lia)). lia. }
  assert (Hq0 : 0 <= q) by (unfold q; apply Z.div_pos; unfold n; lia).
  split.
  - apply chunks_concat. unfold n in *. nia.
  - apply Forall_forall. intros row Hrow. apply in_map_iff in Hrow.
    destruct Hrow as (i & <- & Hi). apply in_seq in Hi.
    rewrite length_firstn, length_skipn. unfold n in *. nia.
Qed.

(** X5: the packed grid holds every item once, in order.  For a width
    [w] of at least 1 there are [ceil(n / w)] rows,
    [items.slice(i * w, (i + 1) * w)]; put back together they are the
    items; each row has between 1 and [w] items, and every row but the
    last has exactly [w]. *)
Theorem grid_rows_partition {A : Type} (items : list A) (itemsWide : Z) :
  1 <= itemsWide ->
  let rows := grid_rows items itemsWide in
  Z.of_nat (List.length rows)
  = (Z.of_nat (List.length items) + itemsWide - 1) / itemsWide /\
  List.concat rows = items /\
  Forall (fun row => (1 <= List.length row <= Z.to_nat itemsWide)%nat) rows /\
  (forall i, (S i < List.length rows)%nat ->
             List.length (nth i rows []) = Z.to_nat itemsWide).
Proof.
  intros Hw rows. destruct (grid_rows_cover items itemsWide Hw) as [Hconcat Hrows].
  set (n := Z.of_nat (List.length items)).
  set (q := (n + itemsWide - 1) / itemsWide).
  assert (Hq : q * itemsWide <= n + itemsWide - 1 < q * itemsWide + itemsWide).
  { unfold q. pose proof (Z.div_mod (n + itemsWide - 1) itemsWide ltac:(lia)).
    pose proof (Z.mod_pos_bound (n + itemsWide - 1) itemsWide ltac:(lia)). lia. }
  assert (Hq0 : 0 <= q) by (unfold q; apply Z.div_pos; unfold n; lia).
  assert (Hlen : List.length rows = Z.to_nat q).
  { unfold rows, grid_rows. now rewrite length_map, length_seq. }
  split; [rewrite Hlen; lia|]. split; [exact Hconcat|]. split; [exact Hrows|].
  intros i Hi. rewrite Hlen in Hi. unfold rows, grid_rows.
  fold n. fold q.
  rewrite (nth_indep _ [] (firstn (Z.to_nat itemsWide)
                             (skipn (0 * Z.to_nat itemsWide) items)))
    by (rewrite length_map, length_seq; lia).
  rewrite (map_nth (fun i => firstn (Z.to_nat itemsWide)
                               (skipn (i * Z.to_nat itemsWide) items))).
  rewrite seq_nth by lia.
  rewrite length_firstn, length_skipn. unfold n in *. nia.
Qed.

Lemma grid_rows_partition_witness :
  1 <= 3 /\
  grid_rows ["a"; "b"; "c"; "d"; "e"; "f"; "g"] 3
  = [["a"; "b"; "c"]; ["d"; "e"; "f"]; ["g"]] /\
  (let rows := grid_rows ["a"; "b"; "c"; "d"; "e"; "f"; "g"] 3 in
   Z.of_nat (List.length rows)
   = (Z.of_nat (List.length ["a"; "b"; "c"; "d"; "e"; "f"; "g"]) + 3 - 1) / 3 /\
   List.concat rows = ["a"; "b"; "c"; "d"; "e"; "f"; "g"] /\
   Forall (fun row => (1 <= List.length row <= Z.to_nat 3)%nat) rows /\
   (forall i, (S i < List.length rows)%nat ->
              List.length (nth i rows []) = Z.to_nat 3)).
Proof.
  split; [lia | split; [reflexivity|]].
  apply (grid_rows_partition ["a"; "b"; "c"; "d"; "e"; "f"; "g"] 3). lia.
Defined.

(** ** [formatArray], [formatObject] (lines 460-515) *)

(** X6: [formatArray] and [formatObject] never throw, whatever the items
    and the options are, and what they return starts with the opening
    bracket. *)
Theorem format_never_throws (c : closure) (items : list string) (depth : nat)
    (nestedItems : bool) (keyLength : Z) (allowInline : bool) :
  (exists text,
     formatArray c items depth nestedItems keyLength allowInline = Ok text /\
     first_char_is "["%char text = true) /\
  (exists text,
     formatObject c items depth nestedItems keyLength allowInline = Ok text /\
     first_char_is "{"%char text = true).
Proof.
  split.
  - destruct (formatArray_total c items depth nestedItems keyLength allowInline)
      as (text & Hrun).
    exists text. split; [assumption|].
    destruct (formatArray_layout _ _ _ _ _ _ _ Hrun)
      as [(_ & ->)|[(Hnl & _)|(rows & -> & _)]]; try reflexivity.
    unfold formatArray in Hrun. destruct items as [|item items].
    + now inversion Hrun.
    + match type of Hrun with (if ?b then _ else _) = _ => destruct b end.
      * now inversion Hrun.
      * exfalso.
        match type of Hrun with (if ?b then _ else _) = _ => destruct b end.
        -- destruct (findMaxItemsWide _ _ _) as [[w ws]| |]; cbn [bind] in Hrun;
             try discriminate.
           destruct (mapM _ _) as [rows| |]; cbn [bind] in Hrun; try discriminate.
           inversion Hrun; subst text. simpl in Hnl. discriminate.
        -- inversion Hrun; subst text. simpl in Hnl. discriminate.
  - destruct (formatObject_total c items depth nestedItems keyLength allowInline)
      as (text & Hrun).
    exists text. split; [assumption|].
    unfold formatObject in Hrun. destruct items as [|item items].
    + now inversion Hrun.
    + match type of Hrun with (if ?b then _ else _) = _ => destruct b end;
        now inversion Hrun.
Qed.

(** ** The lines of a multi-line block (lines 496 and 513-514) *)

Lemma append_assoc_string (a b d : string) : (a ++ b) ++ d = a ++ b ++ d.
Proof. induction a as [|ch a IH]; simpl; [reflexivity | now rewrite IH]. Qed.

Lemma lines_single (a : string) : includes_newline a = false -> lines a = [a].
Proof.
  induction a as [|ch a IH]; intros H; [reflexivity|].
  simpl in H. apply orb_false_iff in H. destruct H as [Hch Ha].
  simpl. rewrite Hch, (IH Ha). reflexivity.
Qed.

Lemma lines_app_newline (a b : string) :
  includes_newline a = false -> lines (a ++ newline ++ b) = a :: lines b.
Proof.
  induction a as [|ch a IH]; intros H; [reflexivity|].
  simpl in H. apply orb_false_iff in H. destruct H as [Hch Ha].
  cbn [append lines]. rewrite Hch, (IH Ha). reflexivity.
Qed.

Lemma repeat_nat_no_newline (s : string) (n : nat) :
  includes_newline s = false -> includes_newline (repeat_nat s n) = false.
Proof.
  intros Hs. induction n as [|n IH]; [reflexivity|].
  simpl. now rewrite includes_newline_app, Hs, IH.
Qed.

Lemma item_lines_join (itemIndent : string) (rest : string) :
  includes_newline itemIndent = false ->
  forall items,
    items <> [] ->
    forallb (fun item => negb (includes_newline item)) items = true ->
    lines (itemIndent ++ join ("," ++ newline ++ itemIndent) items ++ newline ++ rest)
    = (item_lines itemIndent items ++ lines rest)%list.
Proof.
  intros Hind. induction items as [|item items IH]; intros Hne Hitems; [contradiction|].
  cbn [forallb] in Hitems. apply andb_true_iff in Hitems.
  destruct Hitems as [Hitem Hitems]. apply negb_true_iff in Hitem.
  destruct items as [|item' items].
  - cbn [join String.concat item_lines app].
    rewrite <- append_assoc_string. apply lines_app_newline.
    now rewrite includes_newline_app, Hind, Hitem.
  - change (join ("," ++ newline ++ itemIndent) (item :: item' :: items))
      with (item ++ ("," ++ newline ++ itemIndent)
                 ++ join ("," ++ newline ++ itemIndent) (item' :: items)).
    change (item_lines itemIndent (item :: item' :: items))
      with ((itemIndent ++ item ++ ",") :: item_lines itemIndent (item' :: items)).
    rewrite <- app_comm_cons.
    rewrite <- (IH ltac:(discriminate) Hitems).
    rewrite <- (lines_app_newline (itemIndent ++ item ++ ",")).
    + f_equal. rewrite !append_assoc_string. reflexivity.
    + rewrite !includes_newline_app, Hind, Hitem. reflexivity.
Qed.

Lemma one_per_line_lines (c : closure) (open close : string) (items : list string)
    (depth : nat) :
  includes_newline (c_indent c) = false ->
  includes_newline open = false ->
  includes_newline close = false ->
  items <> [] ->
  forallb (fun item => negb (includes_newline item)) items = true ->
  lines (one_per_line c open close items depth)
  = (open :: item_lines (repeat_nat (c_indent c) (depth + 1)) items
          ++ [(repeat_nat (c_indent c) depth ++ close)%string])%list.
Proof.
  intros Hind Hopen Hclose Hne Hitems. unfold one_per_line.
  rewrite (lines_app_newline open) by assumption. f_equal.
  rewrite item_lines_join; try assumption.
  - f_equal. apply lines_single.
    now rewrite includes_newline_app, repeat_nat_no_newline, Hclose.
  - now apply repeat_nat_no_newline.
Qed.

(** X7: when [formatObject] does not put an object on one line, the text
    has a line per property between the two brackets: the opening
    bracket, every property behind [depth + 1] indents with a comma after
    all but the last, and the closing bracket behind [depth] indents.
    (The indent and the properties hold no line feed.) *)
Theorem formatObject_block_lines (c : closure) (items : list string) (depth : nat)
    (nestedItems : bool) (keyLength : Z) (allowInline : bool) (text : string) :
  formatObject c items depth nestedItems keyLength allowInline = Ok text ->
  includes_newline text = true ->
  includes_newline (c_indent c) = false ->
  forallb (fun item => negb (includes_newline item)) items = true ->
  lines text
  = ("{" :: item_lines (repeat_nat (c_indent c) (depth + 1)) items
         ++ [(repeat_nat (c_indent c) depth ++ "}")%string])%list.
Proof.
  intros Hrun Hnl Hind Hitems. unfold formatObject in Hrun.
  destruct items as [|item items]; [inversion Hrun; subst; discriminate|].
  match type of Hrun with (if ?b then _ else _) = _ => destruct b eqn:Hinline end.
  - inversion Hrun; subst text.
    repeat (apply andb_true_iff in Hinline; destruct Hinline as [Hinline ?]).
    match goal with H : negb _ = true |- _ => apply negb_true_iff in H end.
    congruence.
  - inversion Hrun; subst text.
    apply one_per_line_lines; try assumption; try reflexivity. discriminate.
Qed.

Lemma formatObject_block_lines_witness :
  let c := capture (with_maxLineLength 10) in
  let items := [js "'a': 1"; js "'b': 22"] in
  let text := js "{$  'a': 1,$  'b': 22$}" in
  formatObject c items 0 false 0 true = Ok text /\
  lines text = ["{"; js "  'a': 1,"; js "  'b': 22"; "}"] /\
  lines text
  = ("{" :: item_lines (repeat_nat (c_indent c) (0 + 1)) items
         ++ [(repeat_nat (c_indent c) 0 ++ "}")%string])%list.
Proof.
  split; [reflexivity | split; [reflexivity|]].
  apply (formatObject_block_lines (capture (with_maxLineLength 10))
           [js "'a': 1"; js "'b': 22"] 0 false 0 true);
    reflexivity.
Defined.

(** X8: the same for [formatArray], when it neither puts the array on one
    line nor packs it ([compactLongArrays] off, or no more items than
    [maxArrayItems]). *)
Theorem formatArray_block_lines (c : closure) (items : list string) (depth : nat)
    (nestedItems : bool) (keyLength : Z) (allowInline : bool) (text : string) :
  formatArray c items depth nestedItems keyLength allowInline = Ok text ->
  includes_newline text = true ->
  c_compactLongArrays c = false \/ Z.of_nat (List.length items) <= c_maxArrayItems c ->
  includes_newline (c_indent c) = false ->
  forallb (fun item => negb (includes_newline item)) items = true ->
  lines text
  = ("[" :: item_lines (repeat_nat (c_indent c) (depth + 1)) items
         ++ [(repeat_nat (c_indent c) depth ++ "]")%string])%list.
Proof.
  intros Hrun Hnl Hoff Hind Hitems. unfold formatArray in Hrun.
  destruct items as [|item items]; [inversion Hrun; subst; discriminate|].
  match type of Hrun with (if ?b then _ else _) = _ => destruct b eqn:Hinline end.
  - inversion Hrun; subst text.
    repeat (apply andb_true_iff in Hinline; destruct Hinline as [Hinline ?]).
    match goal with H : negb _ = true |- _ => apply negb_true_iff in H end.
    congruence.
  - match type of Hrun with (if ?b then _ else _) = _ => destruct b eqn:Hpack end.
    + exfalso.
      repeat (apply andb_true_iff in Hpack; destruct Hpack as [Hpack ?]).
      destruct Hoff as [Hoff|Hoff]; [congruence|].
      match goal with H : (_ >? _) = true |- _ => apply Z.gtb_lt in H end. lia.
    + inversion Hrun; subst text.
      apply one_per_line_lines; try assumption; try reflexivity. discriminate.
Qed.

Lemma formatArray_block_lines_witness :
  let c := capture (with_maxLineLength 5) in
  let items := ["1"; "22"; "333"] in
  let text := js "[$  1,$  22,$  333$]" in
  formatArray c items 0 false 0 true = Ok text /\
  lines text
  = ("[" :: item_lines (repeat_nat (c_indent c) (0 + 1)) items
         ++ [(repeat_nat (c_indent c) 0 ++ "]")%string])%list.
Proof.
  split; [reflexivity|].
  apply (formatArray_block_lines (capture (with_maxLineLength 5))
           ["1"; "22"; "333"] 0 false 0 true); try reflexivity.
  right. vm_compute. discriminate.
Defined.

(** ** [decimalAlignment] (lines 641-665) *)

Lemma mapM_Forall2 {A B : Type} (f : A -> outcome B) (R : A -> B -> Prop) (l : list A) :
  (forall a, In a l -> exists b, f a = Ok b /\ R a b) ->
  exists bs, mapM f l = Ok bs /\ Forall2 R l bs.
Proof.
  induction l as [|a l IH]; intros H; simpl.
  - exists []. split; [reflexivity | constructor].
  - destruct (H a (or_introl eq_refl)) as (b & -> & Hb).
    destruct IH as (bs & -> & Hbs); [intros a' Ha'; apply H; now right|].
    exists (b :: bs). split; [reflexivity | now constructor].
Qed.

Lemma indexOf_from_shift (ch : ascii) (s : string) (i : Z) :
  indexOf_from ch s i
  = if indexOf_from ch s 0 <? 0 then -1 else i + indexOf_from ch s 0.
Proof.
  revert i. induction s as [|c' s IH]; intros i; simpl.
  - reflexivity.
  - destruct (Ascii.eqb ch c').
    + simpl. lia.
    + rewrite (IH (i + 1)), (IH 1).
      destruct (indexOf_from ch s 0 <? 0) eqn:Hr; [reflexivity|].
      apply Z.ltb_ge in Hr.
      destruct (1 + indexOf_from ch s 0 <? 0) eqn:Hr'; [apply Z.ltb_lt in Hr'; lia | lia].
Qed.

Lemma indexOf_range (ch : ascii) (s : string) :
  indexOf ch s = -1 \/ 0 <= indexOf ch s.
Proof.
  unfold indexOf. induction s as [|c' s IH]; simpl.
  - now left.
  - destruct (Ascii.eqb ch c'); [right; lia|].
    rewrite indexOf_from_shift.
    destruct (indexOf_from ch s 0 <? 0) eqn:Hr; [now left | right].
    apply Z.ltb_ge in Hr. lia.
Qed.

Lemma indexOf_zero (ch : ascii) (s : string) :
  indexOf ch s = 0 -> first_char_is ch s = true.
Proof.
  unfold indexOf. destruct s as [|c' s]; simpl; [discriminate|].
  destruct (Ascii.eqb ch c'); [reflexivity|].
  rewrite indexOf_from_shift.
  destruct (indexOf_from ch s 0 <? 0) eqn:Hr; [discriminate|].
  apply Z.ltb_ge in Hr. lia.
Qed.

Lemma indexOf_spaces (k : nat) (n : string) :
  indexOf "."%char (repeat_nat " " k ++ n)
  = if indexOf "."%char n <? 0 then -1 else Z.of_nat k + indexOf "."%char n.
Proof.
  induction k as [|k IH].
  - simpl. destruct (indexOf_range "."%char n) as [->|H]; [reflexivity|].
    destruct (indexOf "." n <? 0) eqn:Hr; [apply Z.ltb_lt in Hr; lia | lia].
  - change (repeat_nat " " (S k) ++ n) with (String " " (repeat_nat " " k ++ n)).
    unfold indexOf in *. cbn [indexOf_from]. 
    change (Ascii.eqb "." " ") with false. cbv iota.
    rewrite indexOf_from_shift, IH.
    destruct (indexOf_from "." n 0 <? 0) eqn:Hr; [reflexivity|].
    apply Z.ltb_ge in Hr.
    destruct (Z.of_nat k + indexOf_from "." n 0 <? 0) eqn:Hr';
      [apply Z.ltb_lt in Hr'; lia | lia].
Qed.

Lemma decimal_index_nonneg (n : string) : 0 <= decimal_index n.
Proof.
  unfold decimal_index. cbv zeta.
  destruct (indexOf "." n >? 0) eqn:Hd; [apply Z.gtb_lt in Hd; lia | apply len_nonneg].
Qed.

Lemma decimal_index_spaces (k : nat) (n : string) :
  first_char_is "."%char n = false ->
  decimal_index (repeat_nat " " k ++ n) = Z.of_nat k + decimal_index n.
Proof.
  intros Hfirst. unfold decimal_index. cbv zeta. rewrite indexOf_spaces.
  assert (Hlen : len (repeat_nat " " k ++ n) = Z.of_nat k + len n).
  { rewrite len_app. unfold len at 1. now rewrite length_repeat_space. }
  destruct (indexOf_range "."%char n) as [Hr|Hr].
  - rewrite Hr. simpl. exact Hlen.
  - assert (Hpos : 0 < indexOf "." n).
    { destruct (Z.eq_dec (indexOf "." n) 0) as [H0|H0]; [|lia].
      apply indexOf_zero in H0. congruence. }
    destruct (indexOf "." n <? 0) eqn:H1; [apply Z.ltb_lt in H1; lia|].
    destruct (Z.of_nat k + indexOf "." n >? 0) eqn:H2;
      [|rewrite Z.gtb_ltb in H2; apply Z.ltb_ge in H2; lia].
    destruct (indexOf "." n >? 0) eqn:H3;
      [reflexivity | rewrite Z.gtb_ltb in H3; apply Z.ltb_ge in H3; lia].
Qed.

Lemma fold_decimal_ge (numbers : list (option string)) (m0 : Z) :
  let step := fun m cell => match cell with
                            | Some n => Z.max m (decimal_index n)
                            | None => m
                            end in
  m0 <= fold_left step numbers m0 /\
  (forall n, In (Some n) numbers -> decimal_index n <= fold_left step numbers m0).
Proof.
  cbv zeta. revert m0. induction numbers as [|cell numbers IH]; intros m0; simpl.
  - split; [lia | contradiction].
  - destruct cell as [n0|].
    + destruct (IH (Z.max m0 (decimal_index n0))) as [H1 H2]. split; [lia|].
      intros n [Heq|Hin]; [inversion Heq; subst; lia | now apply H2].
    + destruct (IH m0) as [H1 H2]. split; [assumption|].
      intros n [Heq|Hin]; [discriminate | now apply H2].
Qed.

Lemma fold_decimal_attained (numbers : list (option string)) (m0 : Z) :
  let step := fun m cell => match cell with
                            | Some n => Z.max m (decimal_index n)
                            | None => m
                            end in
  fold_left step numbers m0 = m0 \/
  exists n, In (Some n) numbers /\ decimal_index n = fold_left step numbers m0.
Proof.
  cbv zeta. revert m0. induction numbers as [|cell numbers IH]; intros m0; simpl.
  - now left.
  - destruct cell as [n0|].
    + destruct (IH (Z.max m0 (decimal_index n0))) as [H|(n & Hin & Hn)].
      * rewrite H. destruct (Z.max_spec m0 (decimal_index n0)) as [[_ ->]|[_ ->]].
        -- right. exists n0. split; [now left | reflexivity].
        -- now left.
      * right. exists n. split; [now right | assumption].
    + destruct (IH m0) as [H|(n & Hin & Hn)]; [now left|].
      right. exists n. split; [now right | assumption].
Qed.

Lemma up_to_last_defined_spec {A : Type} (cells : list (option A)) :
  exists trailing,
    cells = (up_to_last_defined cells ++ repeat None trailing)%list /\
    (up_to_last_defined cells = [] \/ last (up_to_last_defined cells) None <> None).
Proof.
  induction cells as [|cell cells (k & Hk & Hlast)].
  - exists 0%nat. split; [reflexivity | now left].
  - cbn [up_to_last_defined].
    destruct cell as [a|]; destruct (up_to_last_defined cells) as [|c kept] eqn:Hkept.
    + exists k. split; [simpl in *; now rewrite Hk at 1 | right; discriminate].
    + exists k. split; [simpl in *; now rewrite Hk at 1|]. right.
      destruct Hlast as [Hlast|Hlast]; [discriminate | exact Hlast].
    + exists (S k). split; [simpl in *; now rewrite Hk at 1 | now left].
    + exists k. split; [simpl in *; now rewrite Hk at 1|]. right.
      destruct Hlast as [Hlast|Hlast]; [discriminate | exact Hlast].
Qed.

Lemma in_defined_part {A : Type} (kept : list (option A)) (trailing : nat) (a : A) :
  In (Some a) (kept ++ repeat None trailing) <-> In (Some a) kept.
Proof.
  rewrite in_app_iff. split; [|now left].
  intros [H|H]; [assumption|]. apply repeat_spec in H. discriminate.
Qed.

(** X9: [decimalAlignment] lines a column up.  It never throws; the
    array it returns ends at the last defined cell of the column (the
    holes after it are dropped, as the array is filled by index) and
    keeps the holes before it; every text gets only spaces in front, as
    many as bring its decimal point (its end, for a text without one) to
    one common position; and that position is the right-most one among
    the texts, so some text gets no space at all.  (No text starts with
    the point itself, as no JSON number does.) *)
Theorem decimalAlignment_aligns (numbers : list (option string)) :
  (forall n, In (Some n) numbers -> first_char_is "."%char n = false) ->
  exists (aligned kept : list (option string)) (trailing : nat) (column : Z),
    decimalAlignment numbers = Ok aligned /\
    numbers = (kept ++ repeat None trailing)%list /\
    (kept = [] \/ last kept None <> None) /\
    Forall2 (aligned_cell column) kept aligned /\
    (forall n, In (Some n) numbers -> decimal_index n <= column) /\
    ((exists n, In (Some n) numbers) ->
     exists n, In (Some n) numbers /\ In (Some n) aligned).
Proof.
  intros Hfirst. unfold decimalAlignment. cbv zeta.
  destruct (up_to_last_defined_spec numbers) as (trailing & Hsplit & Hlast).
  set (kept := up_to_last_defined numbers) in *. clearbody kept.
  assert (Hin : forall n, In (Some n) kept <-> In (Some n) numbers).
  { intros n. rewrite Hsplit. symmetry. apply in_defined_part. }
  set (step := fun m cell => match cell with
                             | Some n => Z.max m (decimal_index n)
                             | None => m
                             end).
  set (M := fold_left step numbers 0).
  destruct (fold_decimal_ge numbers 0) as [HM0 HM]. fold step in HM0, HM. fold M in HM0, HM.
  destruct (mapM_Forall2
              (fun cell => match cell with
                           | Some n =>
                               pad <- str_repeat " " (M - decimal_index n) ;;
                               Ok (Some (pad ++ n))
                           | None => Ok None
                           end)
              (fun cell out =>
                 aligned_cell M cell out /\
                 forall n, cell = Some n -> decimal_index n = M -> out = Some n)
              kept) as (aligned & Hrun & Hcells).
  { intros [n|] Hn.
    - apply Hin in Hn. specialize (HM n Hn). unfold str_repeat.
      destruct (M - decimal_index n <? 0) eqn:Hneg; [apply Z.ltb_lt in Hneg; lia|].
      cbn [bind]. eexists. split; [reflexivity|]. split.
      + exists (Z.to_nat (M - decimal_index n)). split; [reflexivity|].
        rewrite decimal_index_spaces by now apply Hfirst. lia.
      + intros n' Heq HnM. inversion Heq; subst n'.
        replace (M - decimal_index n) with 0 by lia. reflexivity.
    - exists None. split; [reflexivity|]. split; [reflexivity | discriminate]. }
  assert (Hatt : (exists n, In (Some n) numbers) ->
                 exists n, In (Some n) numbers /\ decimal_index n = M).
  { intros (n0 & Hn0).
    destruct (fold_decimal_attained numbers 0) as [H0|H]; [|exact H].
    fold step in H0. fold M in H0.
    exists n0. split; [assumption|].
    pose proof (HM n0 Hn0). pose proof (decimal_index_nonneg n0). lia. }
  exists aligned, kept, trailing, M. split; [exact Hrun|].
  split; [exact Hsplit|]. split; [exact Hlast|].
  clearbody M. split; [|split].
  - clear -Hcells. induction Hcells as [|cell out l l' [H _] _ IH];
      constructor; assumption.
  - exact HM.
  - intros Hsome. destruct (Hatt Hsome) as (n & Hn & HnM).
    exists n. split; [assumption|]. apply Hin in Hn.
    clear -Hcells Hn HnM. revert Hn.
    induction Hcells as [|cell out l l' [_ H] _ IH]; intros Hn.
    + contradiction.
    + destruct Hn as [->|Hn].
      * left. now apply H.
      * right. now apply IH.
Qed.

Lemma decimalAlignment_aligns_witness :
  let numbers := [Some "1.5"; None; Some "22"; Some "333.25"; None; None] in
  decimalAlignment numbers
  = Ok [Some "  1.5"; None; Some " 22"; Some "333.25"] /\
  exists (aligned kept : list (option string)) (trailing : nat) (column : Z),
    decimalAlignment numbers = Ok aligned /\
    numbers = (kept ++ repeat None trailing)%list /\
    (kept = [] \/ last kept None <> None) /\
    Forall2 (aligned_cell column) kept aligned /\
    (forall n, In (Some n) numbers -> decimal_index n <= column) /\
    ((exists n, In (Some n) numbers) ->
     exists n, In (Some n) numbers /\ In (Some n) aligned).
Proof.
  split; [reflexivity|].
  apply (decimalAlignment_aligns
           [Some "1.5"; None; Some "22"; Some "333.25"; None; None]).
  intros n [H|[H|[H|[H|[H|[H|[]]]]]]]; inversion H; reflexivity.
Defined.

(** ** [getTableColumnOrder] (lines 585-639) *)

Lemma mem_In (k : string) (l : list string) : mem k l = true <-> In k l.
Proof.
  unfold mem. rewrite existsb_exists. split.
  - intros (x & Hx & He). apply String.eqb_eq in He. now subst.
  - intros H. exists k. split; [assumption | apply String.eqb_refl].
Qed.

Lemma existsb_false {A : Type} (f : A -> bool) (l : list A) :
  existsb f l = false -> forall x, In x l -> f x = false.
Proof.
  intros H x Hin. destruct (f x) eqn:E; [|reflexivity].
  assert (existsb f l = true) by (apply existsb_exists; eauto). congruence.
Qed.

Lemma mapM_ok_map {A B : Type} (f : A -> outcome B) (g : A -> B) (l : list A) :
  (forall a, In a l -> f a = Ok (g a)) -> mapM f l = Ok (map g l).
Proof.
  induction l as [|a l IH]; intros H; simpl; [reflexivity|].
  rewrite (H a (or_introl eq_refl)), IH; [reflexivity|].
  intros a' Ha'. apply H. now right.
Qed.

Lemma dedupe_spec (l : list string) :
  forall seen,
    NoDup (dedupe l seen) /\
    forall k, In k (dedupe l seen) <-> In k l /\ ~ In k seen.
Proof.
  induction l as [|k l IH]; intros seen; simpl.
  - split; [constructor | intros k; tauto].
  - destruct (mem k seen) eqn:Hm.
    + destruct (IH seen) as [Hnd Hin]. split; [assumption|].
      intros x. rewrite Hin. apply mem_In in Hm. split.
      * intros [H1 H2]. tauto.
      * intros [[<-|H1] H2]; [contradiction | tauto].
    + destruct (IH (k :: seen)) as [Hnd Hin]. split.
      * constructor; [|assumption]. rewrite Hin. simpl. tauto.
      * intros x. simpl. rewrite Hin. simpl.
        assert (Hk : ~ In k seen).
        { intros H. apply mem_In in H. congruence. }
        destruct (string_dec k x) as [<-|Hne]; tauto.
Qed.

Lemma insert_index_perm (x : Z * string) (l : list (Z * string)) :
  Permutation (insert_index x l) (x :: l).
Proof.
  induction l as [|y l IH]; simpl; [reflexivity|].
  destruct (fst x <? fst y); [reflexivity|].
  rewrite IH. apply perm_swap.
Qed.

Lemma own_key_order_perm (ks : list string) : Permutation (own_key_order ks) ks.
Proof.
  unfold own_key_order.
  enough (H : forall acc,
             Permutation
               (map snd (fold_left (fun acc k =>
                                      match array_index k with
                                      | Some i => insert_index (i, k) acc
                                      | None => acc
                                      end) ks acc)
                ++ filter (fun k => match array_index k with
                                    | Some _ => false
                                    | None => true
                                    end) ks)
               (map snd acc ++ ks)) by apply (H []).
  induction ks as [|k ks IH]; intros acc; simpl.
  - reflexivity.
  - destruct (array_index k) as [i|].
    + rewrite IH. rewrite (Permutation_map snd (insert_index_perm (i, k) acc)).
      simpl. apply Permutation_middle.
    + rewrite <- !Permutation_middle. now rewrite IH.
Qed.

Lemma sort_insert_perm {A : Type} (compare : A -> A -> Z) (x : A) (l : list A) :
  Permutation (sort_insert compare x l) (x :: l).
Proof.
  induction l as [|y l IH]; simpl; [reflexivity|].
  destruct (compare x y <? 0); [reflexivity|].
  rewrite IH. apply perm_swap.
Qed.

Lemma sort_perm {A : Type} (compare : A -> A -> Z) (l : list A) :
  Permutation (sort compare l) l.
Proof.
  unfold sort.
  enough (H : forall acc,
             Permutation (fold_left (fun acc x => sort_insert compare x acc) l acc)
                         (acc ++ l)) by apply (H []).
  induction l as [|a l IH]; intros acc; simpl.
  - now rewrite app_nil_r.
  - rewrite IH, sort_insert_perm. simpl. apply Permutation_middle.
Qed.

Lemma index_of_nth_error (k : string) (l : list string) (i : nat) :
  index_of k l = Some i -> nth_error l i = Some k.
Proof.
  revert i. induction l as [|k' l IH]; intros i H; simpl in H; [discriminate|].
  destruct (String.eqb k k') eqn:He.
  - inversion H; subst i. apply String.eqb_eq in He. now subst.
  - destruct (index_of k l) as [j|]; [|discriminate].
    inversion H; subst i. simpl. now apply IH.
Qed.

Lemma In_firstn_nth {A : Type} (l : list A) (i j : nat) (x : A) :
  nth_error l i = Some x -> (i < j)%nat -> In x (firstn j l).
Proof.
  revert i j. induction l as [|a l IH]; intros i j H Hlt.
  - destruct i; discriminate.
  - destruct j as [|j]; [lia|]. destruct i as [|i]; simpl in *.
    + inversion H. now left.
    + right. apply (IH i); [assumption | lia].
Qed.

Lemma In_skipn_nth {A : Type} (l : list A) (i j : nat) (x : A) :
  nth_error l i = Some x -> (j <= i)%nat -> In x (skipn j l).
Proof.
  revert i j. induction l as [|a l IH]; intros i j H Hle.
  - destruct i; discriminate.
  - destruct j as [|j]; [now apply nth_error_In in H|].
    destruct i as [|i]; [lia|]. simpl in *. apply (IH i); [assumption | lia].
Qed.

Lemma has_on_object (key : string) (v : value) :
  negb (is_object_type v) || match v with VNull => true | _ => false end = false ->
  has key v = Ok (match has key v with Ok b => b | _ => false end).
Proof.
  destruct v; simpl; intros H; try discriminate; reflexivity.
Qed.

Lemma shared_keys_run (values : list value) (allKeys : list string) :
  existsb (fun v => negb (is_object_type v) ||
                    match v with VNull => true | _ => false end) values = false ->
  mapM (fun key =>
          ins <- mapM (has key) values ;;
          Ok (key, forallb (fun b => b) ins)) allKeys
  = Ok (map (fun key =>
               (key, forallb (fun b => b)
                       (map (fun v => match has key v with Ok b => b | _ => false end)
                            values)))
            allKeys).
Proof.
  intros Hobj. apply mapM_ok_map. intros key _.
  rewrite (mapM_ok_map (has key)
             (fun v => match has key v with Ok b => b | _ => false end)).
  - reflexivity.
  - intros v Hv. apply has_on_object. exact (existsb_false _ _ Hobj v Hv).
Qed.

Lemma key_positions_keys (allKeys : list string) (keys : list (list string)) :
  Permutation
    (map fst
       (sort compare_positions
          (map (fun k =>
                  (k, if match allKeys with
                         | k0 :: _ => String.eqb k k0
                         | [] => false
                         end
                      then {| before := []; after := [] |}
                      else positions_of keys k))
               (own_key_order allKeys))))
    allKeys.
Proof.
  rewrite (Permutation_map fst (sort_perm compare_positions _)).
  rewrite map_map. simpl. rewrite map_id. apply own_key_order_perm.
Qed.

Lemma getTableColumnOrder_object (props : list (string * value))
    (maxObjectProperties tableMinSharedKeys : Z) :
  getTableColumnOrder (VObject props) maxObjectProperties tableMinSharedKeys
  = getTableColumnOrder (VArray (map snd props)) maxObjectProperties tableMinSharedKeys.
Proof. reflexivity. Qed.

Lemma getTableColumnOrder_array_columns (items : list value)
    (maxObjectProperties tableMinSharedKeys : Z) :
  let rows := filter representable items in
  exists order,
    getTableColumnOrder (VArray items) maxObjectProperties tableMinSharedKeys = Ok order /\
    forall columns, order = Some columns ->
      (2 <= List.length rows)%nat /\
      ((exists n,
          columns = indices n /\
          Forall (fun v => exists cells, v = VArray cells /\ List.length cells = n) rows)
       \/
       (Forall (fun v => is_object_type v = true /\ v <> VNull /\
                         Z.of_nat (List.length (Object_keys v)) <= maxObjectProperties)
               rows /\
        NoDup columns /\
        (forall k, In k columns <-> exists v, In v rows /\ In k (Object_keys v)) /\
        exists shared,
          NoDup shared /\
          (forall k, In k shared ->
                     In k columns /\ forall v, In v rows -> has k v = Ok true) /\
          Z.min tableMinSharedKeys (Z.of_nat (List.length columns))
          <= Z.of_nat (List.length shared))).
Proof.
  cbv zeta. unfold getTableColumnOrder. cbn [isArray].
  remember (filter representable items) as values eqn:Hv. clear Hv items.
  destruct (Z.of_nat (List.length values) <=? 1) eqn:Hlen.
  { exists None. split; [reflexivity | discriminate]. }
  apply Z.leb_gt in Hlen.
  assert (Htwo : (2 <= List.length values)%nat) by lia. clear Hlen.
  destruct values as [|first rest]; [simpl in Htwo; lia|].
  destruct first as [| | | | | | |first|props];
    try (exists None; split; [reflexivity | discriminate]).
  - (* the rows are arrays *)
    match goal with |- context [forallb ?f ?l] => destruct (forallb f l) eqn:Hall end.
    + eexists. split; [reflexivity|]. intros columns Hc. inversion Hc; subst columns.
      split; [assumption|]. left. exists (List.length first). split; [reflexivity|].
      apply Forall_forall. intros v Hin.
      rewrite forallb_forall in Hall. specialize (Hall v Hin).
      destruct v; try discriminate. apply Nat.eqb_eq in Hall. eauto.
    + exists None. split; [reflexivity | discriminate].
  - (* the rows are objects *)
    set (values := VObject props :: rest) in *.
    match goal with |- context [existsb ?f values] => destruct (existsb f values) eqn:Hobj end.
    { exists None. split; [reflexivity | discriminate]. }
    match goal with |- context [existsb ?f (map Object_keys values)] =>
      destruct (existsb f (map Object_keys values)) eqn:Hmax end.
    { exists None. split; [reflexivity | discriminate]. }
    rewrite (shared_keys_run values _ Hobj). cbn [bind].
    set (allKeys := dedupe (List.concat (map Object_keys values)) []).
    destruct (dedupe_spec (List.concat (map Object_keys values)) []) as [Hnd Hin].
    fold allKeys in Hnd, Hin.
    match goal with |- context [if ?b then Ok None else _] => destruct b eqn:Hshared end.
    { exists None. split; [reflexivity | discriminate]. }
    match goal with |- context [if ?b then Ok None else _] => destruct b eqn:Hcommon end.
    { exists None. split; [reflexivity | discriminate]. }
    eexists. split; [reflexivity|]. intros columns Hc. inversion Hc; subst columns.
    clear Hc. pose proof (key_positions_keys allKeys (map Object_keys values)) as Hperm.
    split; [assumption|]. right. split; [|split; [|split]].
    + apply Forall_forall. intros v Hv.
      pose proof (existsb_false _ _ Hobj v Hv) as Hobjv.
      pose proof (existsb_false _ _ Hmax (Object_keys v) (in_map _ _ _ Hv)) as Hmaxv.
      simpl in Hmaxv. rewrite Z.gtb_ltb in Hmaxv. apply Z.ltb_ge in Hmaxv.
      destruct v; simpl in Hobjv; try discriminate;
        (split; [reflexivity | split; [discriminate | exact Hmaxv]]).
    + apply (Permutation_NoDup (Permutation_sym Hperm) Hnd).
    + intros k. split.
      * intros Hk. apply (Permutation_in _ Hperm) in Hk. apply Hin in Hk.
        destruct Hk as [Hk _]. apply in_concat in Hk. destruct Hk as (ik & Hik & Hk).
        apply in_map_iff in Hik. destruct Hik as (v & <- & Hv). eauto.
      * intros (v & Hv & Hk). apply (Permutation_in _ (Permutation_sym Hperm)).
        apply Hin. split; [|intros []]. apply in_concat.
        exists (Object_keys v). split; [now apply in_map | assumption].
    + apply Z.ltb_ge in Hshared.
      set (inAll := fun key =>
             forallb (fun b : bool => b)
               (map (fun v => match has key v with Ok b => b | _ => false end) values)) in *.
      exists (filter inAll allKeys). split; [now apply NoDup_filter|]. split.
      * intros k Hk. apply filter_In in Hk. destruct Hk as [Hk Hall]. split.
        -- now apply (Permutation_in _ (Permutation_sym Hperm)).
        -- intros v Hv. unfold inAll in Hall. rewrite forallb_forall in Hall.
           specialize (Hall _ (in_map _ _ _ Hv)). cbv beta in Hall.
           destruct (has k v) as [[|]| |]; try discriminate. reflexivity.
      * match goal with |- Z.min _ (Z.of_nat ?n) <= _ =>
          replace n with (List.length allKeys)
            by (symmetry; exact (Permutation_length Hperm))
        end.
        assert (Hsame : List.length (filter snd (map (fun key => (key, inAll key)) allKeys))
                        = List.length (filter inAll allKeys)).
        { clear. induction allKeys as [|k l IH]; simpl; [reflexivity|].
          destruct (inAll k); simpl; now rewrite IH. }
        rewrite <- Hsame. exact Hshared.
Qed.

(** X10: [getTableColumnOrder] never throws, and when it gives columns there
    are at least two rows and either every row is an array of one common
    length, with its indices as the columns, or every row is an object or
    an array with at most [maxObjectProperties] keys, and the columns are
    exactly the keys of the rows, each once; at least
    [min(tableMinSharedKeys, columns)] of them are keys of every row. *)
Theorem getTableColumnOrder_columns (table : value)
    (maxObjectProperties tableMinSharedKeys : Z) :
  exists order,
    getTableColumnOrder table maxObjectProperties tableMinSharedKeys = Ok order /\
    forall columns, order = Some columns ->
      (2 <= List.length (table_values table))%nat /\
      ((exists n,
          columns = indices n /\
          Forall (fun v => exists cells, v = VArray cells /\ List.length cells = n)
                 (table_values table))
       \/
       (Forall (fun v => is_object_type v = true /\ v <> VNull /\
                         Z.of_nat (List.length (Object_keys v)) <= maxObjectProperties)
               (table_values table) /\
        NoDup columns /\
        (forall k, In k columns <->
                   exists v, In v (table_values table) /\ In k (Object_keys v)) /\
        exists shared,
          NoDup shared /\
          (forall k, In k shared ->
                     In k columns /\
                     forall v, In v (table_values table) -> has k v = Ok true) /\
          Z.min tableMinSharedKeys (Z.of_nat (List.length columns))
          <= Z.of_nat (List.length shared))).
Proof.
  destruct table as [| | | | | | |items|props];
    try (exists None; split; [reflexivity | discriminate]).
  - apply getTableColumnOrder_array_columns.
  - rewrite getTableColumnOrder_object.
    apply (getTableColumnOrder_array_columns (map snd props)).
Qed.

Lemma anyCommon_true (a b : list string) (x : string) :
  In x a -> In x b -> anyCommon a b = true.
Proof.
  intros Ha Hb. unfold anyCommon. apply existsb_exists.
  exists x. split; [assumption | now apply mem_In].
Qed.

Lemma positions_of_conflict (keys : list (list string)) (row1 row2 : list string)
    (x y : string) (i1 j1 i2 j2 : nat) :
  In row1 keys -> In row2 keys ->
  index_of x row1 = Some i1 -> index_of y row1 = Some j1 -> (i1 < j1)%nat ->
  index_of x row2 = Some i2 -> index_of y row2 = Some j2 -> (j2 < i2)%nat ->
  anyCommon (before (positions_of keys y)) (after (positions_of keys y)) = true /\
  anyCommon (before (positions_of keys x)) (after (positions_of keys x)) = true.
Proof.
  intros Hr1 Hr2 Hx1 Hy1 H1 Hx2 Hy2 H2.
  pose proof (index_of_nth_error _ _ _ Hx1) as Nx1.
  pose proof (index_of_nth_error _ _ _ Hy1) as Ny1.
  pose proof (index_of_nth_error _ _ _ Hx2) as Nx2.
  pose proof (index_of_nth_error _ _ _ Hy2) as Ny2.
  split.
  - apply (anyCommon_true _ _ x); unfold positions_of; cbn [before after];
      apply in_flat_map.
    + exists row1. split; [assumption|]. rewrite Hy1. now apply (In_firstn_nth _ i1).
    + exists row2. split; [assumption|]. rewrite Hy2. apply (In_skipn_nth _ i2); [assumption|lia].
  - apply (anyCommon_true _ _ y); unfold positions_of; cbn [before after];
      apply in_flat_map.
    + exists row2. split; [assumption|]. rewrite Hx2. now apply (In_firstn_nth _ j2).
    + exists row1. split; [assumption|]. rewrite Hx1. apply (In_skipn_nth _ j1); [assumption|lia].
Qed.

Lemma conflicting_order_in_array (items : list value)
    (maxObjectProperties tableMinSharedKeys : Z)
    (row1 row2 : value) (x y : string) (i1 j1 i2 j2 : nat) :
  In row1 (filter representable items) -> In row2 (filter representable items) ->
  index_of x (Object_keys row1) = Some i1 ->
  index_of y (Object_keys row1) = Some j1 -> (i1 < j1)%nat ->
  index_of x (Object_keys row2) = Some i2 ->
  index_of y (Object_keys row2) = Some j2 -> (j2 < i2)%nat ->
  getTableColumnOrder (VArray items) maxObjectProperties tableMinSharedKeys = Ok None.
Proof.
  intros Hr1 Hr2 Hx1 Hy1 H1 Hx2 Hy2 H2.
  unfold getTableColumnOrder. cbn [isArray].
  remember (filter representable items) as values eqn:Hv. clear Hv items.
  destruct (Z.of_nat (List.length values) <=? 1) eqn:Hlen; [reflexivity|].
  destruct values as [|first rest]; [contradiction|].
  destruct first as [| | | | | | |first|props]; try reflexivity.
  - match goal with |- context [forallb ?f ?l] => destruct (forallb f l) eqn:Hall end;
      [exfalso | reflexivity].
    rewrite forallb_forall in Hall.
    pose proof (Hall _ Hr1) as A1. pose proof (Hall _ Hr2) as A2.
    destruct row1 as [| | | | | | |cells1|]; try discriminate.
    destruct row2 as [| | | | | | |cells2|]; try discriminate.
    apply Nat.eqb_eq in A1, A2. cbn [Object_keys] in *.
    rewrite A1 in Hx1, Hy1. rewrite A2 in Hx2, Hy2.
    assert (i1 = i2) by congruence. assert (j1 = j2) by congruence. lia.
  - set (values := VObject props :: rest) in *.
    match goal with |- context [existsb ?f values] => destruct (existsb f values) eqn:Hobj end;
      [reflexivity|].
    match goal with |- context [existsb ?f (map Object_keys values)] =>
      destruct (existsb f (map Object_keys values)) eqn:Hmax end; [reflexivity|].
    rewrite (shared_keys_run values _ Hobj). cbn [bind].
    set (keys := map Object_keys values).
    set (allKeys := dedupe (List.concat keys) []).
    destruct (dedupe_spec (List.concat keys) []) as [_ Hin]. fold allKeys in Hin.
    match goal with |- context [if ?b then Ok None else _] => destruct b end;
      [reflexivity|].
    match goal with |- context [if ?b then Ok None else _] =>
      replace b with true; [reflexivity|] end.
    symmetry. apply existsb_exists.
    assert (Hk1 : In (Object_keys row1) keys) by now apply in_map.
    assert (Hk2 : In (Object_keys row2) keys) by now apply in_map.
    destruct (positions_of_conflict keys _ _ x y i1 j1 i2 j2 Hk1 Hk2 Hx1 Hy1 H1 Hx2 Hy2 H2)
      as [Cy Cx].
    assert (Hne : x <> y).
    { intros ->. assert (i1 = j1) by congruence. lia. }
    assert (Hown : forall k, In k (Object_keys row1) -> In k (own_key_order allKeys)).
    { intros k Hk. apply (Permutation_in _ (Permutation_sym (own_key_order_perm allKeys))).
      apply Hin. split; [|intros []]. apply in_concat. eauto. }
    pose proof (nth_error_In _ _ (index_of_nth_error _ _ _ Hx1)) as Inx.
    pose proof (nth_error_In _ _ (index_of_nth_error _ _ _ Hy1)) as Iny.
    set (isFirst := fun k : string =>
           match allKeys with k0 :: _ => String.eqb k k0 | [] => false end).
    destruct (isFirst y) eqn:Fy.
    + assert (Fx : isFirst x = false).
      { unfold isFirst in *. destruct allKeys as [|k0 ?]; [reflexivity|].
        apply String.eqb_eq in Fy. apply String.eqb_neq. congruence. }
      eexists. split; [apply in_map; apply (Hown x Inx)|].
      cbn [snd]. fold (isFirst x). rewrite Fx. exact Cx.
    + eexists. split; [apply in_map; apply (Hown y Iny)|].
      cbn [snd]. fold (isFirst y). rewrite Fy. exact Cy.
Qed.

(** X11: rows that disagree on the order of two of their keys never form a
    table: when one row lists [x] before [y] and another lists [y] before
    [x], [getTableColumnOrder] returns [null]. *)
Theorem conflicting_key_order_gives_no_table (table : value)
    (maxObjectProperties tableMinSharedKeys : Z)
    (row1 row2 : value) (x y : string) (i1 j1 i2 j2 : nat) :
  In row1 (table_values table) -> In row2 (table_values table) ->
  index_of x (Object_keys row1) = Some i1 ->
  index_of y (Object_keys row1) = Some j1 -> (i1 < j1)%nat ->
  index_of x (Object_keys row2) = Some i2 ->
  index_of y (Object_keys row2) = Some j2 -> (j2 < i2)%nat ->
  getTableColumnOrder table maxObjectProperties tableMinSharedKeys = Ok None.
Proof.
  destruct table as [| | | | | | |items|props]; try reflexivity.
  - apply conflicting_order_in_array.
  - rewrite getTableColumnOrder_object.
    apply (conflicting_order_in_array (map snd props)).
Qed.

Lemma conflicting_key_order_gives_no_table_witness :
  let table :=
    VArray [VObject [("a", VNumber (Int 1)); ("b", VNumber (Int 2))];
            VObject [("b", VNumber (Int 3)); ("a", VNumber (Int 4))]] in
  getTableColumnOrder table 6 1 = Ok None.
Proof.
  apply (conflicting_key_order_gives_no_table
           (VArray [VObject [("a", VNumber (Int 1)); ("b", VNumber (Int 2))];
                    VObject [("b", VNumber (Int 3)); ("a", VNumber (Int 4))]])
           6 1
           (VObject [("a", VNumber (Int 1)); ("b", VNumber (Int 2))])
           (VObject [("b", VNumber (Int 3)); ("a", VNumber (Int 4))])
           "a" "b" 0 1 1 0);
    try reflexivity; try lia; simpl; tauto.
Defined.

(** ** One line or several (lines 467-478, 506-512, 223-240) *)

Lemma one_per_line_newline (c : closure) (open close : string) (items : list string)
    (depth : nat) :
  includes_newline (one_per_line c open close items depth) = true.
Proof.
  unfold one_per_line. rewrite includes_newline_app.
  change (includes_newline (newline ++ ?x)) with true. apply orb_true_r.
Qed.

Lemma formatArray_cases (c : closure) (items : list string) (depth : nat)
    (nestedItems : bool) (keyLength : Z) (allowInline : bool) (text : string) :
  formatArray c items depth nestedItems keyLength allowInline = Ok text ->
  items = [] /\ text = "[]"
  \/ (allowInline = true /\ nestedItems = false /\
      Z.of_nat (List.length items) <= c_maxArrayItems c /\
      Forall (fun item => 2 * len item <= c_maxArrayItemLength2 c) items /\
      keyLength + len text <= c_maxLineLength c /\
      text = "[ " ++ join ", " items ++ " ]" /\
      includes_newline text = false)
  \/ includes_newline text = true.
Proof.
  intros Hrun. unfold formatArray in Hrun.
  destruct items as [|item items]; [left; inversion Hrun; now split|]. right.
  match type of Hrun with (if ?b then _ else _) = _ => destruct b eqn:Hinline end.
  - left. inversion Hrun; subst text. clear Hrun.
    repeat (apply andb_true_iff in Hinline; destruct Hinline as [Hinline ?]).
    repeat match goal with
           | H : negb _ = true |- _ => apply negb_true_iff in H
           | H : (_ <=? _) = true |- _ => apply Z.leb_le in H
           end.
    repeat split; try assumption.
    apply Forall_forall. intros x Hx.
    match goal with H : forallb _ _ = true |- _ =>
      rewrite forallb_forall in H; specialize (H x Hx); now apply Z.leb_le in H end.
  - right.
    match type of Hrun with (if ?b then _ else _) = _ => destruct b end.
    + destruct (findMaxItemsWide _ _ _) as [[w ws]| |]; cbn [bind] in Hrun;
        try discriminate.
      destruct (mapM _ _) as [rows| |]; cbn [bind] in Hrun; try discriminate.
      inversion Hrun. apply one_per_line_newline.
    + inversion Hrun. apply one_per_line_newline.
Qed.

Lemma formatObject_cases (c : closure) (items : list string) (depth : nat)
    (nestedItems : bool) (keyLength : Z) (allowInline : bool) (text : string) :
  formatObject c items depth nestedItems keyLength allowInline = Ok text ->
  items = [] /\ text = "{}"
  \/ (allowInline = true /\ nestedItems = false /\
      Z.of_nat (List.length items) <= c_maxObjectProperties c /\
      keyLength + len text <= c_maxLineLength c /\
      text = "{ " ++ join ", " items ++ " }" /\
      includes_newline text = false)
  \/ includes_newline text = true.
Proof.
  intros Hrun. unfold formatObject in Hrun.
  destruct items as [|item items]; [left; inversion Hrun; now split|]. right.
  match type of Hrun with (if ?b then _ else _) = _ => destruct b eqn:Hinline end.
  - left. inversion Hrun; subst text. clear Hrun.
    repeat (apply andb_true_iff in Hinline; destruct Hinline as [Hinline ?]).
    repeat match goal with
           | H : negb _ = true |- _ => apply negb_true_iff in H
           | H : (_ <=? _) = true |- _ => apply Z.leb_le in H
           end.
    repeat split; assumption.
  - right. inversion Hrun. apply one_per_line_newline.
Qed.

(** X12: [formatArray] puts an array on one line only when everything
    allows it: a text without a line feed, for at least one item, means
    that [allowInline] holds, no two items are containers
    ([nestedItems] is off), there are at most [maxArrayItems] items, each
    at most [maxArrayItemLength] long, and the line with the key in front
    of it is at most [maxLineLength] long; the text is then the items
    between [[ ] and [ ]], separated by a comma and a space. *)
Theorem formatArray_single_line_only_when_allowed (c : closure) (items : list string)
    (depth : nat) (nestedItems : bool) (keyLength : Z) (allowInline : bool)
    (text : string) :
  formatArray c items depth nestedItems keyLength allowInline = Ok text ->
  includes_newline text = false ->
  items <> [] ->
  allowInline = true /\ nestedItems = false /\
  Z.of_nat (List.length items) <= c_maxArrayItems c /\
  Forall (fun item => 2 * len item <= c_maxArrayItemLength2 c) items /\
  keyLength + len text <= c_maxLineLength c /\
  text = "[ " ++ join ", " items ++ " ]".
Proof.
  intros Hrun Hnl Hne.
  destruct (formatArray_cases _ _ _ _ _ _ _ Hrun)
    as [(He & _)|[(H1 & H2 & H3 & H4 & H5 & H6 & _)|Hm]].
  - contradiction.
  - repeat split; assumption.
  - congruence.
Qed.

Lemma formatArray_single_line_only_when_allowed_witness :
  let c := capture no_options in
  formatArray c ["1"; "2"; "3"] 0 false 0 true = Ok "[ 1, 2, 3 ]" /\
  (true = true /\ false = false /\
   Z.of_nat (List.length ["1"; "2"; "3"]) <= c_maxArrayItems c /\
   Forall (fun item => 2 * len item <= c_maxArrayItemLength2 c) ["1"; "2"; "3"] /\
   0 + len "[ 1, 2, 3 ]" <= c_maxLineLength c /\
   "[ 1, 2, 3 ]" = "[ " ++ join ", " ["1"; "2"; "3"] ++ " ]").
Proof.
  split; [reflexivity|].
  apply (formatArray_single_line_only_when_allowed (capture no_options)
           ["1"; "2"; "3"] 0 false 0 true "[ 1, 2, 3 ]");
    [reflexivity | reflexivity | discriminate].
Defined.

(** X13: the same for [formatObject]: an object is on one line only when
    [allowInline] holds, no property is marked as nested, there are at
    most [maxObjectProperties] properties, and the line with the key in
    front of it is at most [maxLineLength] long. *)
Theorem formatObject_single_line_only_when_allowed (c : closure) (items : list string)
    (depth : nat) (nestedItems : bool) (keyLength : Z) (allowInline : bool)
    (text : string) :
  formatObject c items depth nestedItems keyLength allowInline = Ok text ->
  includes_newline text = false ->
  items <> [] ->
  allowInline = true /\ nestedItems = false /\
  Z.of_nat (List.length items) <= c_maxObjectProperties c /\
  keyLength + len text <= c_maxLineLength c /\
  text = "{ " ++ join ", " items ++ " }".
Proof.
  intros Hrun Hnl Hne.
  destruct (formatObject_cases _ _ _ _ _ _ _ Hrun)
    as [(He & _)|[(H1 & H2 & H3 & H4 & H5 & _)|Hm]].
  - contradiction.
  - repeat split; assumption.
  - congruence.
Qed.

Lemma formatObject_single_line_only_when_allowed_witness :
  let c := capture no_options in
  let items := [js "'a': 1"; js "'b': 2"] in
  let text := js "{ 'a': 1, 'b': 2 }" in
  formatObject c items 0 false 0 true = Ok text /\
  (true = true /\ false = false /\
   Z.of_nat (List.length items) <= c_maxObjectProperties c /\
   0 + len text <= c_maxLineLength c /\
   text = "{ " ++ join ", " items ++ " }").
Proof.
  split; [reflexivity|].
  apply (formatObject_single_line_only_when_allowed (capture no_options)
           [js "'a': 1"; js "'b': 2"] 0 false 0 true (js "{ 'a': 1, 'b': 2 }"));
    [reflexivity | reflexivity | discriminate].
Defined.

Lemma array_flags_spec (items : list value) :
  array_flags items
  = (existsb is_object_type items,
     (2 <=? List.length (filter is_object_type items))%nat).
Proof.
  unfold array_flags.
  enough (H : forall nested multiple,
             fold_left (fun '(nested, multiple) item =>
                          (nested || is_object_type item,
                           multiple || (nested && is_object_type item)))
                       items (nested, multiple)
             = (nested || existsb is_object_type items,
                multiple || (nested && existsb is_object_type items)
                || (2 <=? List.length (filter is_object_type items))%nat)).
  { rewrite H. reflexivity. }
  induction items as [|item items IH]; intros nested multiple; simpl.
  - now rewrite !orb_false_r, andb_false_r, orb_false_r.
  - rewrite IH. destruct (is_object_type item); simpl.
    + destruct nested, multiple; simpl; try reflexivity;
        destruct (filter is_object_type items) as [|v l] eqn:Hf; simpl;
        try reflexivity;
        try (destruct (existsb is_object_type items) eqn:He; [|reflexivity];
             apply existsb_exists in He; destruct He as (x & Hx & Hobj);
             assert (Hin : In x (filter is_object_type items))
               by (apply filter_In; now split);
             rewrite Hf in Hin; contradiction);
        try (assert (He : existsb is_object_type items = true)
               by (apply existsb_exists; exists v; apply filter_In;
                   rewrite Hf; now left);
             rewrite He; reflexivity).
    + now rewrite !orb_false_r, andb_false_r, orb_false_r.
Qed.

Lemma mapM_length {A B : Type} (f : A -> outcome B) (l : list A) (rs : list B) :
  mapM f l = Ok rs -> List.length rs = List.length l.
Proof.
  revert rs. induction l as [|a l IH]; intros rs H; simpl in H.
  - now inversion H.
  - destruct (f a); cbn [bind] in H; try discriminate.
    destruct (mapM f l) as [bs| |]; cbn [bind] in H; try discriminate.
    inversion H. simpl. now rewrite (IH bs).
Qed.

Lemma length_indexed {A : Type} (l : list A) : List.length (indexed l) = List.length l.
Proof.
  unfold indexed. rewrite length_combine, length_seq. apply Nat.min_id.
Qed.

Lemma tableOfArrays_length (c : closure) (fuel : nat) (rowArrs : list value)
    (columnCount : nat) (table : list string) :
  tableOfArrays c fuel rowArrs columnCount = Ok (Some table) ->
  List.length table = List.length rowArrs.
Proof.
  destruct fuel as [|fuel]; [discriminate|]. cbn [tableOfArrays].
  destruct (mapM_opt _ _) as [[columns|]| |]; cbn [bind]; try discriminate.
  destruct (mapM _ (indexed rowArrs)) as [rows| |] eqn:E; cbn [bind]; try discriminate.
  intros H. inversion H; subst table.
  apply mapM_length in E. now rewrite E, length_indexed.
Qed.

Lemma tableOfObjects_length (c : closure) (fuel : nat) (rowObjs : list value)
    (columnOrder : list string) (table : list string) :
  tableOfObjects c fuel rowObjs columnOrder = Ok (Some table) ->
  List.length table = List.length rowObjs.
Proof.
  destruct fuel as [|fuel]; [discriminate|]. cbn [tableOfObjects].
  destruct (mapM_opt _ _) as [[columns|]| |]; cbn [bind]; try discriminate.
  destruct (mapM _ (indexed rowObjs)) as [rows| |] eqn:E; cbn [bind]; try discriminate.
  intros H. inversion H; subst table.
  apply mapM_length in E. now rewrite E, length_indexed.
Qed.

Lemma formatArray_nested_multiline (c : closure) (items : list string) (depth : nat)
    (keyLength : Z) (allowInline : bool) (text : string) :
  formatArray c items depth true keyLength allowInline = Ok text ->
  items <> [] -> includes_newline text = true.
Proof.
  intros Hrun Hne.
  destruct (formatArray_cases _ _ _ _ _ _ _ Hrun) as [(He & _)|[(_ & H & _)|Hm]];
    [contradiction | discriminate | assumption].
Qed.

(** X14: an array that holds two or more containers is never put on one
    line, as a table or otherwise; [null] counts as a container here, as
    [typeof null] is ['object'].  (No [replace] callback.) *)
Theorem array_of_containers_is_multiline (c : closure) (fuel : nat) (key : string)
    (items : list value) (depth : nat) (parentObj : value) (keyLength : Z)
    (allowTables : bool) (p : processed) :
  c_replaceFunc c = None ->
  processValue c fuel key (VArray items) depth parentObj keyLength allowTables
  = Ok (Some p) ->
  (2 <= List.length (filter is_object_type items))%nat ->
  includes_newline (result p) = true.
Proof.
  intros Hr Hrun Htwo.
  assert (Hlen : (2 <= List.length items)%nat).
  { pose proof (filter_length_le is_object_type items). lia. }
  destruct fuel as [|fuel]; [discriminate|].
  cbn [processValue] in Hrun. unfold apply_replace in Hrun. rewrite Hr in Hrun.
  assert (Hfallback :
    forall q,
      (rendered <- mapM (fun '(i, item) =>
                     p <- processValue c fuel (nat_to_string i) item
                            (depth + 1) (VArray items) 0 true ;;
                     match p with
                     | Some p => Ok (result p)
                     | None => no_result
                     end)
                   (indexed items) ;;
       let '(nested, multipleNestedItems) := array_flags items in
       r <- formatArray c rendered depth multipleNestedItems keyLength
              (inline_allowed c parentObj key (VArray items)) ;;
       Ok (Some {| result := r; nested := nested |})) = Ok (Some q) ->
      includes_newline (result q) = true).
  { intros q Hq.
    destruct (mapM _ (indexed items)) as [rendered| |] eqn:Hm; cbn [bind] in Hq;
      try discriminate.
    apply mapM_length in Hm. rewrite length_indexed in Hm.
    rewrite array_flags_spec in Hq.
    replace (2 <=? List.length (filter is_object_type items))%nat with true in Hq
      by (symmetry; now apply Nat.leb_le).
    destruct (formatArray c rendered depth true keyLength _) as [text| |] eqn:Hf;
      cbn [bind] in Hq; try discriminate.
    inversion Hq; subst q. cbn [result].
    apply (formatArray_nested_multiline _ _ _ _ _ _ Hf).
    intros ->. simpl in Hm. lia. }
  destruct (c_tableArrays c && allowTables && table_allowed c parentObj key (VArray items)).
  - destruct (getTableColumnOrder _ _ _) as [[columnOrder|]| |]; cbn [bind] in Hrun;
      try discriminate; [|now apply Hfallback].
    match type of Hrun with
    | context [if ?b then tableOfArrays ?c ?f ?r ?n else tableOfObjects _ _ _ ?o] =>
        destruct (if b then tableOfArrays c f r n else tableOfObjects c f r o)
          as [[rows|]| |] eqn:Hrows
    end; cbn [bind] in Hrun; try discriminate; [|now apply Hfallback].
    assert (Hrl : List.length rows = List.length items).
    { match type of Hrows with (if ?b then _ else _) = _ => destruct b end;
        [apply tableOfArrays_length in Hrows | apply tableOfObjects_length in Hrows];
        exact Hrows. }
    destruct (forallb _ rows); [|now apply Hfallback].
    destruct (formatArray c rows depth true keyLength true) as [text| |] eqn:Hf;
      cbn [bind] in Hrun; try discriminate.
    inversion Hrun; subst p. cbn [result].
    apply (formatArray_nested_multiline _ _ _ _ _ _ Hf).
    intros ->. simpl in Hrl. lia.
  - cbn [bind] in Hrun. now apply Hfallback.
Qed.

Lemma array_of_containers_is_multiline_witness :
  let c := capture no_options in
  let p := {| result := js "[$  null,$  null$]"; nested := true |} in
  processValue c 2 EmptyString (VArray [VNull; VNull]) 0
    (root_holder (VArray [VNull; VNull])) 0 true = Ok (Some p) /\
  includes_newline (result p) = true.
Proof.
  split; [reflexivity|].
  apply (array_of_containers_is_multiline (capture no_options) 2 EmptyString
           [VNull; VNull] 0 (root_holder (VArray [VNull; VNull])) 0 true);
    [reflexivity | reflexivity | simpl; lia].
Defined.

(** ** The columns and rows of a table (lines 334-345, 357-369, 424-432, 442-455) *)

Lemma plain_cells_column_gen (c : closure) (cell : value -> outcome (option processed)) :
  forall (col : list value) (width : option Z) (numeric : bool)
         (width' : option Z) (cells : list (option string)) (numeric' : bool),
    plain_cells c cell col width numeric = Ok (Some (width', cells, numeric')) ->
    Forall2 (fun v cl => is_undefined v = true <-> cl = None) col cells /\
    (forall s, In (Some s) cells ->
               len s <= nullish width' 0 /\ len s <= c_maxLineLength c /\
               includes_newline s = false /\
               (numeric' = true -> is_numeric s = true)) /\
    nullish width 0 <= nullish width' 0 /\
    (width' = width \/ exists s, In (Some s) cells /\ width' = Some (len s)) /\
    (numeric' = true -> numeric = true).
Proof.
  induction col as [|v col IH]; intros width numeric width' cells numeric' Hrun;
    simpl in Hrun.
  - inversion Hrun; subst. split; [constructor|]. split; [intros s []|].
    split; [lia|]. split; [now left | tauto].
  - destruct (is_undefined v) eqn:Hv.
    + destruct (plain_cells c cell col width numeric) as [[[[w cs] num]|]| |] eqn:Hrest;
        cbn [bind] in Hrun; try discriminate.
      inversion Hrun; subst. clear Hrun.
      destruct (IH _ _ _ _ _ Hrest) as (H1 & H2 & H3 & H4 & H5).
      split; [constructor; [tauto | assumption]|].
      split; [intros s [Hs|Hs]; [discriminate | now apply H2]|].
      split; [assumption|]. split; [|assumption].
      destruct H4 as [H4|(s & Hs & H4)]; [now left | right].
      exists s. split; [now right | assumption].
    + destruct (cell v) as [[p|]| |]; cbn [bind] in Hrun; try discriminate.
      cbv zeta in Hrun.
      destruct ((len (result p) >? c_maxLineLength c) || includes_newline (result p))
        eqn:Hbad; [discriminate|].
      apply orb_false_iff in Hbad. destruct Hbad as [Hwide Hnl].
      rewrite Z.gtb_ltb in Hwide. apply Z.ltb_ge in Hwide.
      destruct (plain_cells c cell col _ _) as [[[[w cs] num]|]| |] eqn:Hrest;
        cbn [bind] in Hrun; try discriminate.
      inversion Hrun; subst. clear Hrun.
      destruct (IH _ _ _ _ _ Hrest) as (H1 & H2 & H3 & H4 & H5).
      cbn [nullish] in H3.
      split; [constructor; [split; [congruence | discriminate] | assumption]|].
      split.
      * intros s [Hs|Hs]; [|now apply H2].
        inversion Hs; subst s. repeat split; try assumption; try lia.
        intros Hn. specialize (H5 Hn). apply andb_true_iff in H5. tauto.
      * split; [lia|]. split.
        -- destruct H4 as [H4|(s & Hs & H4)].
           ++ subst width'. 
              destruct (Z.max_spec (nullish width 0) (len (result p))) as [[Hlt Hm]|[Hge Hm]].
              ** right. exists (result p). split; [now left | now rewrite Hm].
              ** destruct width as [w0|].
                 --- left. cbn [nullish] in *. now rewrite Hm.
                 --- right. exists (result p). split; [now left|].
                     cbn [nullish] in *. pose proof (len_nonneg (result p)).
                     f_equal. lia.
           ++ right. exists s. split; [now right | assumption].
        -- intros Hn. specialize (H5 Hn). apply andb_true_iff in H5. tauto.
Qed.

(** X15: a column of plain cells in [tableOfArrays] (lines 334-345).  When
    the loop ends without giving the table up, the column has a cell for
    every row, a hole exactly where the row has [undefined]; every cell
    is a single line of at most [maxLineLength] characters; the width of
    the column is the length of its longest cell, and is unset only when
    the column has no cell at all; and the column counts as numeric only
    when every cell reads as a number. *)
Theorem plain_cells_column (c : closure) (cell : value -> outcome (option processed))
    (col : list value) (width : option Z) (cells : list (option string))
    (numeric : bool) :
  plain_cells c cell col None true = Ok (Some (width, cells, numeric)) ->
  Forall2 (fun v cl => is_undefined v = true <-> cl = None) col cells /\
  (forall s, In (Some s) cells ->
             len s <= nullish width 0 /\ len s <= c_maxLineLength c /\
             includes_newline s = false /\
             (numeric = true -> is_numeric s = true)) /\
  match width with
  | Some w => exists s, In (Some s) cells /\ len s = w
  | None => Forall (fun cl => cl = None) cells
  end.
Proof.
  intros Hrun.
  destruct (plain_cells_column_gen c cell _ _ _ _ _ _ Hrun) as (H1 & H2 & _ & H4 & _).
  split; [assumption|]. split; [assumption|].
  destruct width as [w|].
  - destruct H4 as [H4|(s & Hs & H4)]; [discriminate|].
    exists s. split; [assumption | congruence].
  - apply Forall_forall. intros [s|] Hin; [|reflexivity].
    destruct H4 as [_|(s' & _ & H4)]; [|discriminate].
    exfalso. clear H1 H2.
    revert Hrun Hin. generalize true as numeric0. revert cells numeric.
    induction col as [|v col IH]; intros cells numeric numeric0 Hrun Hin; simpl in Hrun.
    + inversion Hrun; subst. contradiction.
    + destruct (is_undefined v).
      * destruct (plain_cells c cell col None numeric0) as [[[[w cs] num]|]| |] eqn:Hrest;
          cbn [bind] in Hrun; try discriminate.
        inversion Hrun; subst. destruct Hin as [Hin|Hin]; [discriminate|].
        exact (IH _ _ _ Hrest Hin).
      * destruct (cell v) as [[p|]| |]; cbn [bind] in Hrun; try discriminate.
        cbv zeta in Hrun.
        destruct ((len (result p) >? c_maxLineLength c) || includes_newline (result p));
          [discriminate|].
        destruct (plain_cells c cell col _ _) as [[[[w cs] num]|]| |] eqn:Hrest;
          cbn [bind] in Hrun; try discriminate.
        inversion Hrun; subst.
        destruct (plain_cells_column_gen c cell _ _ _ _ _ _ Hrest) as (_ & _ & H3 & H4 & _).
        destruct H4 as [H4|(s' & _ & H4)]; discriminate.
Qed.

Lemma plain_cells_column_witness :
  let c := capture no_options in
  let cell := fun v => processValue c 1 "0" v 0 VNull 0 false in
  let col := [VNumber (Int 1); VUndefined; VNumber (Int 250)] in
  plain_cells c cell col None true = Ok (Some (Some 3, [Some "1"; None; Some "250"], true)) /\
  Forall2 (fun v cl => is_undefined v = true <-> cl = None) col
          [Some "1"; None; Some "250"] /\
  (forall s, In (Some s) [Some "1"; None; Some "250"] ->
             len s <= nullish (Some 3) 0 /\ len s <= c_maxLineLength c /\
             includes_newline s = false /\
             (true = true -> is_numeric s = true)) /\
  exists s, In (Some s) [Some "1"; None; Some "250"] /\ len s = 3.
Proof.
  split; [reflexivity|].
  apply (plain_cells_column (capture no_options)
           (fun v => processValue (capture no_options) 1 "0" v 0 VNull 0 false)
           [VNumber (Int 1); VUndefined; VNumber (Int 250)]
           (Some 3) [Some "1"; None; Some "250"] true).
  reflexivity.
Defined.

Lemma table_row_parts (open close : string) (columns : list column) (i : nat)
    (lastFilledColumn : option Z) (stop : Z) :
  table_row open close columns i lastFilledColumn stop
  = (parts <- mapM (row_part columns i lastFilledColumn) (seq 0 (Z.to_nat stop)) ;;
     Ok (open ++ join EmptyString parts ++ close)).
Proof. reflexivity. Qed.

Lemma row_part_shift (col : column) (columns : list column) (i : nat) (l : Z) (j : nat) :
  row_part (col :: columns) i (Some l) (S j) = row_part columns i (Some (l - 1)) j.
Proof.
  unfold row_part. cbn [nth_error].
  replace (Z.of_nat (S j) =? l) with (Z.of_nat j =? l - 1); [reflexivity|].
  destruct (Z.eqb_spec (Z.of_nat j) (l - 1)), (Z.eqb_spec (Z.of_nat (S j)) l);
    try reflexivity; lia.
Qed.

Lemma mapM_map {A B C : Type} (g : A -> B) (f : B -> outcome C) (l : list A) :
  mapM f (map g l) = mapM (fun a => f (g a)) l.
Proof.
  induction l as [|a l IH]; simpl; [reflexivity | now rewrite IH].
Qed.

Lemma mapM_ext {A B : Type} (f g : A -> outcome B) (l : list A) :
  (forall a, f a = g a) -> mapM f l = mapM g l.
Proof.
  intros H. induction l as [|a l IH]; simpl; [reflexivity | now rewrite H, IH].
Qed.

Lemma len_join_empty (parts : list string) :
  len (join EmptyString parts) = sum (map len parts).
Proof.
  unfold join. induction parts as [|p parts IH]; [reflexivity|].
  rewrite map_cons, sum_cons. destruct parts as [|q parts].
  - simpl. unfold sum. simpl. lia.
  - change (String.concat EmptyString (p :: q :: parts))
      with (p ++ EmptyString ++ String.concat EmptyString (q :: parts)).
    rewrite len_app. cbn [append]. rewrite IH. reflexivity.
Qed.

Lemma len_spaces (n : nat) : len (repeat_nat " " n) = Z.of_nat n.
Proof. unfold len. now rewrite length_repeat_space. Qed.

Lemma row_parts_length (i : nat) (columns : list column) (widths : list Z) :
  Forall2 (fun col w =>
             fst col = Some w /\ 0 <= w /\
             forall s, nth i (snd col) None = Some s -> len s <= w + 1)
          columns widths ->
  forall l,
  exists parts,
    mapM (row_part columns i (Some l)) (seq 0 (List.length columns)) = Ok parts /\
    sum (map len parts)
    = sum widths + 2 * Z.of_nat (List.length widths)
      - (if 0 <=? l
         then match cell_at columns i (Z.to_nat l) with Some _ => 1 | None => 0 end
         else 0).
Proof.
  induction 1 as [|[width cells] w columns widths (Hw & Hpos & Hfit) _ IH]; intros l.
  - exists []. split; [reflexivity|]. unfold cell_at.
    destruct (Z.to_nat l); simpl; destruct (0 <=? l); reflexivity.
  - cbn [fst snd] in Hw, Hfit. subst width.
    cbn [List.length seq mapM].
    rewrite <- seq_shift, mapM_map.
    rewrite (mapM_ext _ (row_part columns i (Some (l - 1))))
      by (intros j; apply row_part_shift).
    destruct (IH (l - 1)) as (parts & -> & Hsum).
    assert (Hhit :
      (if 0 <=? l
       then match cell_at ((Some w, cells) :: columns) i (Z.to_nat l) with
            | Some _ => 1 | None => 0 end
       else 0)
      = (if l =? 0 then match nth i cells None with Some _ => 1 | None => 0 end else 0)
        + (if 0 <=? l - 1
           then match cell_at columns i (Z.to_nat (l - 1)) with Some _ => 1 | None => 0 end
           else 0)).
    { destruct (Z.eqb_spec l 0) as [->|Hl0].
      - simpl. unfold cell_at. simpl. lia.
      - destruct (Z.leb_spec 0 l) as [Hl|Hl].
        + destruct (Z.leb_spec 0 (l - 1)); [|lia].
          replace (Z.to_nat l) with (S (Z.to_nat (l - 1))) by lia.
          unfold cell_at. cbn [nth_error]. lia.
        + destruct (Z.leb_spec 0 (l - 1)); [lia | reflexivity]. }
    rewrite Hhit. clear Hhit.
    unfold row_part at 1. cbn [nth_error].
    destruct (nth i cells None) as [cell|] eqn:Hcell.
    + specialize (Hfit cell eq_refl).
      cbn [option_map str_repeat_nan]. unfold str_repeat.
      destruct (w - len cell + 1 <? 0) eqn:Hneg; [apply Z.ltb_lt in Hneg; lia|].
      cbn [bind]. eexists. split; [reflexivity|].
      rewrite map_cons, !sum_cons, Hsum, !len_app, len_spaces.
      cbn [List.length]. change (Z.of_nat 0) with 0. rewrite (Z.eqb_sym 0 l).
      destruct (l =? 0); [change (len EmptyString) with 0 | change (len ",") with 1]; lia.
    + cbn [option_map str_repeat_nan]. unfold str_repeat.
      destruct (w + 2 <? 0) eqn:Hneg; [apply Z.ltb_lt in Hneg; lia|].
      cbn [bind]. eexists. split; [reflexivity|].
      rewrite map_cons, !sum_cons, Hsum, len_spaces. cbn [List.length].
      destruct (l =? 0); lia.
Qed.

(** X16: the rows of a padded table are equally long.  For columns with
    their widths set, where no cell of row [i] is longer than the width of
    its column plus one, and a cell in the last filled column of the row,
    [table_row] returns a row and its length is the sum of the widths plus
    two per column, less the one comma the last filled column does
    without, between the brackets: it does not depend on the row. *)
Theorem table_row_length (open close : string) (columns : list column)
    (widths : list Z) (i : nat) (lastFilledColumn : Z) :
  Forall2 (fun col w =>
             fst col = Some w /\ 0 <= w /\
             forall s, nth i (snd col) None = Some s -> len s <= w + 1)
          columns widths ->
  0 <= lastFilledColumn ->
  (exists s, cell_at columns i (Z.to_nat lastFilledColumn) = Some s) ->
  exists text,
    table_row open close columns i (Some lastFilledColumn)
              (Z.of_nat (List.length columns)) = Ok text /\
    len text
    = len open + (sum widths + 2 * Z.of_nat (List.length widths) - 1) + len close.
Proof.
  intros Hcols Hl (s & Hs). rewrite table_row_parts, Nat2Z.id.
  destruct (row_parts_length i columns widths Hcols lastFilledColumn)
    as (parts & -> & Hsum).
  cbn [bind]. eexists. split; [reflexivity|].
  rewrite !len_app, len_join_empty, Hsum, Hs.
  destruct (Z.leb_spec 0 lastFilledColumn); lia.
Qed.

Lemma table_row_length_witness :
  let columns : list column :=
    [(Some 2, [Some "1"; Some "22"]); (Some 1, [Some "3"; None])] in
  table_row "[ " "]" columns 0 (Some 1) 2 = Ok "[ 1,  3 ]" /\
  table_row "[ " "]" columns 1 (Some 0) 2 = Ok "[ 22    ]" /\
  exists text,
    table_row "[ " "]" columns 1 (Some 0) (Z.of_nat (List.length columns)) = Ok text /\
    len text = len "[ " + (sum [2; 1] + 2 * Z.of_nat (List.length [2; 1]) - 1) + len "]".
Proof.
  split; [reflexivity | split; [reflexivity|]].
  apply (table_row_length "[ " "]"
           [(Some 2, [Some "1"; Some "22"]); (Some 1, [Some "3"; None])]
           [2; 1] 1 0).
  - repeat constructor; simpl; try lia; intros s H; inversion H; subst; vm_compute;
      discriminate.
  - lia.
  - exists "22". reflexivity.
Defined.

(** ** Only whitespace is added (lines 174-293, 460-515, against the built-in) *)

Lemma squeezes_to_nil : squeezes_to EmptyString EmptyString.
Proof. intros rest. reflexivity. Qed.

Lemma squeezes_to_app (a b u w : string) :
  squeezes_to a u -> squeezes_to b w -> squeezes_to (a ++ b) (u ++ w).
Proof.
  intros Ha Hb rest. rewrite !append_assoc_string. now rewrite Ha, Hb.
Qed.

Lemma squeezes_to_blank (t : string) : is_blank t = true -> squeezes_to t EmptyString.
Proof.
  induction t as [|ch t IH]; intros H rest; [reflexivity|].
  simpl in H. apply andb_true_iff in H. destruct H as [Hch Ht].
  cbn [append]. unfold squeeze. cbn [squeeze_from]. rewrite Hch.
  apply (IH Ht).
Qed.

Lemma squeezes_to_squeeze (t u : string) : squeezes_to t u -> squeeze t = u.
Proof.
  intros H. specialize (H EmptyString). rewrite append_empty_r in H.
  rewrite H. apply append_empty_r.
Qed.

Lemma is_blank_app (a b : string) : is_blank (a ++ b) = is_blank a && is_blank b.
Proof.
  induction a as [|ch a IH]; simpl; [reflexivity|].
  now rewrite IH, andb_assoc.
Qed.

Lemma is_blank_repeat (s : string) (n : nat) :
  is_blank s = true -> is_blank (repeat_nat s n) = true.
Proof.
  intros Hs. induction n as [|n IH]; [reflexivity|].
  simpl. now rewrite is_blank_app, Hs, IH.
Qed.

Lemma is_blank_spaces (n : nat) : is_blank (repeat_nat " " n) = true.
Proof. now apply is_blank_repeat. Qed.

Lemma squeeze_quote_char (ch : ascii) (rest : string) :
  squeeze_from true false (quote_char ch ++ rest)
  = quote_char ch ++ squeeze_from true false rest.
Proof.
  destruct ch as [[] [] [] [] [] [] [] []]; reflexivity.
Qed.

Lemma squeeze_quote_body (s rest : string) :
  squeeze_from true false (quote_body s ++ dquote ++ rest)
  = quote_body s ++ dquote ++ squeeze rest.
Proof.
  induction s as [|ch s IH]; [reflexivity|].
  cbn [quote_body]. rewrite !append_assoc_string, squeeze_quote_char. now rewrite IH.
Qed.

Lemma squeezes_to_QuoteJSONString (s : string) :
  squeezes_to (QuoteJSONString s) (QuoteJSONString s).
Proof.
  intros rest. unfold QuoteJSONString. rewrite !append_assoc_string.
  unfold squeeze. change (dquote ++ ?x) with (String "034"%char x).
  cbn [squeeze_from]. change (is_ws "034") with false. cbv iota.
  change (Ascii.eqb "034" "034") with true.
  f_equal. apply squeeze_quote_body.
Qed.

Lemma squeezes_to_uint (d : Decimal.uint) :
  squeezes_to (NilEmpty.string_of_uint d) (NilEmpty.string_of_uint d).
Proof.
  induction d; intros rest; try reflexivity;
    cbn [NilEmpty.string_of_uint append]; unfold squeeze; cbn [squeeze_from];
    (match goal with |- context [is_ws ?ch] => change (is_ws ch) with false end);
    cbv iota;
    (match goal with |- context [Ascii.eqb ?a ?b] => change (Ascii.eqb a b) with false end);
    f_equal; apply IHd.
Qed.

Lemma squeezes_to_number (n : number) : squeezes_to (number_json n) (number_json n).
Proof.
  destruct n as [z| | |]; try (intros rest; reflexivity).
  unfold number_json, Z_to_string, NilZero.string_of_int, NilZero.string_of_uint.
  destruct (Z.to_int z) as [d|d].
  - destruct d; try apply squeezes_to_uint. intros rest; reflexivity.
  - apply (squeezes_to_app "-" _ "-" _); [intros rest; reflexivity|].
    destruct d; try apply squeezes_to_uint. intros rest; reflexivity.
Qed.

Lemma join_cons_fold (sep u : string) (us : list string) :
  join sep (u :: us) = u ++ fold_right (fun x acc => sep ++ x ++ acc) EmptyString us.
Proof.
  unfold join. revert u. induction us as [|v us IH]; intros u.
  - simpl. now rewrite append_empty_r.
  - change (String.concat sep (u :: v :: us)) with (u ++ sep ++ String.concat sep (v :: us)).
    now rewrite IH.
Qed.

Lemma squeezes_to_separated (sep sep' : string) (items us : list string) :
  squeezes_to sep sep' ->
  Forall2 squeezes_to items us ->
  squeezes_to (fold_right (fun x acc => sep ++ x ++ acc) EmptyString items)
              (fold_right (fun x acc => sep' ++ x ++ acc) EmptyString us).
Proof.
  intros Hsep. induction 1 as [|item u items us Hu _ IH]; simpl.
  - apply squeezes_to_nil.
  - apply squeezes_to_app; [assumption|]. now apply squeezes_to_app.
Qed.

Lemma squeezes_to_join (sep sep' : string) (items us : list string) :
  squeezes_to sep sep' ->
  Forall2 squeezes_to items us ->
  squeezes_to (join sep items) (join sep' us).
Proof.
  intros Hsep H. destruct H as [|item u items us Hu H].
  - apply squeezes_to_nil.
  - rewrite !join_cons_fold. apply squeezes_to_app; [assumption|].
    now apply squeezes_to_separated.
Qed.

Lemma one_per_line_squeeze (c : closure) (open close uopen uclose : string)
    (items us : list string) (depth : nat) :
  is_blank (c_indent c) = true ->
  squeezes_to open uopen -> squeezes_to close uclose ->
  Forall2 squeezes_to items us ->
  squeezes_to (one_per_line c open close items depth) (uopen ++ join "," us ++ uclose).
Proof.
  intros Hind Hopen Hclose Hitems. unfold one_per_line.
  pose proof (squeezes_to_blank newline eq_refl) as Hnl.
  pose proof (squeezes_to_blank _ (is_blank_repeat _ (depth + 1) Hind)) as H1.
  pose proof (squeezes_to_blank _ (is_blank_repeat _ depth Hind)) as H0.
  apply squeezes_to_app; [assumption|].
  apply (squeezes_to_app newline _ EmptyString (join "," us ++ uclose) Hnl).
  apply (squeezes_to_app _ _ EmptyString (join "," us ++ uclose) H1).
  apply squeezes_to_app.
  - apply squeezes_to_join; [|assumption].
    apply (squeezes_to_app "," _ "," EmptyString); [intros rest; reflexivity|].
    apply (squeezes_to_app newline _ EmptyString EmptyString Hnl H1).
  - apply (squeezes_to_app newline _ EmptyString uclose Hnl).
    apply (squeezes_to_app _ _ EmptyString uclose H0 Hclose).
Qed.

Lemma str_repeat_nan_blank (count : option Z) (pad : string) :
  str_repeat_nan " " count = Ok pad -> is_blank pad = true.
Proof.
  destruct count as [n|]; simpl.
  - unfold str_repeat. destruct (n <? 0); [discriminate|].
    intros H; inversion H. apply is_blank_spaces.
  - intros H; now inversion H.
Qed.

Lemma joinColumns_from_squeeze (rest urest : list string) :
  Forall2 squeezes_to rest urest ->
  forall (prev : string) (widths : list Z) (tail : string),
    joinColumns_from prev rest widths = Ok tail ->
    squeezes_to tail (fold_right (fun x acc => "," ++ x ++ acc) EmptyString urest).
Proof.
  induction 1 as [|item u rest urest Hu _ IH]; intros prev widths tail Hrun;
    simpl in Hrun.
  - inversion Hrun. apply squeezes_to_nil.
  - destruct (str_repeat_nan " " _) as [pad| |] eqn:Hpad; cbn [bind] in Hrun;
      try discriminate.
    destruct (joinColumns_from item rest (List.tl widths)) as [tail'| |] eqn:Htail;
      cbn [bind] in Hrun; try discriminate.
    inversion Hrun; subst tail. cbn [fold_right].
    apply (squeezes_to_app "," _ "," _); [intros r; reflexivity|].
    apply (squeezes_to_app pad _ EmptyString _).
    + apply squeezes_to_blank. exact (str_repeat_nan_blank _ _ Hpad).
    + apply squeezes_to_app; [assumption|]. exact (IH _ _ _ Htail).
Qed.

Lemma joinColumns_squeeze (row urow : list string) (widths : list Z) (line : string) :
  Forall2 squeezes_to row urow ->
  joinColumns row widths = Ok line ->
  squeezes_to line (join "," urow).
Proof.
  intros H Hrun. destruct H as [|first u rest urest Hu H]; simpl in Hrun.
  - inversion Hrun. apply squeezes_to_nil.
  - destruct (joinColumns_from first rest widths) as [tail| |] eqn:Htail;
      cbn [bind] in Hrun; try discriminate.
    inversion Hrun; subst line. rewrite join_cons_fold.
    apply squeezes_to_app; [assumption|].
    exact (joinColumns_from_squeeze _ _ H _ _ _ Htail).
Qed.

Lemma Forall2_firstn {A B : Type} (R : A -> B -> Prop) (n : nat) (l : list A)
    (l' : list B) :
  Forall2 R l l' -> Forall2 R (firstn n l) (firstn n l').
Proof.
  intros H. revert n. induction H as [|a b l l' Hab _ IH]; intros [|n]; simpl;
    constructor; auto.
Qed.

Lemma Forall2_skipn {A B : Type} (R : A -> B -> Prop) (n : nat) (l : list A)
    (l' : list B) :
  Forall2 R l l' -> Forall2 R (skipn n l) (skipn n l').
Proof.
  intros H. revert n. induction H as [|a b l l' Hab H IH]; intros [|n]; simpl;
    try constructor; auto.
Qed.

Lemma separated_app (sep : string) (l1 l2 : list string) :
  fold_right (fun x acc => sep ++ x ++ acc) EmptyString (l1 ++ l2)
  = fold_right (fun x acc => sep ++ x ++ acc) EmptyString l1
    ++ fold_right (fun x acc => sep ++ x ++ acc) EmptyString l2.
Proof.
  induction l1 as [|x l1 IH]; simpl; [reflexivity|].
  now rewrite IH, !append_assoc_string.
Qed.

Lemma separated_chunks (sep : string) (chunks : list (list string)) :
  Forall (fun chunk => chunk <> []) chunks ->
  fold_right (fun x acc => sep ++ x ++ acc) EmptyString (map (join sep) chunks)
  = fold_right (fun x acc => sep ++ x ++ acc) EmptyString (List.concat chunks).
Proof.
  induction 1 as [|chunk chunks Hne _ IH]; simpl; [reflexivity|].
  destruct chunk as [|u chunk]; [contradiction|].
  rewrite separated_app, IH, join_cons_fold. simpl.
  now rewrite !append_assoc_string.
Qed.

Lemma join_chunks (sep : string) (chunks : list (list string)) :
  Forall (fun chunk => chunk <> []) chunks ->
  join sep (map (join sep) chunks) = join sep (List.concat chunks).
Proof.
  intros H. destruct H as [|chunk chunks Hne H]; [reflexivity|].
  destruct chunk as [|u chunk]; [contradiction|].
  cbn [map List.concat app]. rewrite !join_cons_fold.
  rewrite separated_app, (separated_chunks sep chunks H).
  now rewrite append_assoc_string.
Qed.

Lemma grid_squeeze (items us : list string) (w : Z) (widths : list Z)
    (rows : list string) :
  1 <= w ->
  Forall2 squeezes_to items us ->
  mapM (fun row => joinColumns row widths) (grid_rows items w) = Ok rows ->
  exists urows, Forall2 squeezes_to rows urows /\ join "," urows = join "," us.
Proof.
  intros Hw Hitems Hrun.
  exists (map (join ",") (grid_rows us w)). split.
  - unfold grid_rows in *. rewrite <- (Forall2_length Hitems).
    revert rows Hrun.
    generalize (seq 0 (Z.to_nat ((Z.of_nat (List.length items) + w - 1) / w))).
    intros l. induction l as [|i l IH]; intros rows Hrun; simpl in Hrun.
    + inversion Hrun. constructor.
    + destruct (joinColumns _ widths) as [line| |] eqn:Hline; cbn [bind] in Hrun;
        try discriminate.
      destruct (mapM _ (map _ l)) as [rows'| |] eqn:Hrows; cbn [bind] in Hrun;
        try discriminate.
      inversion Hrun; subst rows. cbn [map]. constructor.
      * apply (joinColumns_squeeze _ _ _ _ (Forall2_firstn _ _ _ _
                                              (Forall2_skipn _ _ _ _ Hitems)) Hline).
      * now apply IH.
  - destruct (grid_rows_cover us w Hw) as [Hconcat Hrows].
    rewrite join_chunks; [now rewrite Hconcat|].
    apply Forall_forall. intros chunk Hin. rewrite Forall_forall in Hrows.
    specialize (Hrows chunk Hin). intros ->. simpl in Hrows. lia.
Qed.

Lemma formatArray_squeeze (c : closure) (items us : list string) (depth : nat)
    (nestedItems : bool) (keyLength : Z) (allowInline : bool) (text : string) :
  is_blank (c_indent c) = true ->
  Forall2 squeezes_to items us ->
  formatArray c items depth nestedItems keyLength allowInline = Ok text ->
  squeezes_to text ("[" ++ join "," us ++ "]").
Proof.
  intros Hind Hitems Hrun. unfold formatArray in Hrun.
  destruct Hitems as [|item u items us Hu Hitems].
  { inversion Hrun. intros rest. reflexivity. }
  assert (Hall : Forall2 squeezes_to (item :: items) (u :: us)) by now constructor.
  match type of Hrun with (if ?b then _ else _) = _ => destruct b end.
  - injection Hrun as <-.
    apply (squeezes_to_app "[ " (join ", " (item :: items) ++ " ]")
                           "[" (join "," (u :: us) ++ "]"));
      [intros rest; reflexivity|].
    apply (squeezes_to_app (join ", " (item :: items)) " ]"
                           (join "," (u :: us)) "]").
    + apply squeezes_to_join; [intros rest; reflexivity | assumption].
    + intros rest; reflexivity.
  - match type of Hrun with (if ?b then _ else _) = _ => destruct b end.
    + destruct (findMaxItemsWide_result (item :: items) (c_maxLineLength c))
        as (best & Hbest & Hb & _); [discriminate|].
      rewrite Hbest in Hrun. cbn [bind] in Hrun.
      destruct (mapM _ (grid_rows (item :: items) best)) as [rows| |] eqn:Hrows;
        cbn [bind] in Hrun; try discriminate.
      injection Hrun as <-.
      destruct (grid_squeeze _ _ _ _ _ (proj1 Hb) Hall Hrows) as (urows & Hur & Hjoin).
      rewrite <- Hjoin.
      apply one_per_line_squeeze; try assumption; intros rest; reflexivity.
    + injection Hrun as <-.
      apply one_per_line_squeeze; try assumption; intros rest; reflexivity.
Qed.

Lemma formatObject_squeeze (c : closure) (items us : list string) (depth : nat)
    (nestedItems : bool) (keyLength : Z) (allowInline : bool) (text : string) :
  is_blank (c_indent c) = true ->
  Forall2 squeezes_to items us ->
  formatObject c items depth nestedItems keyLength allowInline = Ok text ->
  squeezes_to text ("{" ++ join "," us ++ "}").
Proof.
  intros Hind Hitems Hrun. unfold formatObject in Hrun.
  destruct Hitems as [|item u items us Hu Hitems].
  { inversion Hrun. intros rest. reflexivity. }
  assert (Hall : Forall2 squeezes_to (item :: items) (u :: us)) by now constructor.
  match type of Hrun with (if ?b then _ else _) = _ => destruct b end.
  - injection Hrun as <-.
    apply (squeezes_to_app "{ " (join ", " (item :: items) ++ " }")
                           "{" (join "," (u :: us) ++ "}"));
      [intros rest; reflexivity|].
    apply (squeezes_to_app (join ", " (item :: items)) " }"
                           (join "," (u :: us)) "}").
    + apply squeezes_to_join; [intros rest; reflexivity | assumption].
    + intros rest; reflexivity.
  - injection Hrun as <-.
    apply one_per_line_squeeze; try assumption; intros rest; reflexivity.
Qed.

Lemma mapM_both {A B C : Type} (f : A -> outcome B) (g : A -> outcome C)
    (R : B -> C -> Prop) (l : list A) :
  (forall a, In a l -> exists b c, f a = Ok b /\ g a = Ok c /\ R b c) ->
  exists bs cs, mapM f l = Ok bs /\ mapM g l = Ok cs /\ Forall2 R bs cs.
Proof.
  induction l as [|a l IH]; intros H; simpl.
  - exists [], []. repeat split; constructor.
  - destruct (H a (or_introl eq_refl)) as (b & c & -> & -> & Hbc).
    destruct IH as (bs & cs & -> & -> & Hall); [intros a' Ha'; apply H; now right|].
    exists (b :: bs), (c :: cs). repeat split; now constructor.
Qed.

Lemma filter_all {A : Type} (f : A -> bool) (l : list A) :
  (forall a, In a l -> f a = true) -> filter f l = l.
Proof.
  induction l as [|a l IH]; intros H; simpl; [reflexivity|].
  rewrite (H a (or_introl eq_refl)), IH; [reflexivity|].
  intros a' Ha'. apply H. now right.
Qed.

Lemma plain_representable (v : value) : plain v = true -> representable v = true.
Proof. destruct v; simpl; intros H; try reflexivity; discriminate. Qed.

Lemma processValue_squeeze (c : closure) :
  match c_replaceFunc c with Some r => keeps_plain r | None => True end ->
  c_tableArrays c = false -> c_tableObjects c = false ->
  is_blank (c_indent c) = true ->
  forall (fuel : nat) (v : value) (key : string) (depth : nat) (parentObj : value)
         (keyLength : Z) (allowTables : bool),
    plain v = true -> (height v < fuel)%nat ->
    exists p compact,
      processValue c fuel key v depth parentObj keyLength allowTables = Ok (Some p) /\
      SerializeJSONProperty fuel (c_replaceFunc c) None parentObj key v
      = Ok (Some compact) /\
      squeezes_to (result p) compact /\
      squeezes_to compact compact.
Proof.
  intros Hr Ha Ho Hind. induction fuel as [|fuel IH];
    intros v key depth parentObj keyLength allowTables Hp0 Hh0; [lia|].
  cbn [processValue SerializeJSONProperty]. unfold apply_replace.
  rewrite (plain_toJSON_none v Hp0).
  set (val := match c_replaceFunc c with
              | Some r => r parentObj key v
              | None => v
              end).
  assert (Hval : plain val = true /\ (height val <= height v)%nat).
  { unfold val. destruct (c_replaceFunc c) as [r|]; [now apply Hr | split; [assumption | lia]]. }
  destruct Hval as [Hp Hle].
  assert (Hh : (height val < S fuel)%nat) by lia.
  clearbody val. clear Hp0 Hh0 Hle v.
  destruct val as [| |b|n|z|s|a r|items|props]; try discriminate.
  - eexists _, _. split; [reflexivity|]. split; [reflexivity|].
    split; intros rest; reflexivity.
  - destruct b; (eexists _, _; split; [reflexivity|]; split; [reflexivity|];
                 split; intros rest; reflexivity).
  - cbn [JSON_stringify_scalar bind]. eexists _, _.
    split; [reflexivity|]. split; [reflexivity|].
    split; apply squeezes_to_number.
  - cbn [JSON_stringify_scalar bind]. eexists _, _.
    split; [reflexivity|]. split; [reflexivity|].
    split; apply squeezes_to_QuoteJSONString.
  - rewrite Ha. cbn [andb bind].
    destruct (mapM_both
                (fun '(i, item) =>
                   p <- processValue c fuel (nat_to_string i) item (depth + 1)
                          (VArray items) 0 true ;;
                   match p with
                   | Some p => Ok (result p)
                   | None => no_result
                   end)
                (fun '(i, x) =>
                   r <- SerializeJSONProperty fuel (c_replaceFunc c) None (VArray items)
                          (nat_to_string i) x ;;
                   Ok (match r with Some s => s | None => "null" end))
                (fun b u => squeezes_to b u /\ squeezes_to u u)
                (indexed items)) as (rendered & parts & -> & -> & HR).
    { intros [i item] Hin. apply in_indexed in Hin.
      cbn [plain] in Hp. rewrite forallb_forall in Hp.
      destruct (IH item (nat_to_string i) (depth + 1)%nat (VArray items) 0 true)
        as (p & u & -> & -> & H1 & H2).
      - now apply Hp.
      - cbn [height] in Hh. pose proof (list_max_In _ _ (in_map height _ _ Hin)). lia.
      - cbn [bind]. eexists _, _. split; [reflexivity|]. split; [reflexivity|].
        now split. }
    cbn [bind]. destruct (array_flags items) as [nested multiple].
    destruct (formatArray_total c rendered depth multiple keyLength
                (inline_allowed c parentObj key (VArray items))) as (text & Htext).
    rewrite Htext. cbn [bind]. eexists _, _.
    split; [reflexivity|]. split; [reflexivity|]. cbn [result]. split.
    + refine (formatArray_squeeze c _ parts _ _ _ _ _ Hind _ Htext).
      clear -HR. induction HR as [|b u bs us [H _] _ IH]; constructor; assumption.
    + apply (squeezes_to_app "[" _ "[" _); [intros rest; reflexivity|].
      apply squeezes_to_app; [|intros rest; reflexivity].
      apply squeezes_to_join; [intros rest; reflexivity|].
      clear -HR. induction HR as [|b u bs us [_ H] _ IH]; constructor; assumption.
  - rewrite (plain_no_toJSON props Hp). rewrite Ho. cbn [andb bind].
    rewrite (filter_all (fun k => representable (get (VObject props) k)) (map fst props))
      by (intros k Hk; apply plain_representable;
          exact (proj1 (plain_member props k Hp Hk))).
    destruct (mapM_both
                (fun k =>
                   p <- processValue c fuel k (get (VObject props) k) (depth + 1)
                          (VObject props) (len (QuoteJSONString k ++ ": ")) true ;;
                   match p with
                   | Some p => Ok ((QuoteJSONString k ++ ": ") ++ result p, nested p)
                   | None => no_result
                   end)
                (fun P =>
                   r <- SerializeJSONProperty fuel (c_replaceFunc c) None (VObject props) P
                          (get (VObject props) P) ;;
                   Ok (match r with
                       | Some s => [QuoteJSONString P ++ ":" ++ s]
                       | None => []
                       end))
                (fun (b : string * bool) (us : list string) =>
                   exists u, us = [u] /\ squeezes_to (fst b) u /\ squeezes_to u u)
                (map fst props)) as (rendered & parts & -> & -> & HR).
    { intros k Hk. destruct (plain_member props k Hp Hk) as [Hpk Hhk].
      destruct (IH (get (VObject props) k) k (depth + 1)%nat (VObject props)
                   (len (QuoteJSONString k ++ ": ")) true)
        as (p & u & -> & -> & H1 & H2); [exact Hpk | lia |].
      cbn [bind]. eexists _, _. split; [reflexivity|]. split; [reflexivity|].
      eexists. split; [reflexivity|]. cbn [fst]. split.
      - rewrite append_assoc_string.
        apply squeezes_to_app; [apply squeezes_to_QuoteJSONString|].
        apply (squeezes_to_app ": " _ ":" _); [intros rest; reflexivity | assumption].
      - apply squeezes_to_app; [apply squeezes_to_QuoteJSONString|].
        apply (squeezes_to_app ":" _ ":" _); [intros rest; reflexivity | assumption]. }
    cbn [bind].
    destruct (formatObject_total c (map fst rendered) depth (existsb snd rendered)
                keyLength (inline_allowed c parentObj key (VObject props)))
      as (text & Htext).
    rewrite Htext. cbn [bind]. eexists _, _.
    split; [reflexivity|]. split; [reflexivity|]. cbn [result]. split.
    + refine (formatObject_squeeze c _ (List.concat parts) _ _ _ _ _ Hind _ Htext).
      clear -HR. induction HR as [|b us bs uss (u & -> & H & _) _ IH]; simpl;
        constructor; assumption.
    + apply (squeezes_to_app "{" _ "{" _); [intros rest; reflexivity|].
      apply squeezes_to_app; [|intros rest; reflexivity].
      apply squeezes_to_join; [intros rest; reflexivity|].
      clear -HR. induction HR as [|b us bs uss (u & -> & _ & H) _ IH]; simpl;
        constructor; assumption.
Qed.

(** X17: without tables, [stringify] adds only whitespace to what the
    built-in [JSON.stringify] writes, with the same [replace] callback.
    For every tree of null, booleans, numbers, strings, arrays and
    objects, with [tables: false], an indent of whitespace and a
    [replace] callback that is missing or stays within such trees,
    whatever the other options are, [stringify] returns a text, and that
    text without the whitespace outside its string literals is the text
    of [JSON.stringify(value, replace)]: the callback is called on the
    same holders and keys, and the same values and keys are written in
    the same order, nothing dropped, nothing truncated. *)
Theorem stringify_adds_only_whitespace (o : StringifyOptions) (v : value) (fuel : nat) :
  match replace o with
  | Absent => True
  | Fn r => keeps_plain r
  | NotFn _ => False
  end ->
  is_NotFn (allowInline o) = false ->
  is_NotFn (allowTable o) = false ->
  tables o = Some false ->
  is_blank (indent_of o) = true ->
  plain v = true ->
  (height v < fuel)%nat ->
  exists text compact,
    stringify fuel v o = Ok (Some text) /\
    JSON_stringify fuel v (replace o) = Ok (Some compact) /\
    squeeze text = compact.
Proof.
  intros Hr Hi Ht Htab Hind Hp Hh.
  destruct (processValue_squeeze (capture o)) with
      (fuel := fuel) (v := v) (key := EmptyString) (depth := O)
      (parentObj := root_holder v) (keyLength := 0) (allowTables := true)
    as (p & compact & Hrun & Hjson & Hsq & Hid);
    try assumption;
    try (unfold capture; cbn; now rewrite Htab).
  { unfold capture; cbn. destruct (replace o); [exact I | exact Hr | contradiction]. }
  assert (Hjson' : JSON_stringify fuel v (replace o) = Ok (Some compact)).
  { unfold JSON_stringify. unfold capture in Hjson; cbn in Hjson.
    unfold root_holder in Hjson.
    destruct (replace o); [exact Hjson | exact Hjson | contradiction]. }
  unfold stringify.
  destruct (String.length (indent_of o) =? 0)%nat.
  - exists compact, compact. split; [exact Hjson'|]. split; [exact Hjson'|].
    now apply squeezes_to_squeeze.
  - destruct (replace o); [| |contradiction];
      (destruct (allowInline o); try discriminate;
       (destruct (allowTable o); try discriminate;
        (rewrite Hrun; cbn [bind option_map];
         exists (result p), compact;
         split; [reflexivity|]; split; [exact Hjson'|];
         now apply squeezes_to_squeeze))).
Qed.

Lemma stringify_adds_only_whitespace_witness :
  let v := VObject [("a", VArray [VNumber (Int 1); VArray [VString "x y"]; VNull]);
                    ("b", VBool true)] in
  stringify 4 v tables_off_add_one
  = Ok (Some (js "{$  'a': [$    2,$    [ 'x y' ],$    null$  ],$  'b': true$}")) /\
  exists text compact,
    stringify 4 v tables_off_add_one = Ok (Some text) /\
    JSON_stringify 4 v (replace tables_off_add_one) = Ok (Some compact) /\
    squeeze text = compact.
Proof.
  split; [reflexivity|].
  apply (stringify_adds_only_whitespace tables_off_add_one
           (VObject [("a", VArray [VNumber (Int 1); VArray [VString "x y"]; VNull]);
                     ("b", VBool true)]) 4);
    try reflexivity.
  - intros holder key v Hv. unfold add_one.
    destruct v as [| | |[z| | |]| | | | |]; split; try assumption; try reflexivity;
      apply Nat.le_refl.
  - simpl. lia.
Defined.

(** ** [tables: false] (lines 145-150, 207, 246) *)

Lemma processValue_tables_off (c c' : closure) :
  c_tableArrays c = false -> c_tableObjects c = false ->
  c_tableArrays c' = false -> c_tableObjects c' = false ->
  c_maxLineLength c = c_maxLineLength c' ->
  c_maxArrayItems c = c_maxArrayItems c' ->
  c_maxObjectProperties c = c_maxObjectProperties c' ->
  c_maxArrayItemLength2 c = c_maxArrayItemLength2 c' ->
  c_compactLongArrays c = c_compactLongArrays c' ->
  c_indent c = c_indent c' ->
  c_replaceFunc c = c_replaceFunc c' ->
  c_allowInline c = c_allowInline c' ->
  forall (fuel : nat) (key : string) (val : value) (depth : nat) (parentObj : value)
         (keyLength : Z) (allowTables : bool),
    processValue c fuel key val depth parentObj keyLength allowTables
    = processValue c' fuel key val depth parentObj keyLength allowTables.
Proof.
  intros Ha Ho Ha' Ho' E1 E2 E3 E4 E5 E6 E7 E8.
  assert (HfA : forall items depth nestedItems keyLength allowInline,
             formatArray c items depth nestedItems keyLength allowInline
             = formatArray c' items depth nestedItems keyLength allowInline).
  { intros. unfold formatArray, one_per_line. now rewrite E1, E2, E4, E5, E6. }
  assert (HfO : forall items depth nestedItems keyLength allowInline,
             formatObject c items depth nestedItems keyLength allowInline
             = formatObject c' items depth nestedItems keyLength allowInline).
  { intros. unfold formatObject, one_per_line. now rewrite E1, E3, E6. }
  assert (Hin : forall parentObj key val,
             inline_allowed c parentObj key val = inline_allowed c' parentObj key val).
  { intros. unfold inline_allowed. now rewrite E8. }
  induction fuel as [|fuel IH]; intros key val depth parentObj keyLength allowTables;
    [reflexivity|].
  cbn [processValue]. unfold apply_replace. rewrite E7.
  destruct (match c_replaceFunc c' with
            | Some r => r parentObj key val
            | None => val
            end) as [| |b|n|z|s|a r|items|props]; try reflexivity.
  - rewrite Ha, Ha'. cbn [andb bind].
    rewrite (mapM_ext _ (fun '(i, item) =>
                           p <- processValue c' fuel (nat_to_string i) item (depth + 1)
                                  (VArray items) 0 true ;;
                           match p with
                           | Some p => Ok (result p)
                           | None => no_result
                           end))
      by (intros [i item]; now rewrite IH).
    destruct (mapM _ (indexed items)) as [rendered| |]; cbn [bind]; try reflexivity.
    destruct (array_flags items) as [nested multiple]. now rewrite HfA, Hin.
  - destruct (toJSON_of (VObject props)) as [converted|]; [apply IH|].
    rewrite Ho, Ho'. cbn [andb bind].
    rewrite (mapM_ext _ (fun k =>
                           p <- processValue c' fuel k (get (VObject props) k) (depth + 1)
                                  (VObject props) (len (QuoteJSONString k ++ ": ")) true ;;
                           match p with
                           | Some p => Ok ((QuoteJSONString k ++ ": ") ++ result p, nested p)
                           | None => no_result
                           end))
      by (intros k; now rewrite IH).
    destruct (mapM _ _) as [rendered| |]; cbn [bind]; try reflexivity.
    now rewrite HfO, Hin.
Qed.

(** X18: with [tables: false] no other table option has any effect.  Two
    option sets that both switch the tables off and agree on the options
    that are not about tables give the same result for every value,
    whatever they say for [tableArrays], [tableObjects],
    [tableMinSharedKeys], [tablePadEndOfRows], [tableDecimalAlignment]
    and [allowTable], as long as [allowTable] is a function or missing in
    both, or in neither. *)
Theorem table_options_unused_when_tables_off (o o' : StringifyOptions) (v : value)
    (fuel : nat) :
  tables o = Some false -> tables o' = Some false ->
  replace o = replace o' ->
  indent o = indent o' ->
  allowInline o = allowInline o' ->
  maxLineLength o = maxLineLength o' ->
  maxArrayItems o = maxArrayItems o' ->
  maxObjectProperties o = maxObjectProperties o' ->
  maxArrayItemLength o = maxArrayItemLength o' ->
  compactLongArrays o = compactLongArrays o' ->
  is_NotFn (allowTable o) = is_NotFn (allowTable o') ->
  stringify fuel v o = stringify fuel v o'.
Proof.
  intros Ht Ht' Er Ei Ea E1 E2 E3 E4 E5 En.
  assert (Hind : indent_of o = indent_of o') by (unfold indent_of; now rewrite Ei).
  assert (Hpv : processValue (capture o) fuel EmptyString v 0 (root_holder v) 0 true
                = processValue (capture o') fuel EmptyString v 0 (root_holder v) 0 true).
  { apply processValue_tables_off; unfold capture; cbn;
      rewrite ?Ht, ?Ht', ?E1, ?E2, ?E3, ?E4, ?E5, ?Hind, ?Er, ?Ea; reflexivity. }
  unfold stringify. rewrite Hind, Er, Ea, Hpv.
  destruct (String.length (indent_of o') =? 0)%nat; [reflexivity|].
  destruct (replace o'); try reflexivity;
    (destruct (allowInline o'); try reflexivity;
     (destruct (allowTable o), (allowTable o'); try discriminate; reflexivity)).
Qed.

Lemma table_options_unused_when_tables_off_witness :
  let o' := {| replace := Absent; indent := IndentAbsent; allowInline := Absent;
               maxLineLength := None; maxArrayItems := None;
               maxObjectProperties := None; maxArrayItemLength := None;
               compactLongArrays := None;
               allowTable := Fn (fun _ _ _ => true);
               tables := Some false;
               tableArrays := Some true; tableObjects := Some true;
               tableMinSharedKeys := Some 3; tablePadEndOfRows := Some false;
               tableDecimalAlignment := Some false |} in
  stringify 4 faces tables_off = stringify 4 faces o'.
Proof.
  apply (table_options_unused_when_tables_off tables_off
           {| replace := Absent; indent := IndentAbsent; allowInline := Absent;
              maxLineLength := None; maxArrayItems := None;
              maxObjectProperties := None; maxArrayItemLength := None;
              compactLongArrays := None;
              allowTable := Fn (fun _ _ _ => true);
              tables := Some false;
              tableArrays := Some true; tableObjects := Some true;
              tableMinSharedKeys := Some 3; tablePadEndOfRows := Some false;
              tableDecimalAlignment := Some false |} faces 4);
    reflexivity.
Defined.

(** ** Values without table candidates (lines 207-221, 246-270, 590-604) *)

Lemma getTableColumnOrder_mixed (items : list value)
    (maxObjectProperties tableMinSharedKeys : Z) :
  (List.length items <= 1)%nat \/
  (exists x, In x items /\ representable x = true /\ is_container x = false) ->
  getTableColumnOrder (VArray items) maxObjectProperties tableMinSharedKeys = Ok None.
Proof.
  intros H. unfold getTableColumnOrder. cbn [isArray].
  destruct (Z.of_nat (List.length (filter representable items)) <=? 1) eqn:Hlen;
    [reflexivity|].
  apply Z.leb_gt in Hlen.
  destruct H as [H|(x & Hx & Hrep & Hcont)].
  { pose proof (filter_length_le representable items). lia. }
  assert (Hin : In x (filter representable items)) by (apply filter_In; now split).
  clear Hlen Hx. revert Hin. generalize (filter representable items) as values.
  intros values Hin.
  destruct values as [|first rest]; [contradiction|].
  assert (Hscalar : negb (is_object_type x)
                    || match x with VNull => true | _ => false end = true)
    by (destruct x; try discriminate; reflexivity).
  assert (Hex : existsb (fun v => negb (is_object_type v) ||
                                  match v with VNull => true | _ => false end)
                        (first :: rest) = true)
    by (apply existsb_exists; exists x; now split).
  destruct first as [| | | | | | |first|props]; try (rewrite Hex; reflexivity).
  match goal with |- context [forallb ?f ?l] => destruct (forallb f l) eqn:Hall end;
    [|reflexivity].
  rewrite forallb_forall in Hall. specialize (Hall x Hin).
  destruct x; discriminate.
Qed.

Lemma table_free_items (items : list value) :
  table_free (VArray items) = true ->
  Forall (fun x => plain x = true) items ->
  (List.length items <= 1)%nat \/
  (exists x, In x items /\ representable x = true /\ is_container x = false).
Proof.
  intros Hf Hp. cbn [table_free] in Hf. apply andb_true_iff in Hf.
  destruct Hf as [Hf _]. apply orb_true_iff in Hf. destruct Hf as [Hf|Hf].
  - left. now apply Nat.leb_le.
  - right. apply existsb_exists in Hf. destruct Hf as (x & Hx & Hc).
    exists x. split; [assumption|]. rewrite Forall_forall in Hp.
    split; [apply plain_representable; now apply Hp | now apply negb_true_iff].
Qed.

Lemma table_free_props (props : list (string * value)) :
  table_free (VObject props) = true ->
  plain (VObject props) = true ->
  (List.length (map snd props) <= 1)%nat \/
  (exists x, In x (map snd props) /\ representable x = true /\ is_container x = false).
Proof.
  intros Hf Hp. cbn [table_free] in Hf. apply andb_true_iff in Hf.
  destruct Hf as [Hf _]. apply orb_true_iff in Hf. destruct Hf as [Hf|Hf].
  - left. rewrite length_map. now apply Nat.leb_le.
  - right. apply existsb_exists in Hf. destruct Hf as ([k x] & Hx & Hc).
    exists x. split; [exact (in_map snd _ _ Hx)|].
    cbn [plain] in Hp. rewrite forallb_forall in Hp.
    split; [apply plain_representable; exact (Hp _ Hx) | now apply negb_true_iff].
Qed.

Lemma table_free_member (props : list (string * value)) (k : string) :
  table_free (VObject props) = true ->
  In k (map fst props) ->
  table_free (get (VObject props) k) = true.
Proof.
  intros Hf Hk. destruct (assoc_key k props Hk) as (v & Hv).
  cbn [get]. rewrite Hv. apply assoc_In in Hv.
  cbn [table_free] in Hf. apply andb_true_iff in Hf. destruct Hf as [_ Hf].
  rewrite forallb_forall in Hf. exact (Hf _ Hv).
Qed.

Lemma mapM_ext_in {A B : Type} (f g : A -> outcome B) (l : list A) :
  (forall a, In a l -> f a = g a) -> mapM f l = mapM g l.
Proof.
  induction l as [|a l IH]; intros H; simpl; [reflexivity|].
  rewrite (H a (or_introl eq_refl)), IH; [reflexivity|].
  intros a' Ha'. apply H. now right.
Qed.

Lemma processValue_table_free (c : closure) :
  c_replaceFunc c = None ->
  forall (fuel : nat) (v : value) (key : string) (depth : nat) (parentObj : value)
         (keyLength : Z) (allowTables : bool),
    plain v = true -> table_free v = true ->
    processValue c fuel key v depth parentObj keyLength allowTables
    = processValue (without_tables c) fuel key v depth parentObj keyLength allowTables.
Proof.
  intros Hr.
  assert (HfA : forall items depth nestedItems keyLength allowInline,
             formatArray c items depth nestedItems keyLength allowInline
             = formatArray (without_tables c) items depth nestedItems keyLength
                           allowInline) by reflexivity.
  assert (HfO : forall items depth nestedItems keyLength allowInline,
             formatObject c items depth nestedItems keyLength allowInline
             = formatObject (without_tables c) items depth nestedItems keyLength
                            allowInline) by reflexivity.
  induction fuel as [|fuel IH];
    intros v key depth parentObj keyLength allowTables Hp Hf; [reflexivity|].
  cbn [processValue]. unfold apply_replace. cbn [without_tables c_replaceFunc].
  rewrite Hr.
  destruct v as [| |b|n|z|s|a r|items|props]; try reflexivity.
  - cbn [c_tableArrays andb bind].
    assert (Hnone : getTableColumnOrder (VArray items) (c_maxObjectProperties c)
                      (c_tableMinSharedKeys c) = Ok None).
    { apply getTableColumnOrder_mixed. apply (table_free_items items Hf).
      cbn [plain] in Hp. rewrite forallb_forall in Hp. now apply Forall_forall. }
    assert (Htable :
      (if c_tableArrays c && allowTables && table_allowed c parentObj key (VArray items)
       then
         order <- getTableColumnOrder (VArray items) (c_maxObjectProperties c)
                    (c_tableMinSharedKeys c) ;;
         match order with
         | Some columnOrder =>
             rows <- (if isArray (nth 0 items VUndefined)
                      then tableOfArrays c fuel items (List.length columnOrder)
                      else tableOfObjects c fuel items columnOrder) ;;
             match rows with
             | Some items' =>
                 if forallb (fun e => len e <=? c_maxLineLength c) items'
                 then
                   r <- formatArray c items' depth true keyLength true ;;
                   Ok (Some r)
                 else Ok None
             | None => Ok None
             end
         | None => Ok None
         end
       else Ok None) = Ok None).
    { rewrite Hnone. cbn [bind]. now destruct (_ && _ && _). }
    rewrite Htable. cbn [bind].
    rewrite (mapM_ext_in _ (fun '(i, item) =>
                              p <- processValue (without_tables c) fuel (nat_to_string i)
                                     item (depth + 1) (VArray items) 0 true ;;
                              match p with
                              | Some p => Ok (result p)
                              | None => no_result
                              end)).
    + reflexivity.
    + intros [i item] Hin. apply in_indexed in Hin.
      cbn [plain] in Hp. rewrite forallb_forall in Hp.
      cbn [table_free] in Hf. apply andb_true_iff in Hf. destruct Hf as [_ Hf].
      rewrite forallb_forall in Hf.
      now rewrite (IH item _ _ _ _ _ (Hp _ Hin) (Hf _ Hin)).
  - rewrite (plain_no_toJSON props Hp). cbn [c_tableObjects andb bind].
    assert (Hnone : getTableColumnOrder (VObject props) (c_maxObjectProperties c)
                      (c_tableMinSharedKeys c) = Ok None).
    { rewrite getTableColumnOrder_object. apply getTableColumnOrder_mixed.
      now apply table_free_props. }
    rewrite Hnone. cbn [bind].
    assert (Hblock : forall b : bool,
               (if b then Ok FellThrough else Ok FellThrough)
               = (Ok FellThrough : outcome table_block)) by (now intros []).
    rewrite Hblock. cbn [bind].
    rewrite (mapM_ext_in _ (fun k =>
                              p <- processValue (without_tables c) fuel k
                                     (get (VObject props) k) (depth + 1) (VObject props)
                                     (len (QuoteJSONString k ++ ": ")) true ;;
                              match p with
                              | Some p => Ok ((QuoteJSONString k ++ ": ") ++ result p,
                                              nested p)
                              | None => no_result
                              end)).
    + reflexivity.
    + intros k Hk. apply filter_In in Hk. destruct Hk as [Hk _].
      now rewrite (IH (get (VObject props) k) _ _ _ _ _
                      (proj1 (plain_member props k Hp Hk))
                      (table_free_member props k Hf Hk)).
Qed.

(** X19: a value without table candidates is rendered as with
    [tables: false].  When no array or object of the value has two or
    more items that are all arrays or objects (each has at most one item,
    or an item that is null, a boolean, a number or a string), no table
    is ever formed: with no [replace] callback, two option sets that
    agree on the options that are not about tables, of which the second
    switches the tables off, give the same result whatever the first
    says about tables. *)
Theorem table_free_value_ignores_tables (o o' : StringifyOptions) (v : value)
    (fuel : nat) :
  plain v = true -> table_free v = true ->
  replace o = Absent -> replace o' = Absent ->
  tables o' = Some false ->
  indent o = indent o' ->
  allowInline o = allowInline o' ->
  maxLineLength o = maxLineLength o' ->
  maxArrayItems o = maxArrayItems o' ->
  maxObjectProperties o = maxObjectProperties o' ->
  maxArrayItemLength o = maxArrayItemLength o' ->
  compactLongArrays o = compactLongArrays o' ->
  is_NotFn (allowTable o) = is_NotFn (allowTable o') ->
  stringify fuel v o = stringify fuel v o'.
Proof.
  intros Hp Hf Hr Hr' Ht' Ei Ea E1 E2 E3 E4 E5 En.
  assert (Hind : indent_of o = indent_of o') by (unfold indent_of; now rewrite Ei).
  assert (Hpv : processValue (capture o) fuel EmptyString v 0 (root_holder v) 0 true
                = processValue (capture o') fuel EmptyString v 0 (root_holder v) 0 true).
  { rewrite (processValue_table_free (capture o)); try assumption;
      [|unfold capture; cbn; now rewrite Hr].
    apply processValue_tables_off; unfold capture; cbn;
      rewrite ?Ht', ?E1, ?E2, ?E3, ?E4, ?E5, ?Hind, ?Hr, ?Hr', ?Ea; reflexivity. }
  unfold stringify. rewrite Hind, Hr, Hr', Ea, Hpv.
  destruct (String.length (indent_of o') =? 0)%nat; [reflexivity|].
  destruct (allowInline o'); try reflexivity;
    (destruct (allowTable o), (allowTable o'); try discriminate; reflexivity).
Qed.

Lemma table_free_value_ignores_tables_witness :
  let v := VObject [("name", VString "n"); ("sizes", VArray [VNumber (Int 1); VNull]);
                    ("more", VObject [("only", VArray [])])] in
  stringify 4 v no_options = stringify 4 v tables_off.
Proof.
  apply (table_free_value_ignores_tables no_options tables_off
           (VObject [("name", VString "n"); ("sizes", VArray [VNumber (Int 1); VNull]);
                     ("more", VObject [("only", VArray [])])]) 4);
    reflexivity.
Defined.

(** ** Reading the text back (against the built-in [JSON.parse]) *)

Lemma skip_ws_blank (b rest : string) :
  is_blank b = true -> skip_ws (b ++ rest) = skip_ws rest.
Proof.
  induction b as [|ch b IH]; intros H; [reflexivity|].
  simpl in H. apply andb_true_iff in H. destruct H as [Hch Hb].
  cbn [append skip_ws]. rewrite Hch. now apply IH.
Qed.

Lemma parse_value_blank (fuel : nat) (b rest : string) :
  is_blank b = true -> parse_value fuel (b ++ rest) = parse_value fuel rest.
Proof.
  intros Hb. destruct fuel as [|fuel]; [reflexivity|].
  cbn [parse_value]. now rewrite (skip_ws_blank b rest Hb).
Qed.

Lemma parse_elements_blank (fuel : nat) (b rest : string) :
  is_blank b = true -> parse_elements fuel (b ++ rest) = parse_elements fuel rest.
Proof.
  intros Hb. destruct fuel as [|fuel]; [reflexivity|].
  cbn [parse_elements]. now rewrite (parse_value_blank fuel b rest Hb).
Qed.

Lemma parse_members_blank (fuel : nat) (b rest : string) :
  is_blank b = true -> parse_members fuel (b ++ rest) = parse_members fuel rest.
Proof.
  intros Hb. destruct fuel as [|fuel]; [reflexivity|].
  cbn [parse_members]. now rewrite (skip_ws_blank b rest Hb).
Qed.

Lemma ends_value_blank (b rest : string) (ch : ascii) :
  is_blank b = true ->
  is_ws ch || Ascii.eqb ch ","%char || Ascii.eqb ch "]"%char || Ascii.eqb ch "}"%char
  = true ->
  ends_value (b ++ String ch rest) = true.
Proof.
  intros Hb Hch. destruct b as [|c b]; [exact Hch|].
  simpl in Hb. apply andb_true_iff in Hb. destruct Hb as [Hc _].
  simpl. now rewrite Hc.
Qed.

(** *** Strings *)

Lemma parse_quote_char (ch : ascii) (rest : string) :
  parse_string_body (quote_char ch ++ rest)
  = match parse_string_body rest with
    | Some (body, after) => Some (String ch body, after)
    | None => None
    end.
Proof.
  destruct ch as [[] [] [] [] [] [] [] []]; reflexivity.
Qed.

Lemma parse_quote_body (s rest : string) :
  parse_string_body (quote_body s ++ dquote ++ rest) = Some (s, rest).
Proof.
  induction s as [|ch s IH]; [reflexivity|].
  cbn [quote_body]. rewrite append_assoc_string, parse_quote_char. now rewrite IH.
Qed.

Lemma parses_string (s : string) : parses_within 1 (QuoteJSONString s) (VString s).
Proof.
  intros fuel rest Hf _. destruct fuel as [|fuel]; [lia|].
  unfold QuoteJSONString. rewrite !append_assoc_string.
  change (dquote ++ ?x) with (String "034"%char x).
  cbn [parse_value skip_ws]. change (is_ws "034") with false. cbv iota.
  change (nat_of_ascii "034") with 34%nat. cbn [Nat.eqb].
  now rewrite parse_quote_body.
Qed.

(** *** Numbers *)

Lemma digits_value_uint (d : Decimal.uint) (acc : Z) :
  digits_value (NilEmpty.string_of_uint d) acc = Some (uint_value d acc).
Proof.
  revert acc. induction d; intros acc; [reflexivity|..];
    cbn [NilEmpty.string_of_uint digits_value uint_value];
    (match goal with |- context [is_digit ?ch] => change (is_digit ch) with true end);
    cbv iota; rewrite IHd; reflexivity.
Qed.

Lemma uint_value_pos (d : Decimal.uint) (acc : positive) :
  uint_value d (Z.pos acc) = Z.pos (Pos.of_uint_acc d acc).
Proof.
  revert acc. induction d; intros acc; [reflexivity|..];
    cbn [uint_value Pos.of_uint_acc]; rewrite <- IHd; f_equal; lia.
Qed.

Lemma uint_value_0 (d : Decimal.uint) : uint_value d 0 = Z.of_N (Pos.of_uint d).
Proof.
  induction d; [reflexivity| |..];
    cbn [uint_value Pos.of_uint]; [exact IHd|..];
    (change (10 * 0 + ?k) with k; cbn [Z.of_N]; apply uint_value_pos).
Qed.

Lemma unorm_canonical (d : Decimal.uint) : canonical (Decimal.unorm d).
Proof.
  induction d; try exact I. rewrite DecimalFacts.unorm_D0. exact IHd.
Qed.

Lemma to_uint_canonical (p : positive) : canonical (Pos.to_uint p).
Proof.
  pose proof (DecimalPos.Unsigned.to_of (Pos.to_uint p)) as H.
  rewrite DecimalPos.Unsigned.of_to in H. cbn [N.to_uint] in H.
  rewrite H. apply unorm_canonical.
Qed.

Lemma ends_value_follows (rest : string) :
  ends_value rest = true ->
  skip_digits rest = rest /\
  first_char_is "."%char rest || first_char_is "e"%char rest
  || first_char_is "E"%char rest = false.
Proof.
  destruct rest as [|ch rest]; [intros _; split; reflexivity|].
  destruct ch as [[] [] [] [] [] [] [] []]; try discriminate; intros _; split; reflexivity.
Qed.

Lemma skip_digits_uint (d : Decimal.uint) (rest : string) :
  skip_digits rest = rest ->
  skip_digits (NilEmpty.string_of_uint d ++ rest) = rest.
Proof.
  intros Hrest. induction d; [exact Hrest|..];
    cbn [NilEmpty.string_of_uint append skip_digits];
    (match goal with |- context [is_digit ?ch] => change (is_digit ch) with true end);
    exact IHd.
Qed.

Lemma substring_prefix (a b : string) : substring 0 (String.length a) (a ++ b) = a.
Proof.
  induction a as [|ch a IH]; simpl.
  - destruct b; reflexivity.
  - now rewrite IH.
Qed.

Lemma parse_digits (d : Decimal.uint) (rest : string) (negative : bool) :
  canonical d -> ends_value rest = true ->
  let s1 := NilEmpty.string_of_uint d ++ rest in
  let rest' := skip_digits s1 in
  let digits := substring 0 (String.length s1 - String.length rest') s1 in
  match digits with
  | EmptyString => None
  | String d0 more =>
      if Ascii.eqb d0 "0"%char && negb (String.eqb more EmptyString) then None
      else if first_char_is "."%char rest' || first_char_is "e"%char rest'
              || first_char_is "E"%char rest' then None
      else
        match digits_value digits 0 with
        | Some n => Some (if negative then - n else n, rest')
        | None => None
        end
  end
  = Some (if negative then - uint_value d 0 else uint_value d 0, rest).
Proof.
  intros Hd Hrest. cbv zeta.
  destruct (ends_value_follows rest Hrest) as [Hskip Hfirst].
  rewrite (skip_digits_uint d rest Hskip).
  replace (String.length (NilEmpty.string_of_uint d ++ rest) - String.length rest)%nat
    with (String.length (NilEmpty.string_of_uint d))
    by (rewrite length_app_string; lia).
  rewrite substring_prefix, Hfirst.
  pose proof (digits_value_uint d 0) as Hv.
  destruct d; try contradiction;
    cbn [NilEmpty.string_of_uint] in *;
    try (match goal with
         | |- context [Ascii.eqb ?a "0"] => change (Ascii.eqb a "0") with false
         end; cbn [andb]; rewrite Hv; reflexivity).
  destruct d; try contradiction. reflexivity.
Qed.

Lemma parse_integer_uint (d : Decimal.uint) (rest : string) :
  canonical d -> ends_value rest = true ->
  parse_integer (NilEmpty.string_of_uint d ++ rest) = Some (uint_value d 0, rest) /\
  parse_integer (String "-" (NilEmpty.string_of_uint d ++ rest))
  = Some (- uint_value d 0, rest).
Proof.
  intros Hd Hrest. split.
  - pose proof (parse_digits d rest false Hd Hrest) as H. cbv zeta in H.
    unfold parse_integer.
    destruct d; try contradiction; cbn [NilEmpty.string_of_uint append] in *;
      (match goal with
       | |- context [Ascii.eqb ?a "-"] => change (Ascii.eqb a "-") with false
       end); cbv iota; exact H.
  - pose proof (parse_digits d rest true Hd Hrest) as H. cbv zeta in H.
    unfold parse_integer. change (Ascii.eqb "-" "-") with true. cbv iota. exact H.
Qed.

Lemma parse_value_number (fuel : nat) (ch : ascii) (rest : string) :
  is_digit ch || Ascii.eqb ch "-"%char = true ->
  parse_value (S fuel) (String ch rest)
  = match parse_integer (String ch rest) with
    | Some (z, r) => Ok (VNumber (Int z), r)
    | None => syntax_error
    end.
Proof.
  destruct ch as [[] [] [] [] [] [] [] []]; try discriminate; intros _; reflexivity.
Qed.

Lemma parses_number (z : Z) : parses_within 1 (Z_to_string z) (VNumber (Int z)).
Proof.
  intros fuel rest Hf Hrest. destruct fuel as [|fuel]; [lia|].
  unfold Z_to_string, NilZero.string_of_int.
  pose proof (DecimalZ.of_to z) as Hz.
  assert (Hcanon : canonical (match Z.to_int z with
                              | Decimal.Pos d => d
                              | Decimal.Neg d => d
                              end)).
  { destruct z; cbn [Z.to_int]; [exact I | apply to_uint_canonical..]. }
  destruct (Z.to_int z) as [d|d] eqn:Hd.
  - assert (Hval : uint_value d 0 = z).
    { rewrite uint_value_0. cbn [Z.of_int Z.of_uint] in Hz. exact Hz. }
    destruct (parse_integer_uint d rest Hcanon Hrest) as [Hp _].
    assert (Heq : NilZero.string_of_uint d = NilEmpty.string_of_uint d)
      by (destruct d; try reflexivity; contradiction).
    rewrite Heq.
    destruct d; try contradiction; cbn [NilEmpty.string_of_uint append] in *;
      rewrite parse_value_number by reflexivity; rewrite Hp, Hval; reflexivity.
  - assert (Hval : - uint_value d 0 = z).
    { rewrite uint_value_0. cbn [Z.of_int Z.of_uint] in Hz. exact Hz. }
    destruct (parse_integer_uint d rest Hcanon Hrest) as [_ Hp].
    assert (Heq : NilZero.string_of_uint d = NilEmpty.string_of_uint d)
      by (destruct d; try reflexivity; contradiction).
    rewrite Heq. cbn [append].
    rewrite parse_value_number by reflexivity. rewrite Hp, Hval. reflexivity.
Qed.

(** *** Containers *)

Lemma parses_within_le (n m : nat) (text : string) (v : value) :
  parses_within n text v -> (n <= m)%nat -> parses_within m text v.
Proof.
  intros H Hle fuel rest Hf Hrest. apply H; [lia | assumption].
Qed.

Lemma comma_separated_nonempty (items : list string) (t : string) :
  comma_separated items t -> items <> [].
Proof. destruct 1; discriminate. Qed.

Lemma comma_separated_join (b b' : string) (items : list string) :
  is_blank b = true -> is_blank b' = true -> items <> [] ->
  comma_separated items (join (b ++ "," ++ b') items).
Proof.
  intros Hb Hb'. induction items as [|x items IH]; intros Hne; [contradiction|].
  destruct items as [|y items].
  - apply cs_one.
  - change (join (b ++ "," ++ b') (x :: y :: items))
      with (x ++ (b ++ "," ++ b') ++ join (b ++ "," ++ b') (y :: items)).
    rewrite !append_assoc_string. apply cs_cons; try assumption.
    apply IH. discriminate.
Qed.

Lemma comma_separated_app (l1 l2 : list string) (t1 t2 b b' : string) :
  is_blank b = true -> is_blank b' = true ->
  comma_separated l1 t1 -> comma_separated l2 t2 ->
  comma_separated (l1 ++ l2) (t1 ++ b ++ "," ++ b' ++ t2).
Proof.
  intros Hb Hb' H1 H2. induction H1 as [item|item items b0 b0' t Hb0 Hb0' _ IH].
  - now apply cs_cons.
  - rewrite !append_assoc_string.
    apply (cs_cons item (items ++ l2) b0 b0'); assumption.
Qed.

Lemma comma_separated_joinColumns_from (rest : list string) :
  forall (prev : string) (widths : list Z) (tail x : string),
    joinColumns_from prev rest widths = Ok tail ->
    comma_separated (x :: rest) (x ++ tail).
Proof.
  induction rest as [|item rest IH]; intros prev widths tail x Hrun; simpl in Hrun.
  - inversion Hrun. rewrite append_empty_r. apply cs_one.
  - destruct (str_repeat_nan " " _) as [pad| |] eqn:Hpad; cbn [bind] in Hrun;
      try discriminate.
    destruct (joinColumns_from item rest (List.tl widths)) as [tail'| |] eqn:Htail;
      cbn [bind] in Hrun; try discriminate.
    injection Hrun as <-.
    apply (cs_cons x (item :: rest) EmptyString pad (item ++ tail')).
    + reflexivity.
    + exact (str_repeat_nan_blank _ _ Hpad).
    + exact (IH _ _ _ _ Htail).
Qed.

Lemma comma_separated_joinColumns (row : list string) (widths : list Z) (line : string) :
  joinColumns row widths = Ok line -> row <> [] -> comma_separated row line.
Proof.
  intros Hrun Hne. destruct row as [|first rest]; [contradiction|]. simpl in Hrun.
  destruct (joinColumns_from first rest widths) as [tail| |] eqn:Htail;
    cbn [bind] in Hrun; try discriminate.
  injection Hrun as <-. exact (comma_separated_joinColumns_from _ _ _ _ _ Htail).
Qed.

Lemma comma_separated_rows (b b' : string) (chunks : list (list string))
    (rows : list string) :
  is_blank b = true -> is_blank b' = true ->
  Forall2 comma_separated chunks rows -> chunks <> [] ->
  comma_separated (List.concat chunks) (join (b ++ "," ++ b') rows).
Proof.
  intros Hb Hb' H. induction H as [|chunk row chunks rows Hrow Hrest IH]; intros Hne;
    [contradiction|].
  destruct Hrest as [|chunk2 row2 chunks rows Hrow2 Hrest].
  - simpl. rewrite app_nil_r. exact Hrow.
  - change (join (b ++ "," ++ b') (row :: row2 :: rows))
      with (row ++ (b ++ "," ++ b') ++ join (b ++ "," ++ b') (row2 :: rows)).
    rewrite !append_assoc_string.
    change (List.concat (chunk :: chunk2 :: chunks))
      with (chunk ++ List.concat (chunk2 :: chunks))%list.
    apply comma_separated_app; try assumption. apply IH. discriminate.
Qed.

Lemma mapM_Forall2_run {A B : Type} (f : A -> outcome B) (l : list A) (rs : list B) :
  mapM f l = Ok rs -> Forall2 (fun a r => f a = Ok r) l rs.
Proof.
  revert rs. induction l as [|a l IH]; intros rs H; simpl in H.
  - inversion H. constructor.
  - destruct (f a) as [b| |] eqn:Ha; cbn [bind] in H; try discriminate.
    destruct (mapM f l) as [bs| |]; cbn [bind] in H; try discriminate.
    inversion H. constructor; [assumption | now apply IH].
Qed.

Lemma comma_separated_grid (items : list string) (w : Z) (widths : list Z)
    (rows : list string) (b b' : string) :
  1 <= w -> items <> [] ->
  is_blank b = true -> is_blank b' = true ->
  mapM (fun row => joinColumns row widths) (grid_rows items w) = Ok rows ->
  comma_separated items (join (b ++ "," ++ b') rows).
Proof.
  intros Hw Hne Hb Hb' Hrun.
  destruct (grid_rows_cover items w Hw) as [Hconcat Hrows].
  rewrite <- Hconcat at 1. apply comma_separated_rows; try assumption.
  - apply mapM_Forall2_run in Hrun. revert Hrows. clear -Hrun.
    induction Hrun as [|chunk row chunks rows Hrow _ IH]; intros Hrows; constructor.
    + apply (comma_separated_joinColumns _ _ _ Hrow).
      inversion Hrows as [|? ? Hc _]; subst. intros ->. simpl in Hc. lia.
    + apply IH. now inversion Hrows.
  - intros Hnil. rewrite Hnil in Hconcat. simpl in Hconcat. now subst items.
Qed.

Lemma nat_of_ascii_inj_const (ch : ascii) (n : nat) :
  (nat_of_ascii ch =? n)%nat = true -> ch = ascii_of_nat n.
Proof.
  intros H. apply Nat.eqb_eq in H. rewrite <- H. symmetry. apply ascii_nat_embedding.
Qed.

Lemma parse_integer_bracket (s : string) : parse_integer (String "]" s) = None.
Proof.
  unfold parse_integer. change (Ascii.eqb "]" "-") with false. cbv iota.
  change (skip_digits (String "]" s)) with (String "]" s).
  rewrite Nat.sub_diag. reflexivity.
Qed.

Lemma parse_elements_first (fuel : nat) (s : string) (r : list value * string) :
  parse_elements fuel s = Ok r ->
  exists ch s', skip_ws s = String ch s' /\ (nat_of_ascii ch =? 93)%nat = false.
Proof.
  destruct fuel as [|[|fuel]]; try discriminate.
  cbn [parse_elements parse_value].
  destruct (skip_ws s) as [|ch s'] eqn:Hs; [discriminate|].
  intros H. exists ch, s'. split; [reflexivity|].
  destruct (nat_of_ascii ch =? 93)%nat eqn:E; [|reflexivity].
  apply nat_of_ascii_inj_const in E. subst ch. exfalso.
  revert H. change (ascii_of_nat 93) with "]"%char. cbv zeta.
  change (nat_of_ascii "]") with 93%nat. cbn [Nat.eqb].
  rewrite parse_integer_bracket. discriminate.
Qed.

Lemma parse_members_first (fuel : nat) (s : string)
    (r : list (string * value) * string) :
  parse_members fuel s = Ok r ->
  exists ch s', skip_ws s = String ch s' /\ (nat_of_ascii ch =? 125)%nat = false.
Proof.
  destruct fuel as [|fuel]; try discriminate.
  cbn [parse_members].
  destruct (skip_ws s) as [|ch s'] eqn:Hs; [discriminate|].
  intros H. exists ch, s'. split; [reflexivity|].
  destruct (nat_of_ascii ch =? 34)%nat eqn:E; [|discriminate].
  apply Nat.eqb_eq in E. rewrite E. reflexivity.
Qed.

Lemma parse_elements_separated (n : nat) (items : list string) (t : string) :
  comma_separated items t ->
  forall (vs : list value),
    Forall2 (parses_within n) items vs ->
    forall (fuel : nat) (b rest : string),
      (n + List.length items <= fuel)%nat -> is_blank b = true ->
      parse_elements fuel (t ++ b ++ "]" ++ rest) = Ok (vs, rest).
Proof.
  induction 1 as [item|item items b0 b0' t Hb0 Hb0' _ IH];
    intros vs Hvs fuel b rest Hf Hb.
  - inversion Hvs as [|? v ? vs' Hitem Hrest]; subst. inversion Hrest; subst.
    destruct fuel as [|fuel]; [simpl in Hf; lia|]. cbn [parse_elements].
    rewrite (Hitem fuel (b ++ "]" ++ rest));
      [|simpl in Hf; lia | now apply ends_value_blank].
    cbn [bind fst snd]. rewrite (skip_ws_blank b _ Hb). reflexivity.
  - inversion Hvs as [|? v ? vs' Hitem Hrest]; subst.
    destruct fuel as [|fuel]; [simpl in Hf; lia|]. cbn [parse_elements].
    rewrite !append_assoc_string.
    rewrite (Hitem fuel (b0 ++ "," ++ b0' ++ t ++ b ++ "]" ++ rest));
      [|simpl in Hf; lia | now apply ends_value_blank].
    cbn [bind fst snd]. rewrite (skip_ws_blank b0 _ Hb0).
    cbn [append skip_ws]. change (is_ws ",") with false. cbv iota.
    change (nat_of_ascii ",") with 44%nat. cbn [Nat.eqb].
    rewrite (parse_elements_blank fuel b0' _ Hb0').
    pose proof (IH vs' Hrest fuel b rest ltac:(simpl in Hf; lia) Hb) as Hih.
    cbn [append] in Hih. rewrite Hih. reflexivity.
Qed.

Lemma parses_array (n : nat) (items : list string) (t b0 b1 : string)
    (vs : list value) :
  comma_separated items t ->
  Forall2 (parses_within n) items vs ->
  is_blank b0 = true -> is_blank b1 = true ->
  parses_within (S (n + List.length items)) ("[" ++ b0 ++ t ++ b1 ++ "]") (VArray vs).
Proof.
  intros Hcs Hvs Hb0 Hb1 fuel rest Hf Hrest.
  destruct fuel as [|fuel]; [lia|].
  rewrite !append_assoc_string. cbn [append].
  pose proof (parse_elements_separated n items t Hcs vs Hvs fuel b1 rest
                ltac:(lia) Hb1) as Hrun.
  rewrite <- (parse_elements_blank fuel b0 _ Hb0) in Hrun.
  destruct (parse_elements_first _ _ _ Hrun) as (ch & s' & Hskip & Hch).
  cbn [parse_value skip_ws]. change (is_ws "[") with false. cbv iota zeta.
  change (nat_of_ascii "[") with 91%nat. cbn [Nat.eqb].
  cbn [append] in Hskip, Hrun. rewrite Hskip, Hch, Hrun. reflexivity.
Qed.

Lemma parse_members_separated (n : nat) (items : list string) (t : string) :
  comma_separated items t ->
  forall (kvs : list (string * value)),
    Forall2 (member_text n) items kvs ->
    forall (fuel : nat) (b rest : string),
      (n + List.length items <= fuel)%nat -> is_blank b = true ->
      parse_members fuel (t ++ b ++ "}" ++ rest) = Ok (kvs, rest).
Proof.
  induction 1 as [item|item items b0 b0' t Hb0 Hb0' _ IH];
    intros kvs Hkvs fuel b rest Hf Hb.
  - inversion Hkvs as [|? [key v] ? kvs' Hitem Hrest]; subst. inversion Hrest; subst.
    destruct Hitem as (c & c' & vt & Hc & Hc' & -> & Hvt). cbn [fst snd] in *.
    destruct fuel as [|fuel]; [simpl in Hf; lia|]. cbn [parse_members].
    unfold QuoteJSONString. rewrite !append_assoc_string.
    change (dquote ++ ?x) with (String "034"%char x).
    cbn [skip_ws]. change (is_ws "034") with false. cbv iota.
    change (nat_of_ascii "034") with 34%nat. cbn [Nat.eqb].
    rewrite parse_quote_body. rewrite (skip_ws_blank c _ Hc).
    cbn [append skip_ws]. change (is_ws ":") with false. cbv iota.
    change (nat_of_ascii ":") with 58%nat. cbn [Nat.eqb].
    rewrite (parse_value_blank fuel c' _ Hc').
    pose proof (Hvt fuel (b ++ "}" ++ rest) ltac:(simpl in Hf; lia)
                  ltac:(now apply ends_value_blank)) as Hv.
    cbn [append] in Hv. rewrite Hv.
    cbn [bind fst snd]. rewrite (skip_ws_blank b _ Hb). reflexivity.
  - inversion Hkvs as [|? [key v] ? kvs' Hitem Hrest]; subst.
    destruct Hitem as (c & c' & vt & Hc & Hc' & -> & Hvt). cbn [fst snd] in *.
    destruct fuel as [|fuel]; [simpl in Hf; lia|]. cbn [parse_members].
    unfold QuoteJSONString. rewrite !append_assoc_string.
    change (dquote ++ ?x) with (String "034"%char x).
    cbn [skip_ws]. change (is_ws "034") with false. cbv iota.
    change (nat_of_ascii "034") with 34%nat. cbn [Nat.eqb].
    rewrite parse_quote_body. rewrite (skip_ws_blank c _ Hc).
    cbn [append skip_ws]. change (is_ws ":") with false. cbv iota.
    change (nat_of_ascii ":") with 58%nat. cbn [Nat.eqb].
    rewrite (parse_value_blank fuel c' _ Hc').
    pose proof (Hvt fuel (b0 ++ "," ++ b0' ++ t ++ b ++ "}" ++ rest)
                  ltac:(simpl in Hf; lia) ltac:(now apply ends_value_blank)) as Hv.
    cbn [append] in Hv. rewrite Hv.
    cbn [bind fst snd]. rewrite (skip_ws_blank b0 _ Hb0).
    cbn [append skip_ws]. change (is_ws ",") with false. cbv iota.
    change (nat_of_ascii ",") with 44%nat. cbn [Nat.eqb].
    rewrite (parse_members_blank fuel b0' _ Hb0').
    pose proof (IH kvs' Hrest fuel b rest ltac:(simpl in Hf; lia) Hb) as Hih.
    cbn [append] in Hih. rewrite Hih. reflexivity.
Qed.

Lemma parses_object (n : nat) (items : list string) (t b0 b1 : string)
    (kvs : list (string * value)) :
  comma_separated items t ->
  Forall2 (member_text n) items kvs ->
  is_blank b0 = true -> is_blank b1 = true ->
  parses_within (S (n + List.length items)) ("{" ++ b0 ++ t ++ b1 ++ "}") (VObject kvs).
Proof.
  intros Hcs Hkvs Hb0 Hb1 fuel rest Hf Hrest.
  destruct fuel as [|fuel]; [lia|].
  rewrite !append_assoc_string. cbn [append].
  pose proof (parse_members_separated n items t Hcs kvs Hkvs fuel b1 rest
                ltac:(lia) Hb1) as Hrun.
  rewrite <- (parse_members_blank fuel b0 _ Hb0) in Hrun.
  destruct (parse_members_first _ _ _ Hrun) as (ch & s' & Hskip & Hch).
  cbn [parse_value skip_ws]. change (is_ws "{") with false. cbv iota zeta.
  change (nat_of_ascii "{") with 123%nat. cbn [Nat.eqb].
  cbn [append] in Hskip, Hrun. rewrite Hskip, Hch, Hrun. reflexivity.
Qed.

(** *** The layouts *)

Lemma one_per_line_shape (c : closure) (open close : string) (items : list string)
    (depth : nat) :
  one_per_line c open close items depth
  = open ++ (newline ++ repeat_nat (c_indent c) (depth + 1))
         ++ join (EmptyString ++ "," ++ newline ++ repeat_nat (c_indent c) (depth + 1))
                 items
         ++ (newline ++ repeat_nat (c_indent c) depth) ++ close.
Proof.
  unfold one_per_line. cbv zeta. now rewrite !append_assoc_string.
Qed.

Lemma is_blank_line_indent (c : closure) (depth : nat) :
  is_blank (c_indent c) = true ->
  is_blank (newline ++ repeat_nat (c_indent c) depth) = true.
Proof.
  intros Hind. rewrite is_blank_app. now rewrite is_blank_repeat.
Qed.

Lemma formatArray_parses (c : closure) (n : nat) (items : list string)
    (vs : list value) (depth : nat) (nestedItems : bool) (keyLength : Z)
    (allowInline : bool) (text : string) :
  is_blank (c_indent c) = true ->
  Forall2 (parses_within n) items vs ->
  formatArray c items depth nestedItems keyLength allowInline = Ok text ->
  parses_within (S (n + List.length items)) text (VArray vs).
Proof.
  intros Hind Hitems Hrun. unfold formatArray in Hrun.
  destruct Hitems as [|item v items vs Hv Hitems].
  { injection Hrun as <-. intros fuel rest Hf _.
    destruct fuel as [|fuel]; [lia | reflexivity]. }
  assert (Hall : Forall2 (parses_within n) (item :: items) (v :: vs)) by now constructor.
  match type of Hrun with (if ?b then _ else _) = _ => destruct b end.
  - injection Hrun as <-.
    apply (parses_array n (item :: items) (join ", " (item :: items)) " " " " (v :: vs));
      try reflexivity; try assumption.
    apply (comma_separated_join EmptyString " "); try reflexivity. discriminate.
  - match type of Hrun with (if ?b then _ else _) = _ => destruct b end.
    + destruct (findMaxItemsWide_result (item :: items) (c_maxLineLength c))
        as (best & Hbest & Hb & _); [discriminate|].
      rewrite Hbest in Hrun. cbn [bind] in Hrun.
      destruct (mapM _ (grid_rows (item :: items) best)) as [rows| |] eqn:Hrows;
        cbn [bind] in Hrun; try discriminate.
      injection Hrun as <-. rewrite one_per_line_shape.
      apply (parses_array n (item :: items)); try assumption;
        try (now apply is_blank_line_indent).
      refine (comma_separated_grid (item :: items) best _ rows _ _ (proj1 Hb)
                                   _ _ _ Hrows);
        [discriminate | reflexivity | now apply is_blank_line_indent].
    + injection Hrun as <-. rewrite one_per_line_shape.
      apply (parses_array n (item :: items)); try assumption;
        try (now apply is_blank_line_indent).
      apply comma_separated_join; try reflexivity; try discriminate.
      now apply is_blank_line_indent.
Qed.

Lemma formatObject_parses (c : closure) (n : nat) (items : list string)
    (kvs : list (string * value)) (depth : nat) (nestedItems : bool) (keyLength : Z)
    (allowInline : bool) (text : string) :
  is_blank (c_indent c) = true ->
  Forall2 (member_text n) items kvs ->
  formatObject c items depth nestedItems keyLength allowInline = Ok text ->
  parses_within (S (n + List.length items)) text (VObject kvs).
Proof.
  intros Hind Hitems Hrun. unfold formatObject in Hrun.
  destruct Hitems as [|item kv items kvs Hkv Hitems].
  { injection Hrun as <-. intros fuel rest Hf _.
    destruct fuel as [|fuel]; [lia | reflexivity]. }
  assert (Hall : Forall2 (member_text n) (item :: items) (kv :: kvs)) by now constructor.
  match type of Hrun with (if ?b then _ else _) = _ => destruct b end.
  - injection Hrun as <-.
    apply (parses_object n (item :: items) (join ", " (item :: items)) " " " " (kv :: kvs));
      try reflexivity; try assumption.
    apply (comma_separated_join EmptyString " "); try reflexivity. discriminate.
  - injection Hrun as <-. rewrite one_per_line_shape.
    apply (parses_object n (item :: items)); try assumption;
      try (now apply is_blank_line_indent).
    apply comma_separated_join; try reflexivity; try discriminate.
    now apply is_blank_line_indent.
Qed.

(** *** The values *)

Lemma is_json_toJSON (props : list (string * value)) :
  is_json (VObject props) = true -> toJSON_of (VObject props) = None.
Proof.
  intros Hj. cbn [toJSON_of].
  destruct (assoc "toJSON" props) as [v|] eqn:Hv; [|reflexivity].
  apply assoc_In in Hv. cbn [is_json] in Hj. apply andb_true_iff in Hj.
  destruct Hj as [_ Hj]. rewrite forallb_forall in Hj.
  specialize (Hj _ Hv). destruct v; try reflexivity. discriminate.
Qed.

Lemma is_json_representable (v : value) : is_json v = true -> representable v = true.
Proof. destruct v; simpl; intros H; try reflexivity; discriminate. Qed.

Lemma is_json_member (props : list (string * value)) (k : string) :
  is_json (VObject props) = true ->
  In k (map fst props) ->
  is_json (get (VObject props) k) = true /\
  (height (get (VObject props) k) < height (VObject props))%nat /\
  (parse_fuel (get (VObject props) k)
   <= list_max (map (fun p => parse_fuel (snd p)) props))%nat.
Proof.
  intros Hj Hk. destruct (assoc_key k props Hk) as (v & Hv).
  cbn [get]. rewrite Hv. apply assoc_In in Hv.
  cbn [is_json] in Hj. apply andb_true_iff in Hj. destruct Hj as [_ Hj].
  rewrite forallb_forall in Hj. split; [exact (Hj _ Hv)|]. split.
  - cbn [height].
    pose proof (list_max_In _ _ (in_map (fun p => height (snd p)) _ _ Hv)).
    cbn [snd] in *. lia.
  - exact (list_max_In _ _ (in_map (fun p => parse_fuel (snd p)) _ _ Hv)).
Qed.

Lemma object_members (props : list (string * value)) :
  distinct (map fst props) = true ->
  map (fun k => (k, get (VObject props) k)) (map fst props) = props.
Proof.
  induction props as [|[k v] props IH]; intros Hd; [reflexivity|].
  cbn [map fst distinct] in Hd. apply andb_true_iff in Hd. destruct Hd as [Hk Hd].
  apply negb_true_iff in Hk.
  cbn [map fst]. f_equal.
  - cbn [get assoc]. now rewrite String.eqb_refl.
  - rewrite <- (IH Hd) at 2. apply map_ext_in. intros k' Hk'. f_equal.
    cbn [get assoc]. destruct (String.eqb_spec k' k) as [->|_]; [|reflexivity].
    exfalso. apply mem_In in Hk'. congruence.
Qed.

Lemma map_snd_indexed {A : Type} (l : list A) : map snd (indexed l) = l.
Proof.
  unfold indexed. generalize 0%nat. induction l as [|a l IH]; intros s; simpl;
    [reflexivity | now rewrite IH].
Qed.

Lemma Forall2_flip_map {A B C : Type} (R : B -> C -> Prop) (f : A -> C)
    (l : list A) (bs : list B) :
  Forall2 (fun a b => R b (f a)) l bs -> Forall2 R bs (map f l).
Proof.
  induction 1; simpl; constructor; assumption.
Qed.

Lemma processValue_parses (c : closure) :
  c_replaceFunc c = None -> c_tableArrays c = false -> c_tableObjects c = false ->
  is_blank (c_indent c) = true ->
  forall (fuel : nat) (v : value) (key : string) (depth : nat) (parentObj : value)
         (keyLength : Z) (allowTables : bool),
    is_json v = true -> (height v < fuel)%nat ->
    exists p,
      processValue c fuel key v depth parentObj keyLength allowTables = Ok (Some p) /\
      parses_within (parse_fuel v) (result p) v.
Proof.
  intros Hr Ha Ho Hind. induction fuel as [|fuel IH];
    intros v key depth parentObj keyLength allowTables Hj Hh; [lia|].
  cbn [processValue]. unfold apply_replace. rewrite Hr.
  destruct v as [| |b|n|z|s|a r|items|props]; try discriminate.
  - eexists. split; [reflexivity|]. intros f rest Hf _.
    destruct f as [|f]; [simpl in Hf; lia | reflexivity].
  - destruct b; (eexists; split; [reflexivity|]; intros f rest Hf _;
                 destruct f as [|f]; [simpl in Hf; lia | reflexivity]).
  - destruct n as [z| | |]; try discriminate.
    cbn [JSON_stringify_scalar bind]. eexists. split; [reflexivity|].
    apply parses_number.
  - cbn [JSON_stringify_scalar bind]. eexists. split; [reflexivity|].
    apply parses_string.
  - rewrite Ha. cbn [andb bind].
    destruct (mapM_Forall2
                (fun '(i, item) =>
                   p <- processValue c fuel (nat_to_string i) item (depth + 1)
                          (VArray items) 0 true ;;
                   match p with
                   | Some p => Ok (result p)
                   | None => no_result
                   end)
                (fun (a : nat * value) (b : string) =>
                   parses_within (list_max (map parse_fuel items)) b (snd a))
                (indexed items)) as (rendered & -> & HR).
    { intros [i item] Hin. apply in_indexed in Hin.
      cbn [is_json] in Hj. rewrite forallb_forall in Hj.
      destruct (IH item (nat_to_string i) (depth + 1)%nat (VArray items) 0 true)
        as (p & -> & Hp).
      - now apply Hj.
      - cbn [height] in Hh. pose proof (list_max_In _ _ (in_map height _ _ Hin)). lia.
      - cbn [bind]. eexists. split; [reflexivity|]. cbn [snd].
        apply (parses_within_le _ _ _ _ Hp).
        exact (list_max_In _ _ (in_map parse_fuel _ _ Hin)). }
    apply (Forall2_flip_map (parses_within (list_max (map parse_fuel items))) snd) in HR.
    rewrite map_snd_indexed in HR.
    cbn [bind]. destruct (array_flags items) as [nested multiple].
    destruct (formatArray_total c rendered depth multiple keyLength
                (inline_allowed c parentObj key (VArray items))) as (text & Htext).
    rewrite Htext. cbn [bind]. eexists. split; [reflexivity|]. cbn [result parse_fuel].
    rewrite <- (Forall2_length HR).
    exact (formatArray_parses c _ _ _ _ _ _ _ _ Hind HR Htext).
  - rewrite (is_json_toJSON props Hj). rewrite Ho. cbn [andb bind].
    rewrite (filter_all (fun k => representable (get (VObject props) k)) (map fst props))
      by (intros k Hk; apply is_json_representable;
          exact (proj1 (is_json_member props k Hj Hk))).
    destruct (mapM_Forall2
                (fun k =>
                   p <- processValue c fuel k (get (VObject props) k) (depth + 1)
                          (VObject props) (len (QuoteJSONString k ++ ": ")) true ;;
                   match p with
                   | Some p => Ok ((QuoteJSONString k ++ ": ") ++ result p, nested p)
                   | None => no_result
                   end)
                (fun (k : string) (b : string * bool) =>
                   member_text (list_max (map (fun p => parse_fuel (snd p)) props))
                               (fst b) (k, get (VObject props) k))
                (map fst props)) as (rendered & -> & HR).
    { intros k Hk. destruct (is_json_member props k Hj Hk) as (Hjk & Hhk & Hfk).
      destruct (IH (get (VObject props) k) k (depth + 1)%nat (VObject props)
                   (len (QuoteJSONString k ++ ": ")) true)
        as (p & -> & Hp); [exact Hjk | lia |].
      cbn [bind]. eexists. split; [reflexivity|]. cbn [fst].
      exists EmptyString, " ", (result p). cbn [fst snd].
      split; [reflexivity|]. split; [reflexivity|]. split.
      - now rewrite append_assoc_string.
      - exact (parses_within_le _ _ _ _ Hp Hfk). }
    cbn [bind].
    destruct (formatObject_total c (map fst rendered) depth (existsb snd rendered)
                keyLength (inline_allowed c parentObj key (VObject props)))
      as (text & Htext).
    rewrite Htext. cbn [bind]. eexists. split; [reflexivity|]. cbn [result parse_fuel].
    assert (Hmembers : Forall2 (member_text (list_max (map (fun p => parse_fuel (snd p))
                                                           props)))
                               (map fst rendered) props).
    { cbn [is_json] in Hj. apply andb_true_iff in Hj. destruct Hj as [Hd _].
      rewrite <- (object_members props Hd) at 2.
      clear -HR. induction HR; simpl; constructor; assumption. }
    replace (List.length props) with (List.length (map fst rendered))
      by (rewrite (Forall2_length Hmembers); reflexivity).
    exact (formatObject_parses c _ _ _ _ _ _ _ _ Hind Hmembers Htext).
Qed.

Lemma is_json_plain (n : nat) :
  forall v, (height v < n)%nat -> is_json v = true -> plain v = true.
Proof.
  induction n as [|n IH]; intros v Hh Hj; [lia|].
  destruct v as [| |b|[z| | |]|z|s|a r|items|props]; try discriminate; try reflexivity.
  - cbn [plain is_json height] in *. rewrite forallb_forall in *.
    intros x Hx. apply IH; [|now apply Hj].
    pose proof (list_max_In _ _ (in_map height _ _ Hx)). lia.
  - cbn [plain is_json height] in *. apply andb_true_iff in Hj. destruct Hj as [_ Hj].
    rewrite forallb_forall in *. intros x Hx. apply IH; [|now apply Hj].
    pose proof (list_max_In _ _ (in_map (fun p => height (snd p)) _ _ Hx)).
    cbn [snd] in *. lia.
Qed.

(** X20: what [stringify] writes reads back as the value, when no table
    is formed.  For every tree of null, booleans, finite numbers,
    strings, arrays and objects (with distinct keys), with no [replace]
    callback and an indent of one or more whitespace characters,
    whatever the other options are (line length, item limits, packing of
    long arrays, [allowInline]), and either [tables: false] or a value
    without table candidates, [stringify] returns a text and
    [JSON.parse] of that text is the value. *)
Theorem stringify_round_trip (o : StringifyOptions) (v : value) (fuel : nat) :
  replace o = Absent ->
  is_NotFn (allowInline o) = false ->
  is_NotFn (allowTable o) = false ->
  tables o = Some false \/ table_free v = true ->
  is_blank (indent_of o) = true ->
  indent_of o <> EmptyString ->
  is_json v = true ->
  (height v < fuel)%nat ->
  exists text,
    stringify fuel v o = Ok (Some text) /\
    forall fuel', (parse_fuel v <= fuel')%nat -> JSON_parse fuel' text = Ok v.
Proof.
  intros Hr Hi Ht Htab Hind Hne Hj Hh.
  assert (Hrun : exists p,
             processValue (capture o) fuel EmptyString v 0 (root_holder v) 0 true
             = Ok (Some p) /\
             parses_within (parse_fuel v) (result p) v).
  { destruct Htab as [Htab|Hfree].
    - apply processValue_parses; try assumption;
        unfold capture; cbn; first [now rewrite Hr | now rewrite Htab].
    - rewrite (processValue_table_free (capture o));
        [|unfold capture; cbn; now rewrite Hr
         |exact (is_json_plain fuel v Hh Hj) | exact Hfree].
      apply processValue_parses; try assumption; try reflexivity.
      unfold capture; cbn; now rewrite Hr. }
  destruct Hrun as (p & Hrun & Hparse).
  unfold stringify.
  destruct (String.length (indent_of o) =? 0)%nat eqn:Hlen.
  { apply Nat.eqb_eq in Hlen. destruct (indent_of o); [contradiction | discriminate]. }
  rewrite Hr.
  destruct (allowInline o); try discriminate;
    (destruct (allowTable o); try discriminate;
     (rewrite Hrun; cbn [bind option_map];
      exists (result p); split; [reflexivity|];
      intros fuel' Hf; unfold JSON_parse;
      pose proof (Hparse fuel' EmptyString Hf eq_refl) as Hp;
      rewrite append_empty_r in Hp; rewrite Hp; reflexivity)).
Qed.

Lemma stringify_round_trip_witness :
  let v := VObject [("a", VArray [VNumber (Int 1); VArray [VString "x y"]; VNull]);
                    ("b", VNumber (Int (-20)))] in
  stringify 4 v no_options
  = Ok (Some (js "{$  'a': [$    1,$    [ 'x y' ],$    null$  ],$  'b': -20$}")) /\
  exists text,
    stringify 4 v no_options = Ok (Some text) /\
    forall fuel', (parse_fuel v <= fuel')%nat -> JSON_parse fuel' text = Ok v.
Proof.
  split; [reflexivity|].
  apply (stringify_round_trip no_options
           (VObject [("a", VArray [VNumber (Int 1); VArray [VString "x y"]; VNull]);
                     ("b", VNumber (Int (-20)))]) 4);
    try reflexivity.
  - right. reflexivity.
  - discriminate.
  - simpl. lia.
Defined.

(** ** The keyed cells of [tableOfObjects] (lines 424-432) *)

Lemma keyed_cells_plain_column_gen (c : closure)
    (cell : value -> outcome (option processed)) (jsonKey : string) :
  forall (col : list value) (width width' : option Z) (cells : list (option string)),
    keyed_cells_plain c cell jsonKey col width = Ok (Some (width', cells)) ->
    Forall2 (fun v cl =>
               if is_undefined v then cl = None
               else exists p, cell v = Ok (Some p) /\
                              cl = Some (jsonKey ++ ": " ++ result p))
            col cells /\
    (forall s, In (Some s) cells ->
               len s <= nullish width' 0 /\ len s <= c_maxLineLength c /\
               includes_newline s = false) /\
    nullish width 0 <= nullish width' 0 /\
    (width' = width \/ exists s, In (Some s) cells /\ width' = Some (len s)) /\
    (Forall (fun cl => cl = None) cells \/ width' <> None).
Proof.
  induction col as [|v col IH]; intros width width' cells Hrun; simpl in Hrun.
  - inversion Hrun; subst. split; [constructor|]. split; [intros s []|].
    split; [lia|]. split; [now left | left; constructor].
  - destruct (is_undefined v) eqn:Hv.
    + destruct (keyed_cells_plain c cell jsonKey col width) as [[[w cs]|]| |] eqn:Hrest;
        cbn [bind] in Hrun; try discriminate.
      inversion Hrun; subst. clear Hrun.
      destruct (IH _ _ _ Hrest) as (H1 & H2 & H3 & H4 & H5).
      split; [constructor; [now rewrite Hv | assumption]|].
      split; [intros s [Hs|Hs]; [discriminate | now apply H2]|].
      split; [assumption|]. split.
      * destruct H4 as [H4|(s & Hs & H4)]; [now left | right].
        exists s. split; [now right | assumption].
      * destruct H5 as [H5|H5]; [left; now constructor | now right].
    + destruct (cell v) as [[p|]| |] eqn:Hcell; cbn [bind] in Hrun; try discriminate.
      cbv zeta in Hrun.
      match type of Hrun with
      | (if ?b then _ else _) = _ => destruct b eqn:Hbad
      end; [discriminate|].
      apply orb_false_iff in Hbad. destruct Hbad as [Hwide Hnl].
      rewrite Z.gtb_ltb in Hwide. apply Z.ltb_ge in Hwide.
      destruct (keyed_cells_plain c cell jsonKey col _) as [[[w cs]|]| |] eqn:Hrest;
        cbn [bind] in Hrun; try discriminate.
      inversion Hrun; subst. clear Hrun.
      destruct (IH _ _ _ Hrest) as (H1 & H2 & H3 & H4 & H5).
      cbn [nullish] in H3.
      match type of Hnl with includes_newline ?x = false => set (s0 := x) in * end.
      assert (Hw : width' <> None).
      { destruct H4 as [->|(s & _ & ->)]; discriminate. }
      split.
      { constructor; [|assumption]. rewrite Hv. exists p.
        split; [exact Hcell | reflexivity]. }
      split.
      * intros s [Hs|Hs]; [|now apply H2].
        inversion Hs; subst s. repeat split; try assumption; lia.
      * split; [lia|]. split; [|now right].
        destruct H4 as [H4|(s & Hs & H4)].
        -- subst width'.
           destruct (Z.max_spec (nullish width 0) (len s0)) as [[Hlt Hm]|[Hge Hm]].
           ++ right. exists s0. split; [now left | now rewrite Hm].
           ++ destruct width as [w0|].
              ** left. cbn [nullish] in *. now rewrite Hm.
              ** right. exists s0. split; [now left|].
                 cbn [nullish] in *. pose proof (len_nonneg s0). f_equal. lia.
        -- right. exists s. split; [now right | assumption].
Qed.

(** X21: a column of keyed cells in [tableOfObjects], without decimal
    alignment (lines 424-432).  When the loop ends without giving the
    table up, the column has a hole exactly where the row lacks the key
    (its value is [undefined]), and for every other row the value was
    rendered and the cell is the key as a string literal, a colon and a
    space, then the text that rendering gave; every cell is a single
    line of at most [maxLineLength] characters; and the width of the
    column is the length of its longest cell, unset only when the
    column has no cell at all. *)
Theorem keyed_cells_plain_column (c : closure)
    (cell : value -> outcome (option processed)) (jsonKey : string)
    (col : list value) (width : option Z) (cells : list (option string)) :
  keyed_cells_plain c cell jsonKey col None = Ok (Some (width, cells)) ->
  Forall2 (fun v cl =>
             if is_undefined v then cl = None
             else exists p, cell v = Ok (Some p) /\
                            cl = Some (jsonKey ++ ": " ++ result p))
          col cells /\
  (forall s, In (Some s) cells ->
             len s <= nullish width 0 /\ len s <= c_maxLineLength c /\
             includes_newline s = false) /\
  match width with
  | Some w => exists s, In (Some s) cells /\ len s = w
  | None => Forall (fun cl => cl = None) cells
  end.
Proof.
  intros Hrun.
  destruct (keyed_cells_plain_column_gen c cell jsonKey _ _ _ _ Hrun)
    as (H1 & H2 & _ & H4 & H5).
  split; [assumption|]. split; [assumption|].
  destruct width as [w|].
  - destruct H4 as [H4|(s & Hs & H4)]; [discriminate|].
    exists s. split; [assumption | congruence].
  - destruct H5 as [H5|H5]; [assumption | contradiction].
Qed.

Lemma keyed_cells_plain_column_witness :
  let c := capture no_options in
  let cell := fun v => processValue c 1 "x" v 0 VNull 0 false in
  let col := [VNumber (Int 1); VUndefined; VNumber (Int 250)] in
  let cells := [Some (js "'x': 1"); None; Some (js "'x': 250")] in
  keyed_cells_plain c cell (js "'x'") col None = Ok (Some (Some 8, cells)) /\
  Forall2 (fun v cl =>
             if is_undefined v then cl = None
             else exists p, cell v = Ok (Some p) /\
                            cl = Some (js "'x'" ++ ": " ++ result p))
          col cells /\
  (forall s, In (Some s) cells ->
             len s <= nullish (Some 8) 0 /\ len s <= c_maxLineLength c /\
             includes_newline s = false) /\
  exists s, In (Some s) cells /\ len s = 8.
Proof.
  split; [reflexivity|].
  apply (keyed_cells_plain_column (capture no_options)
           (fun v => processValue (capture no_options) 1 "x" v 0 VNull 0 false)
           (js "'x'")
           [VNumber (Int 1); VUndefined; VNumber (Int 250)]
           (Some 8) [Some (js "'x': 1"); None; Some (js "'x': 250")]).
  reflexivity.
Defined.

(** ** The labelled cells of [tableOfObjects] (lines 414-421) *)




(** ** The first line of a block (lines 152-159, 491-496 and 513-514) *)

Lemma starts_item_app (a b : string) :
  starts_item a = true -> starts_item (a ++ b) = true.
Proof. destruct a; [discriminate | trivial]. Qed.

Lemma starts_item_bracket (s : string) :
  (first_char_is "["%char s || first_char_is "{"%char s) = true ->
  starts_item s = true.
Proof.
  destruct s as [|ch s]; [discriminate|]. unfold first_char_is. intros H.
  apply orb_true_iff in H. destruct H as [H|H]; apply Ascii.eqb_eq in H; subst ch;
    reflexivity.
Qed.

Lemma quote_char_no_newline (ch : ascii) : includes_newline (quote_char ch) = false.
Proof. destruct ch as [[] [] [] [] [] [] [] []]; reflexivity. Qed.

Lemma quote_body_no_newline (s : string) : includes_newline (quote_body s) = false.
Proof.
  induction s as [|ch s IH]; [reflexivity|].
  cbn [quote_body]. now rewrite includes_newline_app, quote_char_no_newline, IH.
Qed.

Lemma QuoteJSONString_no_newline (s : string) :
  includes_newline (QuoteJSONString s) = false.
Proof.
  unfold QuoteJSONString. now rewrite !includes_newline_app, quote_body_no_newline.
Qed.

Lemma QuoteJSONString_starts (s rest : string) :
  starts_item (QuoteJSONString s ++ rest) = true.
Proof. reflexivity. Qed.

Lemma uint_text_plain (d : Decimal.uint) :
  includes_newline (NilEmpty.string_of_uint d) = false /\
  (d <> Decimal.Nil -> starts_item (NilEmpty.string_of_uint d) = true).
Proof.
  induction d as [|d [IH _]|d [IH _]|d [IH _]|d [IH _]|d [IH _]|d [IH _]|d [IH _]
                   |d [IH _]|d [IH _]|d [IH _]];
    (split; [try reflexivity; cbn [NilEmpty.string_of_uint includes_newline];
             rewrite IH; reflexivity
            | intros H; try reflexivity; now contradiction H]).
Qed.

Lemma number_json_plain (n : number) :
  includes_newline (number_json n) = false /\ starts_item (number_json n) = true.
Proof.
  destruct n as [z| | |]; try (split; reflexivity).
  unfold number_json, Z_to_string, NilZero.string_of_int, NilZero.string_of_uint.
  destruct (Z.to_int z) as [d|d].
  - destruct d; try (split; reflexivity);
      match goal with
      | |- context [NilEmpty.string_of_uint ?u] =>
          destruct (uint_text_plain u) as [Hn Hs]
      end; (split; [exact Hn | apply Hs; discriminate]).
  - split; [|reflexivity].
    cbn [includes_newline]. change (Ascii.eqb "-" "010") with false. cbn [orb].
    destruct d; try reflexivity;
      match goal with
      | |- context [NilEmpty.string_of_uint ?u] =>
          destruct (uint_text_plain u) as [Hn _]
      end; rewrite Hn; reflexivity.
Qed.

Lemma one_per_line_start (c : closure) (open close : string) (rows : list string)
    (depth : nat) :
  rows_start rows ->
  exists ch rest,
    one_per_line c open close rows depth
    = open ++ newline ++ repeat_nat (c_indent c) (depth + 1) ++ String ch rest /\
    is_ws ch = false.
Proof.
  intros Hrows. unfold one_per_line. cbv zeta.
  destruct rows as [|first more]; [contradiction|].
  rewrite join_cons_fold.
  destruct Hrows as [Hfirst | (-> & r & Hr & _)].
  - destruct first as [|ch first]; [discriminate|].
    simpl in Hfirst. apply negb_true_iff in Hfirst.
    eexists ch, _. split; [|exact Hfirst].
    cbn [append]. reflexivity.
  - destruct more as [|r0 more]; [contradiction|].
    exists ","%char. eexists. split; [|reflexivity].
    cbn [fold_right append]. reflexivity.
Qed.

Lemma grid_rows_first {A : Type} (first : A) (more : list A) (itemsWide : Z) :
  1 <= itemsWide ->
  exists row rows, grid_rows (first :: more) itemsWide = (first :: row) :: rows.
Proof.
  intros Hw. unfold grid_rows.
  set (n := Z.of_nat (List.length (first :: more))).
  assert (Hn : 1 <= n) by (unfold n; simpl; lia).
  assert (Hq : 1 <= (n + itemsWide - 1) / itemsWide).
  { apply Z.div_le_lower_bound; lia. }
  destruct (Z.to_nat ((n + itemsWide - 1) / itemsWide)) as [|q] eqn:Eq; [lia|].
  destruct (Z.to_nat itemsWide) as [|w] eqn:Ew; [lia|].
  cbn [seq map]. rewrite Nat.mul_0_l. cbn [skipn firstn].
  eexists _, _. reflexivity.
Qed.

Lemma formatArray_start (c : closure) (items : list string) (depth : nat)
    (nestedItems : bool) (keyLength : Z) (allowInline : bool) (text : string) :
  formatArray c items depth nestedItems keyLength allowInline = Ok text ->
  (items <> [] -> rows_start items) ->
  starts_block c depth text.
Proof.
  intros Hrun Hstart. unfold formatArray in Hrun.
  destruct items as [|item items];
    [inversion Hrun; split; [reflexivity | discriminate]|].
  specialize (Hstart ltac:(discriminate)).
  match type of Hrun with (if ?b then _ else _) = _ => destruct b eqn:Hinline end.
  - inversion Hrun; subst text. split; [reflexivity|].
    intros Hnl.
    repeat (apply andb_true_iff in Hinline; destruct Hinline as [Hinline ?]).
    match goal with H : negb _ = true |- _ => apply negb_true_iff in H; congruence end.
  - assert (Hblock : forall rows, rows_start rows ->
                                  starts_block c depth (one_per_line c "[" "]" rows depth)).
    { intros rows Hrows. split; [reflexivity|]. intros _.
      destruct (one_per_line_start c "[" "]" rows depth Hrows) as (ch & rest & E & Hch).
      exists "[", ch, rest. split; [now left | split; assumption]. }
    match type of Hrun with (if ?b then _ else _) = _ => destruct b eqn:Hpack end.
    + destruct (findMaxItemsWide _ _ _) as [[itemsWide columnWidths]| |] eqn:Hfind;
        cbn [bind] in Hrun; try discriminate.
      destruct (mapM _ _) as [rows| |] eqn:Hrows; cbn [bind] in Hrun; try discriminate.
      inversion Hrun; subst text. apply Hblock.
      repeat (apply andb_true_iff in Hpack; destruct Hpack as [Hpack ?]).
      match goal with H : forallb _ _ = true |- _ => rename H into Hall end.
      assert (Hitem : starts_item item = true).
      { destruct Hstart as [Hs | (_ & r & Hr & Hbr)]; [exact Hs|].
        exfalso. rewrite forallb_forall in Hall.
        specialize (Hall r (or_intror Hr)).
        apply andb_true_iff in Hall. destruct Hall as [Hall Hcurly].
        apply andb_true_iff in Hall. destruct Hall as [_ Hsquare].
        apply negb_true_iff in Hsquare, Hcurly.
        rewrite Hsquare, Hcurly in Hbr. discriminate. }
      destruct (findMaxItemsWide_result (item :: items) (c_maxLineLength c))
        as (best & Hbest & Hone & _); [discriminate|].
      rewrite Hbest in Hfind. inversion Hfind; subst itemsWide columnWidths.
      destruct (grid_rows_first item items best) as (row & others & Hgrid); [lia|].
      rewrite Hgrid in Hrows. cbn [mapM] in Hrows.
      unfold joinColumns at 1 in Hrows.
      destruct (joinColumns_from item row _) as [tail| |]; cbn [bind] in Hrows;
        try discriminate.
      destruct (mapM _ others) as [rows'| |]; cbn [bind] in Hrows; try discriminate.
      inversion Hrows; subst rows. left. now apply starts_item_app.
    + inversion Hrun; subst text. now apply Hblock.
Qed.

Lemma formatObject_start (c : closure) (items : list string) (depth : nat)
    (nestedItems : bool) (keyLength : Z) (allowInline : bool) (text : string) :
  formatObject c items depth nestedItems keyLength allowInline = Ok text ->
  (items <> [] -> rows_start items) ->
  starts_block c depth text.
Proof.
  intros Hrun Hstart. unfold formatObject in Hrun.
  destruct items as [|item items];
    [inversion Hrun; split; [reflexivity | discriminate]|].
  specialize (Hstart ltac:(discriminate)).
  match type of Hrun with (if ?b then _ else _) = _ => destruct b eqn:Hinline end.
  - inversion Hrun; subst text. split; [reflexivity|].
    intros Hnl.
    repeat (apply andb_true_iff in Hinline; destruct Hinline as [Hinline ?]).
    match goal with H : negb _ = true |- _ => apply negb_true_iff in H; congruence end.
  - inversion Hrun; subst text. split; [reflexivity|]. intros _.
    destruct (one_per_line_start c "{" "}" (item :: items) depth Hstart)
      as (ch & rest & E & Hch).
    exists "{", ch, rest. split; [now right | split; assumption].
Qed.

Lemma Forall2_map_left {A B C : Type} (P : B -> C -> Prop) (f : A -> B)
    (l : list A) (cs : list C) :
  Forall2 (fun a c => P (f a) c) l cs -> Forall2 P (map f l) cs.
Proof.
  induction 1; simpl; constructor; assumption.
Qed.

Lemma Forall2_in_left {A B : Type} (R : A -> B -> Prop) (l : list A) (bs : list B)
    (a : A) :
  Forall2 R l bs -> In a l -> exists b, In b bs /\ R a b.
Proof.
  induction 1 as [|x y l bs Hxy _ IH]; intros Ha; [contradiction|].
  destruct Ha as [->|Ha].
  - exists y. split; [now left | assumption].
  - destruct (IH Ha) as (b & Hb & Hab). exists b. split; [now right | assumption].
Qed.

Lemma table_row_opens (open close : string) (columns : list column)
    (i : nat) (lastFilledColumn : option Z) (stop : Z) (t : string) :
  table_row open close columns i lastFilledColumn stop = Ok t ->
  exists body, t = open ++ body.
Proof.
  unfold table_row. destruct (mapM _ _) as [parts| |]; cbn [bind]; try discriminate.
  intros H. inversion H. eexists. reflexivity.
Qed.

(** A row of a table is empty where the row value is [undefined], and
    starts with its bracket everywhere else. *)
Lemma tableOfArrays_rows (c : closure) (fuel : nat) (rowArrs : list value)
    (columnCount : nat) (table : list string) :
  tableOfArrays c fuel rowArrs columnCount = Ok (Some table) ->
  Forall2 (fun row t =>
             if is_undefined row then t = EmptyString
             else (first_char_is "["%char t || first_char_is "{"%char t) = true)
          rowArrs table.
Proof.
  destruct fuel as [|fuel]; [discriminate|]. cbn [tableOfArrays].
  destruct (mapM_opt _ _) as [[columns|]| |]; cbn [bind]; try discriminate.
  destruct (mapM _ (indexed rowArrs)) as [rows| |] eqn:E; cbn [bind]; try discriminate.
  intros H. inversion H; subst table.
  apply mapM_Forall2_run in E.
  pose proof (map_snd_indexed rowArrs) as Hsnd.
  rewrite <- Hsnd at 1. apply Forall2_map_left.
  refine (Forall2_impl _ _ E). intros [i row] t Ht. cbn [snd].
  destruct (is_undefined row); [now inversion Ht|].
  apply table_row_opens in Ht. destruct Ht as [body ->]. reflexivity.
Qed.

Lemma tableOfObjects_rows (c : closure) (fuel : nat) (rowObjs : list value)
    (columnOrder : list string) (table : list string) :
  tableOfObjects c fuel rowObjs columnOrder = Ok (Some table) ->
  Forall2 (fun row t =>
             if is_undefined row then t = EmptyString
             else (first_char_is "["%char t || first_char_is "{"%char t) = true)
          rowObjs table.
Proof.
  destruct fuel as [|fuel]; [discriminate|]. cbn [tableOfObjects].
  destruct (mapM_opt _ _) as [[columns|]| |]; cbn [bind]; try discriminate.
  destruct (mapM _ (indexed rowObjs)) as [rows| |] eqn:E; cbn [bind]; try discriminate.
  intros H. inversion H; subst table.
  apply mapM_Forall2_run in E.
  pose proof (map_snd_indexed rowObjs) as Hsnd.
  rewrite <- Hsnd at 1. apply Forall2_map_left.
  refine (Forall2_impl _ _ E). intros [i row] t Ht. cbn [snd].
  destruct (is_undefined row); [now inversion Ht|].
  destruct (findLastIndex_in columnOrder row) as [last| |]; cbn [bind] in Ht;
    try discriminate.
  apply table_row_opens in Ht. destruct Ht as [body ->]. reflexivity.
Qed.

Lemma table_rows_start (rowValues : list value) (table : list string) :
  Forall2 (fun row t =>
             if is_undefined row then t = EmptyString
             else (first_char_is "["%char t || first_char_is "{"%char t) = true)
          rowValues table ->
  (exists v, In v rowValues /\ is_undefined v = false) ->
  rows_start table.
Proof.
  intros H (v & Hv & Hd).
  destruct H as [|row t rowValues table Hrow Hrest]; [contradiction|].
  cbn [rows_start]. destruct (is_undefined row) eqn:Hu.
  - right. split; [exact Hrow|].
    destruct Hv as [->|Hv]; [congruence|].
    destruct (Forall2_in_left _ _ _ _ Hrest Hv) as (r & Hr & Hvr).
    rewrite Hd in Hvr. exists r. split; assumption.
  - left. now apply starts_item_bracket.
Qed.

(** What [processValue] returns for a value: see [starts_block]. *)
Lemma processValue_start (c : closure) :
  forall (fuel : nat) (key : string) (val : value) (depth : nat) (parentObj : value)
         (keyLength : Z) (allowTables : bool) (p : processed),
    processValue c fuel key val depth parentObj keyLength allowTables = Ok (Some p) ->
    starts_block c depth (result p).
Proof.
  induction fuel as [|fuel IH];
    intros key val depth parentObj keyLength allowTables p Hrun; [discriminate|].
  cbn [processValue] in Hrun.
  destruct (apply_replace c parentObj key val) as [| |b|n|z|s|a r|items|props];
    try discriminate.
  - inversion Hrun; subst p. split; [reflexivity | discriminate].
  - inversion Hrun; subst p. destruct b; (split; [reflexivity | discriminate]).
  - cbn [JSON_stringify_scalar bind] in Hrun. inversion Hrun; subst p. cbn [result].
    destruct (number_json_plain n) as [Hn Hs]. split; [exact Hs | congruence].
  - cbn [JSON_stringify_scalar bind] in Hrun. inversion Hrun; subst p. cbn [result].
    split; [reflexivity | rewrite QuoteJSONString_no_newline; discriminate].
  - (* an array *)
    assert (Hfallback :
      forall q,
        (rendered <- mapM (fun '(i, item) =>
                       p <- processValue c fuel (nat_to_string i) item
                              (depth + 1) (VArray items) 0 true ;;
                       match p with
                       | Some p => Ok (result p)
                       | None => no_result
                       end)
                     (indexed items) ;;
         let '(nested, multipleNestedItems) := array_flags items in
         r <- formatArray c rendered depth multipleNestedItems keyLength
                (inline_allowed c parentObj key (VArray items)) ;;
         Ok (Some {| result := r; nested := nested |})) = Ok (Some q) ->
        starts_block c depth (result q)).
    { intros q Hq.
      destruct (mapM _ (indexed items)) as [rendered| |] eqn:Hm; cbn [bind] in Hq;
        try discriminate.
      destruct (array_flags items) as [nested multiple].
      destruct (formatArray c rendered depth multiple keyLength _) as [text| |] eqn:Hf;
        cbn [bind] in Hq; try discriminate.
      inversion Hq; subst q. cbn [result].
      apply (formatArray_start _ _ _ _ _ _ _ Hf).
      intros Hne. destruct rendered as [|first more]; [contradiction|]. left.
      destruct (mapM_In _ _ _ Hm first (or_introl eq_refl)) as ([i item] & _ & Hitem).
      destruct (processValue c fuel _ item _ _ _ _) as [[p'|]| |] eqn:Hp;
        cbn [bind] in Hitem; try discriminate.
      inversion Hitem; subst first. exact (proj1 (IH _ _ _ _ _ _ _ Hp)). }
    destruct (c_tableArrays c && allowTables && table_allowed c parentObj key (VArray items));
      [|cbn [bind] in Hrun; now apply Hfallback].
    match type of Hrun with
    | context [getTableColumnOrder (VArray ?r) _ _] => set (rval := r) in Hrun
    end.
    destruct (getTableColumnOrder_array_columns rval (c_maxObjectProperties c)
                (c_tableMinSharedKeys c)) as (order & Horder & Hcols).
    rewrite Horder in Hrun. cbn [bind] in Hrun.
    destruct order as [columnOrder|]; cbn [bind] in Hrun; [|now apply Hfallback].
    destruct (Hcols columnOrder eq_refl) as [Htwo _].
    match type of Hrun with
    | context [if ?b then tableOfArrays ?c ?f ?r ?n else tableOfObjects _ _ _ ?o] =>
        destruct (if b then tableOfArrays c f r n else tableOfObjects c f r o)
          as [[rows|]| |] eqn:Hrows
    end; cbn [bind] in Hrun; try discriminate; [|now apply Hfallback].
    destruct (forallb _ rows); [|now apply Hfallback].
    destruct (formatArray c rows depth true keyLength true) as [text| |] eqn:Hf;
      cbn [bind] in Hrun; try discriminate.
    inversion Hrun; subst p. cbn [result].
    apply (formatArray_start _ _ _ _ _ _ _ Hf). intros _.
    apply (table_rows_start rval).
    + match type of Hrows with (if ?b then _ else _) = _ => destruct b end;
        [exact (tableOfArrays_rows _ _ _ _ _ Hrows)
        | exact (tableOfObjects_rows _ _ _ _ _ Hrows)].
    + destruct (filter representable rval) as [|v vs] eqn:Hfilter; [simpl in Htwo; lia|].
      assert (Hv : In v (filter representable rval)) by (rewrite Hfilter; now left).
      apply filter_In in Hv. destruct Hv as [Hv Hrep].
      exists v. split; [exact Hv|]. destruct v; try reflexivity; discriminate.
  - (* an object *)
    destruct (toJSON_of (VObject props)) as [converted|];
      [exact (IH _ _ _ _ _ _ _ Hrun)|].
    match type of Hrun with
    | (block <- ?b ;; _) = _ => destruct b as [[[q|]|]| |] eqn:Hblock
    end; cbn [bind] in Hrun; try discriminate.
    + inversion Hrun; subst q. clear Hrun.
      destruct (c_tableObjects c && allowTables
                && table_allowed c parentObj key (VObject props)); [|discriminate].
      destruct (getTableColumnOrder _ _ _) as [[columnOrder|]| |]; cbn [bind] in Hblock;
        try discriminate.
      match type of Hblock with (if ?b then _ else _) = _ => destruct b end;
        [discriminate|].
      match type of Hblock with
      | (rows <- ?b ;; _) = _ => destruct b as [[rows|]| |]
      end; cbn [bind] in Hblock; try discriminate.
      destruct (mapM _ (indexed rows)) as [labelled| |] eqn:Hlab; cbn [bind] in Hblock;
        try discriminate.
      destruct (existsb _ labelled); [discriminate|].
      destruct (formatObject c labelled depth true keyLength true) as [text| |] eqn:Hf;
        cbn [bind] in Hblock; try discriminate.
      inversion Hblock; subst p. cbn [result].
      apply (formatObject_start _ _ _ _ _ _ _ Hf).
      intros Hne. destruct labelled as [|first more]; [contradiction|]. left.
      destruct (mapM_In _ _ _ Hlab first (or_introl eq_refl)) as ([i row] & _ & Hrow).
      destruct (nth_error _ i) as [jsonKey|] eqn:Hk; [|discriminate].
      destruct (str_repeat_nan _ _) as [pad| |]; cbn [bind] in Hrow; try discriminate.
      inversion Hrow. apply nth_error_In in Hk. apply in_map_iff in Hk.
      destruct Hk as (k & <- & _). apply QuoteJSONString_starts.
    + match type of Hrun with
      | (rendered <- mapM ?f ?l ;; _) = _ =>
          destruct (mapM f l) as [rendered| |] eqn:Hm
      end; cbn [bind] in Hrun; try discriminate.
      destruct (formatObject c (map fst rendered) depth _ keyLength _) as [text| |] eqn:Hf;
        cbn [bind] in Hrun; try discriminate.
      inversion Hrun; subst p. cbn [result].
      apply (formatObject_start _ _ _ _ _ _ _ Hf).
      intros Hne. destruct rendered as [|[first isNested] more]; [contradiction|].
      left. cbn [map fst].
      destruct (mapM_In _ _ _ Hm (first, isNested) (or_introl eq_refl)) as (k & _ & Hk).
      destruct (processValue c fuel k _ _ _ _ _) as [[p'|]| |]; cbn [bind] in Hk;
        try discriminate.
      inversion Hk. rewrite append_assoc_string. apply QuoteJSONString_starts.
Qed.

(** C10: the indent unit is never longer than 10 characters: a number is
    clamped into [0, 10] spaces, a string is cut to its first 10
    characters, and [null] is the empty indent, which sends the call to
    the built-in [JSON.stringify].  That unit is the one the text is
    written with: it is the [indent] the closures capture, and when
    [stringify] with an indent that is not empty returns a text of
    several lines, the text is a block with its bracket alone on the
    first line, and its second line is exactly one unit followed by a
    character that is not white space. *)
Theorem indent_unit_at_most_10 (o : StringifyOptions) :
  (String.length (indent_of o) <= 10)%nat /\
  match indent o with
  | IndentNumber n =>
      indent_of o = repeat_nat " " (Z.to_nat (clamp10 n)) /\
      Z.of_nat (String.length (indent_of o)) = clamp10 n
  | IndentString s =>
      indent_of o = substring 0 10 s /\
      String.length (indent_of o) = Nat.min 10 (String.length s)
  | IndentNull =>
      indent_of o = EmptyString /\
      forall fuel v, stringify fuel v o = JSON_stringify fuel v (replace o)
  | IndentAbsent => indent_of o = "  "
  end /\
  c_indent (capture o) = indent_of o /\
  (forall (fuel : nat) (v : value) (text : string),
     ~ empty_indent o ->
     stringify fuel v o = Ok (Some text) ->
     includes_newline text = true ->
     exists open ch rest,
       (open = "[" \/ open = "{") /\
       text = open ++ newline ++ indent_of o ++ String ch rest /\
       is_ws ch = false).
Proof.
  split; [|split; [|split; [reflexivity|]]].
  - unfold indent_of. destruct (indent o) as [| |n|s]; try (simpl; lia).
    + rewrite length_repeat_space. lia.
    + rewrite length_substring_0. lia.
  - unfold stringify, indent_of. destruct (indent o) as [| |n|s].
    + reflexivity.
    + split; [reflexivity | intros; reflexivity].
    + assert (E : Z.max 0 (Z.min 10 n) = clamp10 n).
      { unfold clamp10. destruct (Z.ltb_spec n 0); destruct (Z.ltb_spec 10 n); lia. }
      rewrite E, length_repeat_space. split; [reflexivity|].
      unfold clamp10. destruct (Z.ltb_spec n 0); destruct (Z.ltb_spec 10 n); lia.
    + rewrite length_substring_0. split; reflexivity.
  - intros fuel v text Hne Hrun Hnl. unfold stringify in Hrun.
    destruct (String.length (indent_of o) =? 0)%nat eqn:Hz.
    { apply Nat.eqb_eq in Hz. apply empty_indent_cases in Hz. contradiction. }
    assert (Hp : exists p,
               processValue (capture o) fuel EmptyString v 0 (root_holder v) 0 true
               = Ok (Some p) /\ text = result p).
    { destruct (replace o); try discriminate;
        destruct (allowInline o); try discriminate;
        destruct (allowTable o); try discriminate;
        (destruct (processValue _ fuel _ v _ _ _ _) as [[p|]| |]; cbn [bind] in Hrun;
         try discriminate; inversion Hrun; exists p; split; reflexivity). }
    destruct Hp as (p & Hp & ->).
    destruct (processValue_start _ _ _ _ _ _ _ _ _ Hp) as [_ Hblock].
    destruct (Hblock Hnl) as (open & ch & rest & Hopen & E & Hch).
    exists open, ch, rest. split; [exact Hopen|]. split; [|exact Hch].
    rewrite E. cbn [Nat.add repeat_nat]. now rewrite append_empty_r.
Qed.

Lemma indent_unit_at_most_10_witness :
  let o := with_indent_allowInline (IndentNumber 20) Absent in
  let v := VArray [nums [1; 2]; nums [3; 4]] in
  let text := js "[$          [ 1, 2 ],$          [ 3, 4 ]$]" in
  ~ empty_indent o /\
  stringify 3 v o = Ok (Some text) /\
  includes_newline text = true /\
  c_indent (capture o) = "          " /\
  exists open ch rest,
    (open = "[" \/ open = "{") /\
    text = open ++ newline ++ "          " ++ String ch rest /\
    is_ws ch = false.
Proof.
  intros o v text.
  assert (Hne : ~ empty_indent o) by (unfold o, empty_indent; simpl; lia).
  assert (Hrun : stringify 3 v o = Ok (Some text)) by reflexivity.
  assert (Hnl : includes_newline text = true) by reflexivity.
  destruct (indent_unit_at_most_10 o) as (_ & _ & Hunit & Hwritten).
  split; [exact Hne|]. split; [exact Hrun|]. split; [exact Hnl|].
  split; [exact Hunit|].
  exact (Hwritten 3%nat v text Hne Hrun Hnl).
Defined.
